(** * Event management system: records, codec, allocation and registration

    A shallow embedding of [final-project-group8-inteprog.cpp] and the
    properties of its record-allocation and flat-file subsystem.

    Conventions of the embedding.
    - A C++ [int] is a [Z].  Arithmetic is the mathematical one: signed
      overflow is undefined behaviour in C++, so the development speaks
      about executions in which no [int] computation overflows.  [stoi]
      does check the 32-bit range, as the library function does.
    - [std::string] is [string]; [std::vector<T>] is [list T];
      [std::map<int,int>] is [gmap Z Z], iterated in ascending key order
      through [items].
    - [enum class] values are their underlying integers.
    - A pointer into a vector ([Event*], [InventoryItem*], [Attendee*]) is
      the index of the element; [User*] is an address paired with the
      object in the [users] vector.
    - Text written to [cout]/[cerr] is a list of [Msg], oldest first
      ([Notice] for the operations that prompt).  A file is the text the
      [exportX] functions write, every record on a line of its own; the
      operations do not carry the files along, [saveData] gives them for
      a state.
    - Values typed at an [int] prompt are arguments of the operation.  The
      lines the string prompts read are taken from the input where the
      operation is a [Prompt], and are arguments otherwise.

    The model comes first, then the notions and the states the statements
    use, then the properties. *)

From Stdlib Require Import ZArith String Ascii List Bool Lia.
From Stdlib Require Import DecimalString DecimalZ.
From stdpp Require Import base decidable option list gmap fin_maps sorting.
Import ListNotations.
Local Open Scope string_scope.
Local Open Scope Z_scope.

(** ** Integers *)

Module Int.
Definition INT_MIN : Z := -2147483648.
Definition INT_MAX : Z := 2147483647.
Definition in_range (z : Z) : bool := (INT_MIN <=? z) && (z <=? INT_MAX).

(** [operator<<(int)] and [std::to_string(int)]: decimal, with a leading
    minus sign for negative values. *)
Definition to_string (z : Z) : string := NilZero.string_of_int (Z.to_int z).
End Int.

(** ** Characters and strings *)

Definition is_digit (c : ascii) : bool :=
  let n := nat_of_ascii c in (48 <=? n)%nat && (n <=? 57)%nat.

Definition digit_value (c : ascii) : Z := Z.of_nat (nat_of_ascii c) - 48.

(** [isspace] in the "C" locale: space, and the controls 9 to 13. *)
Definition is_space (c : ascii) : bool :=
  let n := nat_of_ascii c in (n =? 32)%nat || ((9 <=? n)%nat && (n <=? 13)%nat).

(** [tolower] in the "C" locale. *)
Definition tolower (c : ascii) : ascii :=
  let n := nat_of_ascii c in
  if (65 <=? n)%nat && (n <=? 90)%nat then ascii_of_nat (n + 32) else c.

Fixpoint string_map (f : ascii -> ascii) (s : string) : string :=
  match s with
  | EmptyString => EmptyString
  | String c s' => String (f c) (string_map f s')
  end.

Definition toLower (s : string) : string := string_map tolower s.

Fixpoint count_char (d : ascii) (s : string) : nat :=
  match s with
  | EmptyString => 0%nat
  | String c s' => ((if Ascii.eqb c d then 1 else 0) + count_char d s')%nat
  end.

Definition string_empty (s : string) : bool :=
  match s with EmptyString => true | _ => false end.

(** ** [std::stoi] *)

Fixpoint skip_space (s : string) : string :=
  match s with
  | String c s' => if is_space c then skip_space s' else s
  | EmptyString => s
  end.

(** The value of the longest prefix of decimal digits, with the number of
    digits read. *)
Fixpoint read_digits (acc : Z) (n : nat) (s : string) : Z * nat :=
  match s with
  | String c s' => if is_digit c then read_digits (10 * acc + digit_value c) (S n) s'
                   else (acc, n)
  | EmptyString => (acc, n)
  end.

Inductive stoi_error := invalid_argument | out_of_range.

(** [std::stoi(s)]: leading white space is skipped, an optional sign is
    read, then as many decimal digits as there are; what follows them is
    ignored.  No digit: [invalid_argument]; a value that does not fit an
    [int]: [out_of_range]. *)
Definition stoi (s : string) : stoi_error + Z :=
  let s1 := skip_space s in
  let '(neg, s2) :=
    match s1 with
    | String "-" r => (true, r)
    | String "+" r => (false, r)
    | _ => (false, s1)
    end in
  match read_digits 0 0 s2 with
  | (_, O) => inl invalid_argument
  | (v, _) => let v' := if neg then - v else v in
              if Int.in_range v' then inr v' else inl out_of_range
  end.

(** ** [std::stringstream] as an input stream *)

Record istream := { buf : string; eofbit : bool; failbit : bool }.

Definition istream_of (s : string) : istream :=
  {| buf := s; eofbit := false; failbit := false |}.

Definition good (ss : istream) : bool := negb (eofbit ss) && negb (failbit ss).

(** The characters before the first [d], and what follows that [d] when
    there is one. *)
Fixpoint read_until (d : ascii) (s : string) : string * option string :=
  match s with
  | EmptyString => (EmptyString, None)
  | String c s' =>
      if Ascii.eqb c d then (EmptyString, Some s')
      else let '(w, r) := read_until d s' in (String c w, r)
  end.

(** [getline(ss, var, d)], where [old] is the value [var] has before the
    call.  A stream that is not good only gets [failbit] and leaves [var]
    alone.  Otherwise [var] is erased and characters are extracted up to
    and including the first [d]; running into the end sets [eofbit], and
    [failbit] too when nothing at all was extracted. *)
Definition getline (ss : istream) (d : ascii) (old : string) : istream * string :=
  if good ss then
    match read_until d (buf ss) with
    | (w, Some rest) => ({| buf := rest; eofbit := false; failbit := false |}, w)
    | (w, None) => ({| buf := ""; eofbit := true; failbit := string_empty (buf ss) |}, w)
    end
  else ({| buf := buf ss; eofbit := eofbit ss; failbit := true |}, old).

(** [ss.peek()]: [None] is [EOF].  On a good stream at its end it sets
    [eofbit]; on a stream that is not good it sets [failbit]. *)
Definition peek (ss : istream) : istream * option ascii :=
  if good ss then
    match buf ss with
    | EmptyString => ({| buf := ""; eofbit := true; failbit := failbit ss |}, None)
    | String c _ => (ss, Some c)
    end
  else ({| buf := buf ss; eofbit := eofbit ss; failbit := true |}, None).

(** [while (getline(ss, piece, d))]: the successive pieces. *)
Fixpoint split_on (d : ascii) (s : string) : list string :=
  match s with
  | EmptyString => []
  | String c s' =>
      if Ascii.eqb c d then EmptyString :: split_on d s'
      else match split_on d s' with
           | [] => [String c EmptyString]
           | w :: ws => String c w :: ws
           end
  end.

(** ** Prompts and validators *)

(** [input.erase(input.find_last_not_of(" \t\n\r\f\v") + 1)]: the string
    without its trailing white space (the six characters are those of
    [is_space]). *)
Fixpoint drop_trailing_space (s : string) : string :=
  match s with
  | EmptyString => EmptyString
  | String c s' =>
      match drop_trailing_space s' with
      | EmptyString => if is_space c then EmptyString else String c EmptyString
      | r => String c r
      end
  end.

(** The two [erase] calls of [getStringInput]: leading white space goes
    first, then trailing white space. *)
Definition trim (s : string) : string := drop_trailing_space (skip_space s).

(** What a prompt loop tells the user about a line it does not take. *)
Inductive Rejection := InputEmpty | InputInvalid.

(** [while (true) { x = getStringInput(prompt); if (valid(x)) break; ... }]
    on the lines still to come on [cin].  [getStringInput] itself loops
    over the lines until one is not empty once trimmed; the loop around it
    asks again until the value is valid.  [None]: the input ends before a
    line is taken, and the loops never come back. *)
Fixpoint read_valid (valid : string -> bool) (cin : list string)
  : list Rejection * option (string * list string) :=
  match cin with
  | [] => ([], None)
  | line :: rest =>
      let input := trim line in
      if string_empty input then
        let '(log, r) := read_valid valid rest in (InputEmpty :: log, r)
      else if valid input then ([], Some (input, rest))
      else let '(log, r) := read_valid valid rest in (InputInvalid :: log, r)
  end.

Definition getStringInput (cin : list string)
  : list Rejection * option (string * list string) :=
  read_valid (fun _ => true) cin.

Definition char_is (c : ascii) (o : option ascii) : bool :=
  match o with Some c' => Ascii.eqb c' c | None => false end.

Definition isValidDate (date : string) : bool :=
  if negb (String.length date =? 10)%nat then false
  else if negb (char_is "-" (String.get 4 date)) || negb (char_is "-" (String.get 7 date))
  then false
  else
    match stoi (String.substring 0 4 date), stoi (String.substring 5 2 date),
          stoi (String.substring 8 2 date) with
    | inr year, inr month, inr day =>
        if (year <? 1900) || (2100 <? year) then false
        else if (month <? 1) || (12 <? month) then false
        else if (day <? 1) || (31 <? day) then false
        else true
    | _, _, _ => false
    end.

Definition isValidTime (time : string) : bool :=
  if negb (String.length time =? 5)%nat then false
  else if negb (char_is ":" (String.get 2 time)) then false
  else
    match stoi (String.substring 0 2 time), stoi (String.substring 3 2 time) with
    | inr hour, inr minute =>
        if (hour <? 0) || (23 <? hour) then false
        else if (minute <? 0) || (59 <? minute) then false
        else true
    | _, _ => false
    end.

(** ** Diagnostics and reports *)

Inductive Msg :=
  (* decoding *)
  | WarnMalformedUser (line : string)
  | WarnInvalidUserFormat (line : string)
  | WarnUnknownRole (line : string)
  | WarnMalformedAttendee (line : string)
  | WarnMalformedInventory (line : string)
  | WarnMalformedEvent (line : string)
  | WarnMalformedEventItem (item : string)
  (* Attendee, InventoryItem, Event *)
  | CheckedIn (name : string) (eventId : Z)
  | AlreadyCheckedIn (name : string) (eventId : Z)
  | ErrAllocationNotPositive
  | ErrNotEnough (name : string) (available : Z)
  | ErrDeallocationNotPositive
  | ErrCannotDeallocate (qty : Z) (name : string) (allocated : Z)
  | ErrTotalNegative
  | ErrTotalBelowAllocated (newTotal allocated : Z)
  | TotalUpdated (name : string) (total : Z)
  | InfoAlreadyRegistered (attId : Z) (eventName : string)
  (* System *)
  | ErrCannotDeleteLoggedIn
  | UserDeleted (uname : string)
  | UserNotFound (uname : string)
  | EventNotFound (eventId : Z)
  | EventDeleted (name : string) (eventId : Z)
  | StatusUpdated (status : Z)
  | InvalidStatusChoice
  | OnlyRegularUsers
  | CannotRegister (status : Z)
  | RegistrationConfirmed (eventName : string)
  | RegisteredNew (name : string) (attId : Z) (eventName : string)
  | RegistrationCanceled (eventName : string)
  | NotRegistered (eventName : string)
  | AttendeeNotFoundOrNotRegistered (attId eventId : Z)
  | ItemNotFound (itemId : Z)
  | AvailableQuantity (name : string) (available : Z)
  | Allocated (qty : Z) (item event : string)
  | NotAllocatedToEvent (item event : string)
  | CurrentlyAllocated (qty : Z) (item : string)
  | Deallocated (qty : Z) (item event : string)
  | NoQuantityDeallocated
  | ItemUpdated
  | InvalidChoice
  | ContactUpdated
  | ProfileCreated.

(** What leaves a function: a value, or an exception nobody caught. *)
Inductive exn := stoi_failure (e : stoi_error) | logic_error.

Inductive outcome (A : Type) :=
  | Done (log : list Msg) (a : A)
  | Raised (log : list Msg) (e : exn).
Arguments Done {A} log a.
Arguments Raised {A} log e.

(** ** Enumerations *)

Module Role.
Definition ADMIN : Z := 0.
Definition REGULAR_USER : Z := 1.
Definition NONE : Z := 2.
End Role.

Module EventStatus.
Definition UPCOMING : Z := 0.
Definition ONGOING : Z := 1.
Definition COMPLETED : Z := 2.
Definition CANCELED : Z := 3.
End EventStatus.

(** The static [nextXId] counters: [initNextId] and the constructors that
    take an id. *)
Definition initNextId (id next : Z) : Z := if next <=? id then id + 1 else next.

Definition comma : ascii := ",".
Definition semicolon : ascii := ";".
Definition colon : ascii := ":".
Definition newline : ascii := ascii_of_nat 10.

(** ** Files as text *)

(** What [exportX] writes: every line followed by [endl]. *)
Fixpoint write_lines (lines : list string) : string :=
  match lines with
  | [] => EmptyString
  | line :: rest => line ++ String newline (write_lines rest)
  end.

(** [while (getline(inFile, line))]: the lines of a file. *)
Definition read_lines (text : string) : list string := split_on newline text.

(** ** Notices of the interactive operations *)

(** What the operations below say; prompts, menus and headings are left
    out, and so are the reports of the export strategy. *)

Inductive Notice :=
  | Said (m : Msg)
  | Rejected (r : Rejection)
  | UsernameExists
  | PasswordTooShort
  | InvalidRole
  | UserCreated (role : Z) (uname : string) (userId : Z)
  | LoginSuccessful (uname : string)
  | LoginFailed
  | LoggingOut (uname : option string)
  | EventCreated (name : string) (eventId : Z)
  | NoSuchEvent (eventId : Z)
  | DetailsUpdated
  | NoChanges
  | ItemAdded (name : string) (itemId : Z).

(** An operation that reads lines typed at its prompts: from the lines
    still to come, what it prints, and its result with the lines left, or
    [None] when the input ends under a prompt loop. *)
Definition Prompt (A : Type) : Type :=
  list string -> list Notice * option (A * list string).

Definition ret {A} (a : A) : Prompt A := fun cin => ([], Some (a, cin)).

Definition bind {A B} (m : Prompt A) (k : A -> Prompt B) : Prompt B :=
  fun cin =>
    match m cin with
    | (log, None) => (log, None)
    | (log, Some (a, cin')) => let '(log', r) := k a cin' in ((log ++ log')%list, r)
    end.

Notation "'let*' x := m 'in' k" := (bind m (fun x => k))
  (at level 10, x name, m at level 100, k at level 200).

Definition tell (n : Notice) : Prompt unit := fun cin => ([n], Some (tt, cin)).

(** A prompt loop that asks until the value is valid. *)
Definition ask (valid : string -> bool) : Prompt string :=
  fun cin => let '(log, r) := read_valid valid cin in (map Rejected log, r).

Definition any_string (_ : string) : bool := true.

(** An operation that prompts for nothing. *)
Definition say {A} (r : list Notice * A) : Prompt A := fun cin => (r.1, Some (r.2, cin)).

Definition said {A} (r : list Msg * A) : Prompt A :=
  fun cin => (map Said r.1, Some (r.2, cin)).

(** ** User *)

Module User.
Record t := mk { userId : Z; username : string; password : string; role : Z }.

Definition toString (u : t) : string :=
  Int.to_string (userId u) ++ "," ++ username u ++ "," ++ password u ++ ","
    ++ Int.to_string (role u).

(** [User::fromString]: [None] is [nullptr]. *)
Definition fromString (str : string) : list Msg * option t :=
  let ss := istream_of str in
  if string_empty str || (count_char comma str <? 3)%nat then
    ([WarnMalformedUser str], None)
  else
    let '(ss, segment) := getline ss comma "" in
    match stoi segment with
    | inl _ => ([WarnInvalidUserFormat str], None)
    | inr id =>
        let '(ss, uname) := getline ss comma "" in
        let '(ss, pwd) := getline ss comma "" in
        let '(ss, segment) := getline ss comma segment in
        match stoi segment with
        | inl _ => ([WarnInvalidUserFormat str], None)
        | inr role_val =>
            if role_val =? Role.ADMIN then ([], Some (mk id uname pwd Role.ADMIN))
            else if role_val =? Role.REGULAR_USER then
              ([], Some (mk id uname pwd Role.REGULAR_USER))
            else ([WarnUnknownRole str], None)
        end
    end.
End User.

(** ** Attendee *)

Module Attendee.
Record t := mk {
  attendeeId : Z;
  name : string;
  contactInfo : string;
  eventIdRegisteredFor : Z;
  isCheckedIn : bool
}.

Definition set_contactInfo (c : string) (a : t) : t :=
  mk (attendeeId a) (name a) c (eventIdRegisteredFor a) (isCheckedIn a).

Definition checkIn (a : t) : list Msg * t :=
  if negb (isCheckedIn a) then
    ([CheckedIn (name a) (eventIdRegisteredFor a)],
     mk (attendeeId a) (name a) (contactInfo a) (eventIdRegisteredFor a) true)
  else ([AlreadyCheckedIn (name a) (eventIdRegisteredFor a)], a).

Definition toString (a : t) : string :=
  Int.to_string (attendeeId a) ++ "," ++ name a ++ "," ++ contactInfo a ++ ","
    ++ Int.to_string (eventIdRegisteredFor a) ++ ","
    ++ (if isCheckedIn a then "1" else "0").

Definition error_record : t := mk 0 "ERROR" "ERROR" 0 false.

Definition fromString (str : string) : list Msg * t :=
  let ss := istream_of str in
  let '(ss, segment) := getline ss comma "" in
  match stoi segment with
  | inl _ => ([WarnMalformedAttendee str], error_record)
  | inr id =>
      let '(ss, name) := getline ss comma "" in
      let '(ss, contact) := getline ss comma "" in
      let '(ss, segment) := getline ss comma segment in
      match stoi segment with
      | inl _ => ([WarnMalformedAttendee str], error_record)
      | inr eventId =>
          let '(ss, segment) := getline ss comma segment in
          ([], mk id name contact eventId (String.eqb segment "1"))
      end
  end.
End Attendee.

(** ** InventoryItem *)

Module InventoryItem.
Record t := mk {
  itemId : Z;
  name : string;
  totalQuantity : Z;
  allocatedQuantity : Z;
  description : string
}.

Definition set_allocatedQuantity (q : Z) (i : t) : t :=
  mk (itemId i) (name i) (totalQuantity i) q (description i).
Definition set_totalQuantity (q : Z) (i : t) : t :=
  mk (itemId i) (name i) q (allocatedQuantity i) (description i).

Definition getAvailableQuantity (i : t) : Z := totalQuantity i - allocatedQuantity i.

Definition allocate (quantityToAllocate : Z) (i : t) : list Msg * t * bool :=
  if quantityToAllocate <=? 0 then ([ErrAllocationNotPositive], i, false)
  else if quantityToAllocate <=? getAvailableQuantity i then
    ([], set_allocatedQuantity (allocatedQuantity i + quantityToAllocate) i, true)
  else ([ErrNotEnough (name i) (getAvailableQuantity i)], i, false).

Definition deallocate (quantityToDeallocate : Z) (i : t) : list Msg * t * bool :=
  if quantityToDeallocate <=? 0 then ([ErrDeallocationNotPositive], i, false)
  else if quantityToDeallocate <=? allocatedQuantity i then
    ([], set_allocatedQuantity (allocatedQuantity i - quantityToDeallocate) i, true)
  else ([ErrCannotDeallocate quantityToDeallocate (name i) (allocatedQuantity i)], i, false).

Definition setTotalQuantity (newTotalQuantity : Z) (i : t) : list Msg * t :=
  if newTotalQuantity <? 0 then ([ErrTotalNegative], i)
  else if newTotalQuantity <? allocatedQuantity i then
    ([ErrTotalBelowAllocated newTotalQuantity (allocatedQuantity i)], i)
  else ([TotalUpdated (name i) newTotalQuantity], set_totalQuantity newTotalQuantity i).

Definition toString (i : t) : string :=
  Int.to_string (itemId i) ++ "," ++ name i ++ "," ++ Int.to_string (totalQuantity i)
    ++ "," ++ Int.to_string (allocatedQuantity i) ++ "," ++ description i.

Definition error_record : t := mk 0 "ERROR" 0 0 "ERROR".

Definition fromString (str : string) : list Msg * t :=
  let ss := istream_of str in
  let '(ss, segment) := getline ss comma "" in
  match stoi segment with
  | inl _ => ([WarnMalformedInventory str], error_record)
  | inr id =>
      let '(ss, name) := getline ss comma "" in
      let '(ss, segment) := getline ss comma segment in
      match stoi segment with
      | inl _ => ([WarnMalformedInventory str], error_record)
      | inr totalQty =>
          let '(ss, segment) := getline ss comma segment in
          match stoi segment with
          | inl _ => ([WarnMalformedInventory str], error_record)
          | inr allocQty =>
              let '(ss, desc) := getline ss newline "" in
              ([], mk id name totalQty allocQty desc)
          end
      end
  end.
End InventoryItem.

(** ** Event *)

(** The entries of a [std::map<int,int>] in iteration order: ascending keys. *)
Definition key_le (a b : Z * Z) : Prop := a.1 <= b.1.
Global Instance key_le_dec a b : Decision (key_le a b) := Z_le_dec a.1 b.1.

Definition items (m : gmap Z Z) : list (Z * Z) := merge_sort key_le (map_to_list m).

(** [m[k]] read as a value: the entry, or 0 when there is none. *)
Definition entry (m : gmap Z Z) (k : Z) : Z := default 0 (m !! k).

Fixpoint join (sep : string) (l : list string) : string :=
  match l with
  | [] => ""
  | [x] => x
  | x :: l' => x ++ sep ++ join sep l'
  end.

Module Event.
Record t := mk {
  eventId : Z;
  name : string;
  date : string;
  time : string;
  location : string;
  description : string;
  category : string;
  status : Z;
  attendeeIds : list Z;
  allocatedInventory : gmap Z Z
}.

Definition set_status (s : Z) (e : t) : t :=
  mk (eventId e) (name e) (date e) (time e) (location e) (description e) (category e)
     s (attendeeIds e) (allocatedInventory e).
Definition set_attendeeIds (l : list Z) (e : t) : t :=
  mk (eventId e) (name e) (date e) (time e) (location e) (description e) (category e)
     (status e) l (allocatedInventory e).
Definition set_allocatedInventory (m : gmap Z Z) (e : t) : t :=
  mk (eventId e) (name e) (date e) (time e) (location e) (description e) (category e)
     (status e) (attendeeIds e) m.

(** [std::find(attendeeIds.begin(), attendeeIds.end(), attId) != end]. *)
Definition has_attendee (attId : Z) (e : t) : bool :=
  existsb (Z.eqb attId) (attendeeIds e).

Definition addAttendee (attId : Z) (e : t) : list Msg * t :=
  if negb (has_attendee attId e) then ([], set_attendeeIds (attendeeIds e ++ [attId]) e)
  else ([InfoAlreadyRegistered attId (name e)], e).

(** [erase] of the first occurrence. *)
Fixpoint erase_first (x : Z) (l : list Z) : list Z :=
  match l with
  | [] => []
  | y :: l' => if y =? x then l' else y :: erase_first x l'
  end.

Definition removeAttendee (attId : Z) (e : t) : t :=
  set_attendeeIds (erase_first attId (attendeeIds e)) e.

Definition allocateInventoryItem (itmId quantity : Z) (e : t) : t :=
  if 0 <? quantity then
    set_allocatedInventory
      (<[itmId := entry (allocatedInventory e) itmId + quantity]> (allocatedInventory e)) e
  else e.

Definition deallocateInventoryItem (itmId quantityToDeallocate : Z) (e : t) : t * Z :=
  if quantityToDeallocate <=? 0 then (e, 0)
  else match allocatedInventory e !! itmId with
       | Some currentQty =>
           let actualDeallocated := Z.min currentQty quantityToDeallocate in
           let remaining := currentQty - actualDeallocated in
           (set_allocatedInventory
              (if remaining <=? 0 then delete itmId (allocatedInventory e)
               else <[itmId := remaining]> (allocatedInventory e)) e,
            actualDeallocated)
       | None => (e, 0)
       end.

Definition attendeesToString (e : t) : string :=
  join ";" (map Int.to_string (attendeeIds e)).

Definition inventoryToString (e : t) : string :=
  join ";" (map (fun p : Z * Z => Int.to_string p.1 ++ ":" ++ Int.to_string p.2)
                (items (allocatedInventory e))).

Definition toString (e : t) : string :=
  Int.to_string (eventId e) ++ "," ++ name e ++ "," ++ date e ++ "," ++ time e ++ ","
    ++ location e ++ "," ++ description e ++ "," ++ category e ++ ","
    ++ Int.to_string (status e) ++ "," ++ attendeesToString e ++ ","
    ++ inventoryToString e.

(** The loop over the pieces of the attendee field; the [stoi] is outside
    any [try], so its exception leaves [fromString]. *)
Fixpoint parse_attendees (pieces : list string) (ids : list Z) : stoi_error + list Z :=
  match pieces with
  | [] => inr ids
  | attIdStr :: rest =>
      if negb (string_empty attIdStr) then
        match stoi attIdStr with
        | inr v => parse_attendees rest (ids ++ [v])
        | inl e => inl e
        end
      else parse_attendees rest ids
  end.

(** The loop over the pieces of the allocation field.  A piece without a
    colon is passed over; one whose key or quantity [stoi] rejects is
    reported and passed over (both are converted before the map is
    touched, the right operand of the assignment first). *)
Fixpoint parse_inventory (pieces : list string) (m : gmap Z Z) : list Msg * gmap Z Z :=
  match pieces with
  | [] => ([], m)
  | itemStr :: rest =>
      if negb (string_empty itemStr) then
        match read_until colon itemStr with
        | (key, Some value) =>
            match stoi value, stoi key with
            | inr v, inr k => parse_inventory rest (<[k := v]> m)
            | _, _ =>
                let '(log, m') := parse_inventory rest m in
                (WarnMalformedEventItem itemStr :: log, m')
            end
        | (_, None) => parse_inventory rest m
        end
      else parse_inventory rest m
  end.

(** The handler of [fromString] builds [Event(0, "ERROR", "ERROR", "ERROR",
    "ERROR", "ERROR")]: six arguments, so the constructor chosen is the one
    taking six strings, and its first argument is made from the null
    pointer constant [0].  That is undefined behaviour; libstdc++ throws
    [std::logic_error], which is what is modelled, and no record is
    returned. *)
Definition malformed (str : string) : outcome t :=
  Raised [WarnMalformedEvent str] logic_error.

Definition is_comma (c : option ascii) : bool :=
  match c with Some c => Ascii.eqb c comma | None => false end.

Definition fromString (str : string) : outcome t :=
  let ss := istream_of str in
  let '(ss, segment) := getline ss comma "" in
  match stoi segment with
  | inl _ => malformed str
  | inr id =>
      let '(ss, name) := getline ss comma "" in
      let '(ss, date_str) := getline ss comma "" in
      let '(ss, time_str) := getline ss comma "" in
      let '(ss, loc) := getline ss comma "" in
      let '(ss, desc) := getline ss comma "" in
      let '(ss, cat) := getline ss comma "" in
      let '(ss, segment) := getline ss comma segment in
      match stoi segment with
      | inl _ => malformed str
      | inr stat =>
          let '(ss, c) := peek ss in
          let '(ss, attendeesStr) :=
            if is_comma c then
              let '(ss, segment) := getline ss comma segment in
              let '(ss, c') := peek ss in
              if negb (is_comma c') && good ss then getline ss comma ""
              else (ss, "")
            else (ss, "") in
          let '(ss, inventoryStr) :=
            if good ss then
              let '(ss, c'') := peek ss in
              if bool_decide (c'' <> None) then getline ss newline ""
              else (ss, "")
            else (ss, "") in
          match parse_attendees (split_on semicolon attendeesStr) [] with
          | inl e => Raised [] (stoi_failure e)
          | inr ids =>
              let '(log, inv) := parse_inventory (split_on semicolon inventoryStr) ∅ in
              Done log (mk id name date_str time_str loc desc cat stat ids inv)
          end
      end
  end.
End Event.

(** An event whose strings hold none of [,], [;], [:], with the attendee
    ids and the allocations given. *)
Definition sample_event (ids : list Z) (inv : gmap Z Z) : Event.t :=
  Event.mk 7 "Gala" "2025-10-20" "09-00" "Hall" "Dinner" "Social" EventStatus.UPCOMING ids inv.

(** ** Library algorithms *)

(** What is left in an object after it has been moved from, here by the
    move assignments of [std::remove_if].  The standard says "valid but
    unspecified"; the instances follow libstdc++ (and libc++): scalars and
    pointers keep their value, strings, vectors and maps are left empty.
    The implicit move assignment of a class moves member by member. *)
Class Movable (A : Type) := moved_from : A -> A.

Global Instance Z_movable : Movable Z := fun z => z.
Global Instance bool_movable : Movable bool := fun b => b.
Global Instance string_movable : Movable string := fun _ => "".
Global Instance list_movable {A} : Movable (list A) := fun _ => [].
Global Instance map_movable : Movable (gmap Z Z) := fun _ => ∅.

Global Instance Attendee_movable : Movable Attendee.t := fun a =>
  Attendee.mk (moved_from (Attendee.attendeeId a)) (moved_from (Attendee.name a))
    (moved_from (Attendee.contactInfo a)) (moved_from (Attendee.eventIdRegisteredFor a))
    (moved_from (Attendee.isCheckedIn a)).

Global Instance Event_movable : Movable Event.t := fun e =>
  Event.mk (moved_from (Event.eventId e)) (moved_from (Event.name e))
    (moved_from (Event.date e)) (moved_from (Event.time e)) (moved_from (Event.location e))
    (moved_from (Event.description e)) (moved_from (Event.category e))
    (moved_from (Event.status e)) (moved_from (Event.attendeeIds e))
    (moved_from (Event.allocatedInventory e)).

(** A [User*] with the object it points to; moving a pointer copies it. *)
Global Instance user_ptr_movable : Movable (nat * User.t) := fun p => p.

Section algorithms.
Context {A : Type}.

(** The index of the first element satisfying [p]: the loops of the
    [findXById] functions, which return a pointer to that element. *)
Fixpoint find_index (p : A -> bool) (l : list A) : option nat :=
  match l with
  | [] => None
  | x :: l' => if p x then Some 0%nat else S <$> find_index p l'
  end.

(** [std::find_if]: the elements before the first one satisfying [p], and
    the elements from it on. *)
Fixpoint find_if (p : A -> bool) (l : list A) : list A * list A :=
  match l with
  | [] => ([], [])
  | x :: l' => if p x then ([], l)
               else let '(before, from) := find_if p l' in (x :: before, from)
  end.

Context `{Movable A}.

(** The loop of [std::remove_if] after the first match.  [kept] is the
    range before [result], [hole] the range from [result] up to the
    element being examined, [rest] what is still to examine.  An element
    to keep is move-assigned to [*result]: it joins [kept], the first
    slot of [hole] is overwritten, and the slot it came from stays behind,
    moved from. *)
Fixpoint remove_if_loop (p : A -> bool) (kept hole rest : list A) : list A * list A :=
  match rest with
  | [] => (kept, hole)
  | x :: rest' =>
      if p x then remove_if_loop p kept (hole ++ [x]) rest'
      else remove_if_loop p (kept ++ [x]) (tail hole ++ [moved_from x]) rest'
  end.

(** [std::remove_if(v.begin(), v.end(), p)]: the vector afterwards, split
    at the iterator returned. *)
Definition remove_if (p : A -> bool) (v : list A) : list A * list A :=
  match find_if p v with
  | (before, []) => (before, [])
  | (before, first :: rest) => remove_if_loop p before [first] rest
  end.

(** [v.erase(std::remove_if(v.begin(), v.end(), p), v.end())]. *)
Definition erase_remove_if (p : A -> bool) (v : list A) : list A :=
  (remove_if p v).1.
End algorithms.

(** ** System *)

Local Open Scope list_scope.

Module System.
Record t := mk {
  users : list (nat * User.t);
  events : list Event.t;
  inventory : list InventoryItem.t;
  allAttendees : list Attendee.t;
  currentUser : option nat;
  nextUserId : Z;
  nextEventId : Z;
  nextItemId : Z;
  nextAttendeeId : Z;
  next_address : nat
}.

(** The state the constructor and the static initialisers leave. *)
Definition init : t := mk [] [] [] [] None 1 1 1 1 1.

Definition set_users (x : list (nat * User.t)) (s : t) : t :=
  mk x (events s) (inventory s) (allAttendees s) (currentUser s)
     (nextUserId s) (nextEventId s) (nextItemId s) (nextAttendeeId s) (next_address s).
Definition set_events (x : list Event.t) (s : t) : t :=
  mk (users s) x (inventory s) (allAttendees s) (currentUser s)
     (nextUserId s) (nextEventId s) (nextItemId s) (nextAttendeeId s) (next_address s).
Definition set_inventory (x : list InventoryItem.t) (s : t) : t :=
  mk (users s) (events s) x (allAttendees s) (currentUser s)
     (nextUserId s) (nextEventId s) (nextItemId s) (nextAttendeeId s) (next_address s).
Definition set_allAttendees (x : list Attendee.t) (s : t) : t :=
  mk (users s) (events s) (inventory s) x (currentUser s)
     (nextUserId s) (nextEventId s) (nextItemId s) (nextAttendeeId s) (next_address s).
Definition set_nextUserId (x : Z) (s : t) : t :=
  mk (users s) (events s) (inventory s) (allAttendees s) (currentUser s)
     x (nextEventId s) (nextItemId s) (nextAttendeeId s) (next_address s).
Definition set_nextEventId (x : Z) (s : t) : t :=
  mk (users s) (events s) (inventory s) (allAttendees s) (currentUser s)
     (nextUserId s) x (nextItemId s) (nextAttendeeId s) (next_address s).
Definition set_nextItemId (x : Z) (s : t) : t :=
  mk (users s) (events s) (inventory s) (allAttendees s) (currentUser s)
     (nextUserId s) (nextEventId s) x (nextAttendeeId s) (next_address s).
Definition set_nextAttendeeId (x : Z) (s : t) : t :=
  mk (users s) (events s) (inventory s) (allAttendees s) (currentUser s)
     (nextUserId s) (nextEventId s) (nextItemId s) x (next_address s).
Definition set_next_address (x : nat) (s : t) : t :=
  mk (users s) (events s) (inventory s) (allAttendees s) (currentUser s)
     (nextUserId s) (nextEventId s) (nextItemId s) (nextAttendeeId s) x.

(** [*currentUser]: the object at the address, looked up among the live
    users.  The address of a deleted user has no object; the operations
    below treat that like [nullptr] (it does not arise: see
    [deleteUserAccount]). *)
Definition deref_user (s : t) (p : nat) : option User.t :=
  snd <$> find (fun q : nat * User.t => Nat.eqb q.1 p) (users s).

Definition current (s : t) : option User.t :=
  match currentUser s with
  | Some p => deref_user s p
  | None => None
  end.

Definition findEventById (eventId : Z) (s : t) : option nat :=
  find_index (fun e => Event.eventId e =? eventId) (events s).

Definition findInventoryItemById (itemId : Z) (s : t) : option nat :=
  find_index (fun i => InventoryItem.itemId i =? itemId) (inventory s).

Definition findAttendeeInMasterList (attendeeId : Z) (s : t) : option nat :=
  find_index (fun a => Attendee.attendeeId a =? attendeeId) (allAttendees s).

(** *** Loading *)

(** A table file: [None] when it cannot be opened, else its lines. *)
Record Files := {
  USERS_FILE : option (list string);
  EVENTS_FILE : option (list string);
  INVENTORY_FILE : option (list string);
  ATTENDEES_FILE : option (list string)
}.

Fixpoint loadUsers_lines (lines : list string) (s : t) : list Msg * t :=
  match lines with
  | [] => ([], s)
  | line :: rest =>
      if negb (string_empty line) then
        match User.fromString line with
        | (log, Some u) =>
            let s' := set_users (users s ++ [(next_address s, u)])
                        (set_nextUserId (initNextId (User.userId u) (nextUserId s))
                           (set_next_address (S (next_address s)) s)) in
            let '(log', s'') := loadUsers_lines rest s' in (log ++ log', s'')
        | (log, None) =>
            let '(log', s'') := loadUsers_lines rest s in (log ++ log', s'')
        end
      else loadUsers_lines rest s
  end.

Definition loadUsers (f : Files) (s : t) : list Msg * t :=
  match USERS_FILE f with Some lines => loadUsers_lines lines s | None => ([], s) end.

Fixpoint loadEvents_lines (lines : list string) (s : t) : outcome t :=
  match lines with
  | [] => Done [] s
  | line :: rest =>
      if negb (string_empty line) then
        match Event.fromString line with
        | Done log e =>
            let s' := set_events (events s ++ [e])
                        (set_nextEventId (initNextId (Event.eventId e) (nextEventId s)) s) in
            match loadEvents_lines rest s' with
            | Done log' s'' => Done (log ++ log') s''
            | Raised log' x => Raised (log ++ log') x
            end
        | Raised log x => Raised log x
        end
      else loadEvents_lines rest s
  end.

Definition loadEvents (f : Files) (s : t) : outcome t :=
  match EVENTS_FILE f with Some lines => loadEvents_lines lines s | None => Done [] s end.

Fixpoint loadInventory_lines (lines : list string) (s : t) : list Msg * t :=
  match lines with
  | [] => ([], s)
  | line :: rest =>
      if negb (string_empty line) then
        let '(log, i) := InventoryItem.fromString line in
        let s' := set_inventory (inventory s ++ [i])
                    (set_nextItemId (initNextId (InventoryItem.itemId i) (nextItemId s)) s) in
        let '(log', s'') := loadInventory_lines rest s' in (log ++ log', s'')
      else loadInventory_lines rest s
  end.

Definition loadInventory (f : Files) (s : t) : list Msg * t :=
  match INVENTORY_FILE f with Some lines => loadInventory_lines lines s | None => ([], s) end.

Fixpoint loadAttendees_lines (lines : list string) (s : t) : list Msg * t :=
  match lines with
  | [] => ([], s)
  | line :: rest =>
      if negb (string_empty line) then
        let '(log, a) := Attendee.fromString line in
        let s' := set_allAttendees (allAttendees s ++ [a])
                    (set_nextAttendeeId
                       (initNextId (Attendee.attendeeId a) (nextAttendeeId s)) s) in
        let '(log', s'') := loadAttendees_lines rest s' in (log ++ log', s'')
      else loadAttendees_lines rest s
  end.

Definition loadAttendees (f : Files) (s : t) : list Msg * t :=
  match ATTENDEES_FILE f with Some lines => loadAttendees_lines lines s | None => ([], s) end.

(** The largest id of a table, 0 for an empty one. *)
Definition max_id {A} (id : A -> Z) (l : list A) : Z :=
  fold_left (fun maxId x => if maxId <? id x then id x else maxId) l 0.

(** The end of [loadData]: every [allocatedQuantity] is set to 0, then
    every allocation of every event is added to the item it names, when
    there is one. *)
Definition add_allocation (inv : list InventoryItem.t) (invPair : Z * Z)
  : list InventoryItem.t :=
  match find_index (fun i => InventoryItem.itemId i =? invPair.1) inv with
  | Some k =>
      match inv !! k with
      | Some item =>
          <[k := InventoryItem.set_allocatedQuantity
                   (InventoryItem.allocatedQuantity item + invPair.2) item]> inv
      | None => inv
      end
  | None => inv
  end.

Definition reconcile (inv : list InventoryItem.t) (evs : list Event.t)
  : list InventoryItem.t :=
  fold_left
    (fun inv event => fold_left add_allocation (items (Event.allocatedInventory event)) inv)
    evs
    (map (InventoryItem.set_allocatedQuantity 0) inv).

Definition loadData (f : Files) (s : t) : outcome t :=
  let '(log1, s) := loadUsers f s in
  match loadEvents f s with
  | Raised log2 x => Raised (log1 ++ log2) x
  | Done log2 s =>
      let '(log3, s) := loadInventory f s in
      let '(log4, s) := loadAttendees f s in
      let s := set_nextUserId
                 (initNextId (max_id (fun u : nat * User.t => User.userId u.2) (users s))
                    (nextUserId s)) s in
      let s := set_nextEventId
                 (initNextId (max_id Event.eventId (events s)) (nextEventId s)) s in
      let s := set_nextItemId
                 (initNextId (max_id InventoryItem.itemId (inventory s)) (nextItemId s)) s in
      let s := set_nextAttendeeId
                 (initNextId (max_id Attendee.attendeeId (allAttendees s))
                    (nextAttendeeId s)) s in
      Done (log1 ++ log2 ++ log3 ++ log4)
           (set_inventory (reconcile (inventory s) (events s)) s)
  end.

(** *** Seeding *)

(** [new Admin(uname, pwd)] or [new RegularUser(uname, pwd)], pushed on
    [users]. *)
Definition push_new_user (role : Z) (uname pwd : string) (s : t) : t :=
  set_users (users s ++ [(next_address s, User.mk (nextUserId s) uname pwd role)])
    (set_nextUserId (nextUserId s + 1) (set_next_address (S (next_address s)) s)).

(** [events.emplace_back(name, date, time, loc, desc, cat)]. *)
Definition emplace_event (name date time loc desc cat : string) (s : t) : t :=
  set_events
    (events s ++ [Event.mk (nextEventId s) name date time loc desc cat
                           EventStatus.UPCOMING [] ∅])
    (set_nextEventId (nextEventId s + 1) s).

(** [inventory.emplace_back(name, qty, desc)]. *)
Definition emplace_item (name : string) (qty : Z) (desc : string) (s : t) : t :=
  set_inventory (inventory s ++ [InventoryItem.mk (nextItemId s) name qty 0 desc])
    (set_nextItemId (nextItemId s + 1) s).

(** [seedInitialData], which [main] calls after [loadData]; its notices
    are left out. *)
Definition seedInitialData (s : t) : t :=
  let s :=
    match users s with
    | [] => push_new_user Role.REGULAR_USER "user2" "user2pass"
              (push_new_user Role.REGULAR_USER "user1" "user1pass"
                 (push_new_user Role.ADMIN "admin" "adminpass" s))
    | _ => s
    end in
  let s :=
    match events s with
    | [] => emplace_event "Summer Music Festival" "2025-07-15" "14:00" "City Park"
                          "Outdoor music event" "Social"
              (emplace_event "Tech Conference 2025" "2025-10-20" "09:00" "Grand Hall"
                             "Annual tech conference" "Conference" s)
    | _ => s
    end in
  match inventory s with
  | [] => emplace_item "Chairs" 100 "Standard chairs"
            (emplace_item "Projector" 5 "HD Projector" s)
  | _ => s
  end.

(** The start of [main]: [loadData] on the fresh system, then
    [seedInitialData]. *)
Definition startup (f : Files) : outcome t :=
  match loadData f init with
  | Done log s => Done log (seedInitialData s)
  | Raised log x => Raised log x
  end.

(** *** Users *)

Definition deleteUserAccount (uname : string) (s : t) : list Msg * t :=
  let logged_in_as_uname :=
    match current s with
    | Some u => String.eqb (User.username u) uname
    | None => false
    end in
  if logged_in_as_uname then ([ErrCannotDeleteLoggedIn], s)
  else
    match remove_if (fun q : nat * User.t => String.eqb (User.username q.2) uname)
                    (users s) with
    | (kept, _ :: _) => ([UserDeleted uname], set_users kept s)
    | (_, []) => ([UserNotFound uname], s)
    end.

(** *** Events *)

(** The loop of [deleteEvent] over the allocations of [*it]. *)
Definition return_allocation (acc : list Msg * list InventoryItem.t) (pair : Z * Z)
  : list Msg * list InventoryItem.t :=
  let '(log, inv) := acc in
  match find_index (fun i => InventoryItem.itemId i =? pair.1) inv with
  | Some k =>
      match inv !! k with
      | Some item =>
          let '(log', item', _) := InventoryItem.deallocate pair.2 item in
          (log ++ log', <[k := item']> inv)
      | None => acc
      end
  | None => acc
  end.

Definition deleteEvent (eventId : Z) (s : t) : list Msg * t :=
  match remove_if (fun e => Event.eventId e =? eventId) (events s) with
  | (kept, it :: _) =>
      let '(log, inv) :=
        fold_left return_allocation (items (Event.allocatedInventory it))
                  ([], inventory s) in
      let atts :=
        erase_remove_if (fun att => Attendee.eventIdRegisteredFor att =? eventId)
                        (allAttendees s) in
      (log ++ [EventDeleted (Event.name it) (Event.eventId it)],
       set_events kept (set_allAttendees atts (set_inventory inv s)))
  | (_, []) => ([EventNotFound eventId], s)
  end.

Definition updateEventStatus (eventId choice : Z) (s : t) : list Msg * t :=
  match findEventById eventId s with
  | None => ([EventNotFound eventId], s)
  | Some k =>
      match events s !! k with
      | None => ([EventNotFound eventId], s)
      | Some event =>
          let new_status :=
            if choice =? 1 then Some EventStatus.UPCOMING
            else if choice =? 2 then Some EventStatus.ONGOING
            else if choice =? 3 then Some EventStatus.COMPLETED
            else if choice =? 4 then Some EventStatus.CANCELED
            else None in
          match new_status with
          | Some st => ([StatusUpdated st],
                        set_events (<[k := Event.set_status st event]> (events s)) s)
          | None => ([InvalidStatusChoice], s)
          end
      end
  end.

(** *** Attendees *)

Definition same_name (a b : string) : bool := String.eqb (toLower a) (toLower b).

Definition registerAttendeeForEvent (eventId : Z) (contact : string) (s : t)
  : list Msg * t :=
  match current s with
  | None => ([OnlyRegularUsers], s)
  | Some user =>
  if User.role user =? Role.ADMIN then ([OnlyRegularUsers], s) else
  match findEventById eventId s with
  | None => ([EventNotFound eventId], s)
  | Some k =>
  match events s !! k with
  | None => ([EventNotFound eventId], s)
  | Some event =>
  if (Event.status event =? EventStatus.CANCELED)
     || (Event.status event =? EventStatus.COMPLETED)
  then ([CannotRegister (Event.status event)], s)
  else
    let attendeeName := User.username user in
    let for_this_event :=
      find_index (fun att => same_name (Attendee.name att) attendeeName
                             && (Attendee.eventIdRegisteredFor att =? eventId))
                 (allAttendees s) in
    let generic :=
      find_index (fun att => same_name (Attendee.name att) attendeeName
                             && (Attendee.eventIdRegisteredFor att =? 0))
                 (allAttendees s) in
    let existing :=
      match for_this_event with
      | Some j => (fun a => (j, a, allAttendees s)) <$> allAttendees s !! j
      | None =>
          match generic with
          | Some j =>
              (fun a => (j, Attendee.set_contactInfo contact a,
                         <[j := Attendee.set_contactInfo contact a]> (allAttendees s)))
                <$> allAttendees s !! j
          | None => None
          end
      end in
    match existing with
    | Some (_, existingAttendee, atts) =>
        let '(log, event') := Event.addAttendee (Attendee.attendeeId existingAttendee) event in
        (log ++ [RegistrationConfirmed (Event.name event)],
         set_events (<[k := event']> (events s)) (set_allAttendees atts s))
    | None =>
        let newAttendee := Attendee.mk (nextAttendeeId s) attendeeName contact eventId false in
        let '(log, event') := Event.addAttendee (Attendee.attendeeId newAttendee) event in
        (log ++ [RegisteredNew (Attendee.name newAttendee) (Attendee.attendeeId newAttendee)
                               (Event.name event)],
         set_events (<[k := event']> (events s))
           (set_allAttendees (allAttendees s ++ [newAttendee])
              (set_nextAttendeeId (nextAttendeeId s + 1) s)))
    end
  end end end.

Definition cancelOwnRegistration (eventId : Z) (s : t) : list Msg * t :=
  match current s with
  | None => ([OnlyRegularUsers], s)
  | Some user =>
  if User.role user =? Role.ADMIN then ([OnlyRegularUsers], s) else
  match findEventById eventId s with
  | None => ([EventNotFound eventId], s)
  | Some k =>
  match events s !! k with
  | None => ([EventNotFound eventId], s)
  | Some event =>
    let attendeeIdToCancel :=
      match find (fun att => same_name (Attendee.name att) (User.username user)
                             && (Attendee.eventIdRegisteredFor att =? eventId))
                 (allAttendees s) with
      | Some att => Attendee.attendeeId att
      | None => -1
      end in
    if negb (attendeeIdToCancel =? -1) then
      ([RegistrationCanceled (Event.name event)],
       set_events (<[k := Event.removeAttendee attendeeIdToCancel event]> (events s))
         (set_allAttendees
            (erase_remove_if (fun att => Attendee.attendeeId att =? attendeeIdToCancel)
                             (allAttendees s)) s))
    else ([NotRegistered (Event.name event)], s)
  end end end.

Definition checkInAttendeeForEvent (eventId attendeeId : Z) (s : t) : list Msg * t :=
  match findEventById eventId s with
  | None => ([EventNotFound eventId], s)
  | Some _ =>
      let not_found := ([AttendeeNotFoundOrNotRegistered attendeeId eventId], s) in
      match findAttendeeInMasterList attendeeId s with
      | None => not_found
      | Some j =>
          match allAttendees s !! j with
          | None => not_found
          | Some attendee =>
              if Attendee.eventIdRegisteredFor attendee =? eventId then
                let '(log, attendee') := Attendee.checkIn attendee in
                (log, set_allAttendees (<[j := attendee']> (allAttendees s)) s)
              else not_found
          end
      end
  end.

(** The loop of [updateCurrentLoggedInUserContactInfo]: it stops at the
    first generic profile of the user, and on its way rewrites the contact
    of every other record with the user's name.  The result tells whether
    a generic profile was found; that profile then gets the new contact. *)
Fixpoint update_contacts (uname newContact : string) (l : list Attendee.t)
  : list Attendee.t * bool :=
  match l with
  | [] => ([], false)
  | att :: rest =>
      if same_name (Attendee.name att) uname && (Attendee.eventIdRegisteredFor att =? 0)
      then (Attendee.set_contactInfo newContact att :: rest, true)
      else
        let att' := if same_name (Attendee.name att) uname
                    then Attendee.set_contactInfo newContact att else att in
        let '(rest', found) := update_contacts uname newContact rest in
        (att' :: rest', found)
  end.

Definition updateCurrentLoggedInUserContactInfo (newContact : string) (s : t)
  : list Msg * t :=
  match current s with
  | None => ([OnlyRegularUsers], s)
  | Some user =>
  if User.role user =? Role.ADMIN then ([OnlyRegularUsers], s) else
    match update_contacts (User.username user) newContact (allAttendees s) with
    | (atts, true) => ([ContactUpdated], set_allAttendees atts s)
    | (atts, false) =>
        ([ProfileCreated],
         set_allAttendees
           (atts ++ [Attendee.mk (nextAttendeeId s) (User.username user) newContact 0 false])
           (set_nextAttendeeId (nextAttendeeId s + 1) s))
    end
  end.

(** *** Inventory *)

Definition set_item_name (n : string) (i : InventoryItem.t) : InventoryItem.t :=
  InventoryItem.mk (InventoryItem.itemId i) n (InventoryItem.totalQuantity i)
    (InventoryItem.allocatedQuantity i) (InventoryItem.description i).
Definition set_item_description (d : string) (i : InventoryItem.t) : InventoryItem.t :=
  InventoryItem.mk (InventoryItem.itemId i) (InventoryItem.name i)
    (InventoryItem.totalQuantity i) (InventoryItem.allocatedQuantity i) d.

Definition updateInventoryItemDetails
    (itemId choice : Z) (new_str_val : string) (new_int_val : Z) (s : t)
  : list Msg * t :=
  match findInventoryItemById itemId s with
  | None => ([ItemNotFound itemId], s)
  | Some k =>
      match inventory s !! k with
      | None => ([ItemNotFound itemId], s)
      | Some item =>
          if choice =? 1 then
            ([ItemUpdated], set_inventory (<[k := set_item_name new_str_val item]> (inventory s)) s)
          else if choice =? 2 then
            let '(log, item') := InventoryItem.setTotalQuantity new_int_val item in
            (log ++ [ItemUpdated], set_inventory (<[k := item']> (inventory s)) s)
          else if choice =? 3 then
            ([ItemUpdated],
             set_inventory (<[k := set_item_description new_str_val item]> (inventory s)) s)
          else if choice =? 4 then ([], s)
          else ([InvalidChoice], s)
      end
  end.

Definition trackInventoryAllocationToEvent (eventId choice itemId quantity : Z) (s : t)
  : list Msg * t :=
  match findEventById eventId s with
  | None => ([EventNotFound eventId], s)
  | Some ke =>
  match events s !! ke with
  | None => ([EventNotFound eventId], s)
  | Some event =>
    if choice =? 1 then
      match findInventoryItemById itemId s with
      | None => ([ItemNotFound itemId], s)
      | Some ki =>
      match inventory s !! ki with
      | None => ([ItemNotFound itemId], s)
      | Some item =>
          let available :=
            AvailableQuantity (InventoryItem.name item)
                              (InventoryItem.getAvailableQuantity item) in
          let '(log, item', ok) := InventoryItem.allocate quantity item in
          if ok then
            let event' :=
              Event.allocateInventoryItem (InventoryItem.itemId item') quantity event in
            (available :: log
               ++ [Allocated quantity (InventoryItem.name item') (Event.name event')],
             set_events (<[ke := event']> (events s))
               (set_inventory (<[ki := item']> (inventory s)) s))
          else (available :: log, set_inventory (<[ki := item']> (inventory s)) s)
      end end
    else if choice =? 2 then
      match findInventoryItemById itemId s with
      | None => ([ItemNotFound itemId], s)
      | Some ki =>
      match inventory s !! ki with
      | None => ([ItemNotFound itemId], s)
      | Some item =>
          match Event.allocatedInventory event !! itemId with
          | None => ([NotAllocatedToEvent (InventoryItem.name item) (Event.name event)], s)
          | Some current_qty =>
              let current := CurrentlyAllocated current_qty (InventoryItem.name item) in
              let '(event', actualDeallocated) :=
                Event.deallocateInventoryItem (InventoryItem.itemId item) quantity event in
              if 0 <? actualDeallocated then
                let '(log, item', _) := InventoryItem.deallocate actualDeallocated item in
                (current :: log
                   ++ [Deallocated actualDeallocated (InventoryItem.name item')
                                   (Event.name event')],
                 set_events (<[ke := event']> (events s))
                   (set_inventory (<[ki := item']> (inventory s)) s))
              else ([current; NoQuantityDeallocated],
                    set_events (<[ke := event']> (events s)) s)
          end
      end end
    else ([], s)
  end end.

(** *** Sessions of operations *)

Inductive Op :=
  | DeleteUserAccount (uname : string)
  | DeleteEvent (eventId : Z)
  | UpdateEventStatus (eventId choice : Z)
  | RegisterAttendeeForEvent (eventId : Z) (contact : string)
  | CancelOwnRegistration (eventId : Z)
  | CheckInAttendeeForEvent (eventId attendeeId : Z)
  | UpdateContactInfo (newContact : string)
  | UpdateInventoryItemDetails (itemId choice : Z) (new_str_val : string) (new_int_val : Z)
  | TrackInventoryAllocationToEvent (eventId choice itemId quantity : Z).

Definition step (op : Op) (s : t) : list Msg * t :=
  match op with
  | DeleteUserAccount uname => deleteUserAccount uname s
  | DeleteEvent eventId => deleteEvent eventId s
  | UpdateEventStatus eventId choice => updateEventStatus eventId choice s
  | RegisterAttendeeForEvent eventId contact => registerAttendeeForEvent eventId contact s
  | CancelOwnRegistration eventId => cancelOwnRegistration eventId s
  | CheckInAttendeeForEvent eventId attendeeId =>
      checkInAttendeeForEvent eventId attendeeId s
  | UpdateContactInfo newContact => updateCurrentLoggedInUserContactInfo newContact s
  | UpdateInventoryItemDetails itemId choice new_str_val new_int_val =>
      updateInventoryItemDetails itemId choice new_str_val new_int_val s
  | TrackInventoryAllocationToEvent eventId choice itemId quantity =>
      trackInventoryAllocationToEvent eventId choice itemId quantity s
  end.

(** The state after a sequence of operations, each run to completion. *)
Definition run (ops : list Op) (s : t) : t :=
  fold_left (fun s op => (step op s).2) ops s.

(** *** Accounts *)

(** The operations below take the values read by [getIntInput] and
    [getPositiveIntInput] as arguments, like the ones above; the lines the
    string prompts read are taken from [cin]. *)

Definition set_currentUser (x : option nat) (s : t) : t :=
  mk (users s) (events s) (inventory s) (allAttendees s) x
     (nextUserId s) (nextEventId s) (nextItemId s) (nextAttendeeId s) (next_address s).

Definition usernameExists (uname : string) (s : t) : bool :=
  existsb (fun q : nat * User.t => String.eqb (User.username q.2) uname) (users s).

Definition createUserAccount (uname pwd : string) (role : Z) (s : t) : list Notice * t :=
  if usernameExists uname s then ([UsernameExists], s)
  else if (String.length pwd <? 6)%nat then ([PasswordTooShort], s)
  else if role =? Role.ADMIN then
    ([UserCreated Role.ADMIN uname (nextUserId s)], push_new_user Role.ADMIN uname pwd s)
  else if role =? Role.REGULAR_USER then
    ([UserCreated Role.REGULAR_USER uname (nextUserId s)],
     push_new_user Role.REGULAR_USER uname pwd s)
  else ([InvalidRole], s).

Definition publicRegisterNewUser (rChoice : Z) (s : t) : Prompt t :=
  let* uname := ask any_string in
  let* pwd := ask any_string in
  let newRole :=
    if rChoice =? 1 then Role.ADMIN
    else if rChoice =? 2 then Role.REGULAR_USER
    else Role.NONE in
  say (createUserAccount uname pwd newRole s).

(** The address of the first user with the name, [None] for [nullptr]. *)
Definition findUserByUsername (uname : string) (s : t) : option nat :=
  fst <$> find (fun q : nat * User.t => String.eqb (User.username q.2) uname) (users s).

Definition login (s : t) : Prompt (bool * t) :=
  let* uname := ask any_string in
  let* pwd := ask any_string in
  match find (fun q : nat * User.t =>
                String.eqb (User.username q.2) uname && String.eqb (User.password q.2) pwd)
             (users s) with
  | Some q =>
      say ([LoginSuccessful (User.username q.2)], (true, set_currentUser (Some q.1) s))
  | None => say ([LoginFailed], (false, set_currentUser None s))
  end.

Definition logout (s : t) : list Notice * t :=
  match currentUser s with
  | Some p => ([LoggingOut (User.username <$> deref_user s p)], set_currentUser None s)
  | None => ([], s)
  end.

(** *** Creating, editing and searching events *)

Definition createEvent (s : t) : Prompt t :=
  let* name := ask any_string in
  let* date := ask isValidDate in
  let* time := ask isValidTime in
  let* loc := ask any_string in
  let* desc := ask any_string in
  let* cat := ask any_string in
  say ([EventCreated name (nextEventId s)], emplace_event name date time loc desc cat s).

Definition set_event_name (x : string) (e : Event.t) : Event.t :=
  Event.mk (Event.eventId e) x (Event.date e) (Event.time e) (Event.location e)
    (Event.description e) (Event.category e) (Event.status e) (Event.attendeeIds e)
    (Event.allocatedInventory e).
Definition set_event_date (x : string) (e : Event.t) : Event.t :=
  Event.mk (Event.eventId e) (Event.name e) x (Event.time e) (Event.location e)
    (Event.description e) (Event.category e) (Event.status e) (Event.attendeeIds e)
    (Event.allocatedInventory e).
Definition set_event_time (x : string) (e : Event.t) : Event.t :=
  Event.mk (Event.eventId e) (Event.name e) (Event.date e) x (Event.location e)
    (Event.description e) (Event.category e) (Event.status e) (Event.attendeeIds e)
    (Event.allocatedInventory e).
Definition set_event_location (x : string) (e : Event.t) : Event.t :=
  Event.mk (Event.eventId e) (Event.name e) (Event.date e) (Event.time e) x
    (Event.description e) (Event.category e) (Event.status e) (Event.attendeeIds e)
    (Event.allocatedInventory e).
Definition set_event_description (x : string) (e : Event.t) : Event.t :=
  Event.mk (Event.eventId e) (Event.name e) (Event.date e) (Event.time e) (Event.location e)
    x (Event.category e) (Event.status e) (Event.attendeeIds e)
    (Event.allocatedInventory e).
Definition set_event_category (x : string) (e : Event.t) : Event.t :=
  Event.mk (Event.eventId e) (Event.name e) (Event.date e) (Event.time e) (Event.location e)
    (Event.description e) x (Event.status e) (Event.attendeeIds e)
    (Event.allocatedInventory e).

(** One case of the [switch] of [editEventDetails] that edits a field:
    the value is asked for until [valid] takes it, then stored. *)
Definition edit_field (valid : string -> bool) (set : string -> Event.t -> Event.t)
    (k : nat) (event : Event.t) (s : t) : Prompt t :=
  let* new_val := ask valid in
  say ([DetailsUpdated], set_events (<[k := set new_val event]> (events s)) s).

Definition editEventDetails (eventId choice : Z) (s : t) : Prompt t :=
  match findEventById eventId s with
  | None => say ([NoSuchEvent eventId], s)
  | Some k =>
      match events s !! k with
      | None => say ([NoSuchEvent eventId], s)
      | Some event =>
          if choice =? 1 then edit_field any_string set_event_name k event s
          else if choice =? 2 then edit_field isValidDate set_event_date k event s
          else if choice =? 3 then edit_field isValidTime set_event_time k event s
          else if choice =? 4 then edit_field any_string set_event_location k event s
          else if choice =? 5 then edit_field any_string set_event_description k event s
          else if choice =? 6 then edit_field any_string set_event_category k event s
          else if choice =? 7 then ret s
          else say ([NoChanges], s)
      end
  end.

(** [haystack.find(needle) != string::npos]. *)
Definition found_in (needle haystack : string) : bool :=
  bool_decide (String.index 0 needle haystack <> None).

(** The events [searchEventsByNameOrDate] displays, in order. *)
Definition searchEventsByNameOrDate (s : t) : Prompt (list Event.t) :=
  let* input := ask any_string in
  let searchTerm := toLower input in
  ret (filter (fun event => found_in searchTerm (toLower (Event.name event)) = true
                            \/ found_in searchTerm (Event.date event) = true)
              (events s)).

(** *** Adding inventory *)

Definition findInventoryItemByName (name : string) (s : t) : option nat :=
  find_index (fun item => same_name (InventoryItem.name item) name) (inventory s).

Definition addInventoryItem (quantity : Z) (s : t) : Prompt t :=
  let* name := ask any_string in
  let* desc := ask any_string in
  say ([ItemAdded name (nextItemId s)], emplace_item name quantity desc s).

(** *** Reports *)


(** [generateAttendanceReportForEvent] for an event that is found and has
    attendees: the number registered and the number checked in. *)
Definition checkedInCount (attendeeIds : list Z) (s : t) : Z :=
  fold_left
    (fun count attId =>
       match findAttendeeInMasterList attId s with
       | Some j =>
           match allAttendees s !! j with
           | Some att => if Attendee.isCheckedIn att then count + 1 else count
           | None => count
           end
       | None => count
       end)
    attendeeIds 0.

Definition generateAttendanceReportForEvent (eventId : Z) (s : t) : option (nat * Z) :=
  match findEventById eventId s with
  | None => None
  | Some k =>
      match events s !! k with
      | None => None
      | Some event =>
          match Event.attendeeIds event with
          | [] => None
          | attendeeIds => Some (length attendeeIds, checkedInCount attendeeIds s)
          end
      end
  end.

(** *** Saving *)

Definition exportUsers (users : list (nat * User.t)) : string :=
  write_lines (map (fun q : nat * User.t => User.toString q.2) users).
Definition exportEvents (events : list Event.t) : string :=
  write_lines (map Event.toString events).
Definition exportAttendees (attendees : list Attendee.t) : string :=
  write_lines (map Attendee.toString attendees).
Definition exportInventory (inventory : list InventoryItem.t) : string :=
  write_lines (map InventoryItem.toString inventory).

(** The four files after [saveData], as the loaders read them. *)
Definition saveData (s : t) : Files :=
  {| USERS_FILE := Some (read_lines (exportUsers (users s)));
     EVENTS_FILE := Some (read_lines (exportEvents (events s)));
     INVENTORY_FILE := Some (read_lines (exportInventory (inventory s)));
     ATTENDEES_FILE := Some (read_lines (exportAttendees (allAttendees s))) |}.

(** *** Interactive sessions *)

(** The operations a menu can start. *)
Inductive Command :=
  | Perform (op : Op)
  | PublicRegisterNewUser (rChoice : Z)
  | CreateUserAccount (uname pwd : string) (role : Z)
  | Login
  | Logout
  | CreateEvent
  | EditEventDetails (eventId choice : Z)
  | AddInventoryItem (quantity : Z).

Definition exec (c : Command) (s : t) : Prompt t :=
  match c with
  | Perform op => said (step op s)
  | PublicRegisterNewUser rChoice => publicRegisterNewUser rChoice s
  | CreateUserAccount uname pwd role => say (createUserAccount uname pwd role s)
  | Login => let* r := login s in ret r.2
  | Logout => say (logout s)
  | CreateEvent => createEvent s
  | EditEventDetails eventId choice => editEventDetails eventId choice s
  | AddInventoryItem quantity => addInventoryItem quantity s
  end.

Fixpoint session (cs : list Command) (s : t) : Prompt t :=
  match cs with
  | [] => ret s
  | c :: cs' => let* s' := exec c s in session cs' s'
  end.
End System.

(** * Notions of the statements *)

(** The quantity invariant of one item. *)
Definition item_ok (i : InventoryItem.t) : Prop :=
  0 <= InventoryItem.allocatedQuantity i <= InventoryItem.totalQuantity i.

(** A consistent state: every item of the store satisfies
    [0 <= allocatedQuantity <= totalQuantity]. *)
Definition consistent (s : System.t) : Prop := Forall item_ok (System.inventory s).


(** What the claim C5 says about one deallocation request: exactly
    [min qty a] units leave both the event's entry and the item's
    [allocatedQuantity], and the entry is erased when nothing is left. *)
Definition removes_clamped_amount (s : System.t) (eventId itemId qty : Z) : Prop :=
  forall ke ki event item a,
    System.findEventById eventId s = Some ke -> System.events s !! ke = Some event ->
    System.findInventoryItemById itemId s = Some ki ->
    System.inventory s !! ki = Some item ->
    Event.allocatedInventory event !! itemId = Some a -> 0 < a -> 0 < qty ->
    let s' := (System.trackInventoryAllocationToEvent eventId 2 itemId qty s).2 in
    exists item' event',
      System.inventory s' !! ki = Some item' /\ System.events s' !! ke = Some event'
      /\ Event.allocatedInventory event' !! itemId
         = (if a <=? qty then None else Some (a - Z.min qty a))
      /\ InventoryItem.allocatedQuantity item'
         = InventoryItem.allocatedQuantity item - Z.min qty a.

(** The sum, over all events, of the event's entry for an item id. *)
Definition total_allocated (evs : list Event.t) (itemId : Z) : Z :=
  foldr (fun event sum => entry (Event.allocatedInventory event) itemId + sum) 0 evs.

(** What a list of [(itemId, quantity)] pairs adds up to for one id. *)
Definition credited (pairs : list (Z * Z)) (itemId : Z) : Z :=
  foldr (fun pair sum => (if pair.1 =? itemId then pair.2 else 0) + sum) 0 pairs.




(** The same attendee record, before and after an operation that rewrites
    it in place: same id, same event, and a check-in that is not undone. *)
Definition check_in_kept (a a' : Attendee.t) : Prop :=
  Attendee.attendeeId a' = Attendee.attendeeId a
  /\ Attendee.name a' = Attendee.name a
  /\ Attendee.eventIdRegisteredFor a' = Attendee.eventIdRegisteredFor a
  /\ (Attendee.isCheckedIn a = true -> Attendee.isCheckedIn a' = true).

(** A record made by the constructor [Attendee(name, contact, eventId)]. *)
Definition newly_created (s : System.t) (a : Attendee.t) : Prop :=
  Attendee.attendeeId a = System.nextAttendeeId s /\ Attendee.isCheckedIn a = false.

(** What an operation may do to the attendee store: remove records and
    leave the others as they are, or rewrite records in place without
    undoing a check-in and append records it creates. *)
Inductive check_ins_preserved (s : System.t) : list Attendee.t -> list Attendee.t -> Prop :=
  | records_removed keep l :
      check_ins_preserved s l (List.filter keep l)
  | records_rewritten l rewritten created :
      Forall2 check_in_kept l rewritten -> Forall (newly_created s) created ->
      check_ins_preserved s l (rewritten ++ created).

(** The first comma-separated field of a line: its id. *)
Definition id_field (line : string) : string := (read_until comma line).1.

(** What the claim C7 says of the attendee table. *)
Definition one_attendee_loaded (lines : list string) : Prop :=
  length (System.allAttendees (System.loadAttendees_lines lines System.init).2) = 1%nat.

(** The value of a decimal numeral read from the left, as [read_digits]
    accumulates it. *)
Fixpoint uint_value (acc : Z) (d : Decimal.uint) : Z :=
  match d with
  | Decimal.Nil => acc
  | Decimal.D0 d => uint_value (10 * acc) d
  | Decimal.D1 d => uint_value (10 * acc + 1) d
  | Decimal.D2 d => uint_value (10 * acc + 2) d
  | Decimal.D3 d => uint_value (10 * acc + 3) d
  | Decimal.D4 d => uint_value (10 * acc + 4) d
  | Decimal.D5 d => uint_value (10 * acc + 5) d
  | Decimal.D6 d => uint_value (10 * acc + 6) d
  | Decimal.D7 d => uint_value (10 * acc + 7) d
  | Decimal.D8 d => uint_value (10 * acc + 8) d
  | Decimal.D9 d => uint_value (10 * acc + 9) d
  end.

(** A string in which the character [d] does not occur. *)
Definition free_of (d : ascii) (s : string) : Prop := count_char d s = 0%nat.

(** ** Notions of the further properties *)

(** A record that can be kept in a file: its numbers are [int]s and its
    strings hold neither the field separator nor a line break. *)
Definition field_ok (s : string) : Prop := free_of comma s /\ free_of newline s.

Definition storable_attendee (a : Attendee.t) : Prop :=
  Int.in_range (Attendee.attendeeId a) = true
  /\ Int.in_range (Attendee.eventIdRegisteredFor a) = true
  /\ field_ok (Attendee.name a) /\ field_ok (Attendee.contactInfo a).

Definition storable_item (i : InventoryItem.t) : Prop :=
  Int.in_range (InventoryItem.itemId i) = true
  /\ Int.in_range (InventoryItem.totalQuantity i) = true
  /\ Int.in_range (InventoryItem.allocatedQuantity i) = true
  /\ field_ok (InventoryItem.name i) /\ free_of newline (InventoryItem.description i).

Definition storable_user (u : User.t) : Prop :=
  Int.in_range (User.userId u) = true
  /\ (User.role u = Role.ADMIN \/ User.role u = Role.REGULAR_USER)
  /\ field_ok (User.username u) /\ field_ok (User.password u).

(** An event without attendees and without allocations. *)
Definition storable_plain_event (e : Event.t) : Prop :=
  Int.in_range (Event.eventId e) = true /\ Int.in_range (Event.status e) = true
  /\ field_ok (Event.name e) /\ field_ok (Event.date e) /\ field_ok (Event.time e)
  /\ field_ok (Event.location e) /\ field_ok (Event.description e)
  /\ field_ok (Event.category e)
  /\ Event.attendeeIds e = [] /\ Event.allocatedInventory e = ∅.

(** A line a prompt loop takes: not empty once trimmed, and valid. *)
Definition acceptable (valid : string -> bool) (line : string) : Prop :=
  string_empty (trim line) = false /\ valid (trim line) = true.

Definition item_ids (s : System.t) : list Z := InventoryItem.itemId <$> System.inventory s.
Definition attendee_ids (s : System.t) : list Z :=
  Attendee.attendeeId <$> System.allAttendees s.



(** What an operation does to the ids of a table and to its counter:
    some records go, or one record comes with the id of the counter. *)
Definition id_step (ids : list Z) (next : Z) (ids' : list Z) (next' : Z) : Prop :=
  (sublist ids' ids /\ next' = next) \/ (ids' = ids ++ [next] /\ next' = next + 1).

(** What the operations do to one event: a member function of [Event], a
    new status, or an edit of a field; a date or a time is stored only
    when its validator takes it. *)
Inductive Event_update (e : Event.t) : Event.t -> Prop :=
  | update_status st : Event_update e (Event.set_status st e)
  | update_addAttendee attId : Event_update e (Event.addAttendee attId e).2
  | update_removeAttendee attId : Event_update e (Event.removeAttendee attId e)
  | update_allocate itmId quantity :
      Event_update e (Event.allocateInventoryItem itmId quantity e)
  | update_deallocate itmId quantity :
      Event_update e (Event.deallocateInventoryItem itmId quantity e).1
  | update_name x : Event_update e (System.set_event_name x e)
  | update_date x : isValidDate x = true -> Event_update e (System.set_event_date x e)
  | update_time x : isValidTime x = true -> Event_update e (System.set_event_time x e)
  | update_location x : Event_update e (System.set_event_location x e)
  | update_description x : Event_update e (System.set_event_description x e)
  | update_category x : Event_update e (System.set_event_category x e).

(** What an operation does to the table of events. *)
Inductive Events_step (s : System.t) : list Event.t -> Z -> Prop :=
  | events_same : Events_step s (System.events s) (System.nextEventId s)
  | events_deleted eventId :
      Events_step s
        (List.filter (fun e => negb (Event.eventId e =? eventId)) (System.events s))
        (System.nextEventId s)
  | events_updated k e e' :
      System.events s !! k = Some e -> Event_update e e' ->
      Events_step s (<[k := e']> (System.events s)) (System.nextEventId s)
  | events_created name date time loc desc cat :
      isValidDate date = true -> isValidTime time = true ->
      Events_step s
        (System.events s
           ++ [Event.mk (System.nextEventId s) name date time loc desc cat
                        EventStatus.UPCOMING [] ∅])
        (System.nextEventId s + 1).

(** What an operation does to the table of users. *)
Inductive Users_step (s : System.t) : list (nat * User.t) -> Z -> Prop :=
  | users_same : Users_step s (System.users s) (System.nextUserId s)
  | users_deleted uname :
      Users_step s
        (List.filter (fun q : nat * User.t => negb (String.eqb (User.username q.2) uname))
                     (System.users s))
        (System.nextUserId s)
  | users_created uname pwd role :
      System.usernameExists uname s = false -> (6 <= String.length pwd)%nat ->
      role = Role.ADMIN \/ role = Role.REGULAR_USER ->
      Users_step s
        (System.users s ++ [(System.next_address s, User.mk (System.nextUserId s) uname pwd role)])
        (System.nextUserId s + 1).

(** What an operation does to the inventory. *)
Inductive Items_step (s : System.t) : list InventoryItem.t -> Z -> Prop :=
  | items_updated inv :
      InventoryItem.itemId <$> inv = InventoryItem.itemId <$> System.inventory s ->
      Items_step s inv (System.nextItemId s)
  | items_added name quantity desc :
      Items_step s
        (System.inventory s ++ [InventoryItem.mk (System.nextItemId s) name quantity 0 desc])
        (System.nextItemId s + 1).

(** The four tables and their counters after an operation. *)
Definition Tables_step (s s' : System.t) : Prop :=
  Users_step s (System.users s') (System.nextUserId s')
  /\ Events_step s (System.events s') (System.nextEventId s')
  /\ Items_step s (System.inventory s') (System.nextItemId s')
  /\ id_step (attendee_ids s) (System.nextAttendeeId s)
             (attendee_ids s') (System.nextAttendeeId s').


Definition usernames (s : System.t) : list string :=
  (fun q : nat * User.t => User.username q.2) <$> System.users s.

(** The properties of one event that the operations keep. *)
Definition scheduled (e : Event.t) : Prop :=
  isValidDate (Event.date e) = true /\ isValidTime (Event.time e) = true.

Definition registered_once (e : Event.t) : Prop := NoDup (Event.attendeeIds e).


(** The two sides of the allocation ledger: what every event records, and
    the id and [allocatedQuantity] of every item. *)
Definition allocations (s : System.t) : list (gmap Z Z) :=
  Event.allocatedInventory <$> System.events s.

Definition stock (s : System.t) : list (Z * Z) :=
  (fun i => (InventoryItem.itemId i, InventoryItem.allocatedQuantity i))
    <$> System.inventory s.

Definition sum_entries (allocs : list (gmap Z Z)) (itemId : Z) : Z :=
  foldr (fun m sum => entry m itemId + sum) 0 allocs.

(** The ledger balances: the items have distinct ids below the counter,
    every recorded allocation is positive and names an item, and every
    item's [allocatedQuantity] is what the events record for its id. *)
Definition ledger_ok (allocs : list (gmap Z Z)) (stk : list (Z * Z)) (next : Z) : Prop :=
  NoDup stk.*1
  /\ Forall (fun id => id < next) stk.*1
  /\ Forall (fun m : gmap Z Z => forall k v, m !! k = Some v -> 0 < v /\ k ∈ stk.*1) allocs
  /\ Forall (fun p : Z * Z => p.2 = sum_entries allocs p.1) stk.

Definition reconciled (s : System.t) : Prop :=
  ledger_ok (allocations s) (stock s) (System.nextItemId s).


(** The conditions under which [createUserAccount] creates the account. *)
Definition account_acceptable (uname pwd : string) (role : Z) (s : System.t) : Prop :=
  System.usernameExists uname s = false /\ (6 <= String.length pwd)%nat
  /\ (role = Role.ADMIN \/ role = Role.REGULAR_USER).

(** Live objects have distinct addresses, below the next one handed out. *)
Definition objects_distinct (s : System.t) : Prop :=
  NoDup (System.users s).*1
  /\ Forall (fun p => (p < System.next_address s)%nat) (System.users s).*1.

(** The number a string of decimal digits denotes. *)
Definition number (digits : list ascii) : Z :=
  fold_left (fun acc c => 10 * acc + digit_value c) digits 0.

Definition date_text (y1 y2 y3 y4 m1 m2 d1 d2 : ascii) : string :=
  String y1 (String y2 (String y3 (String y4 (String "-"
    (String m1 (String m2 (String "-" (String d1 (String d2 EmptyString))))))))).

Definition time_text (h1 h2 m1 m2 : ascii) : string :=
  String h1 (String h2 (String ":" (String m1 (String m2 EmptyString)))).

(** A character [std::stoi] passes over before the digits of a number: a
    blank or a plus sign. *)
Definition passed_over (c : ascii) : Prop := c = " "%char \/ c = "+"%char.

(** The sessions in which every new item has a positive quantity, as
    [getPositiveIntInput] makes sure. *)
Definition adds_positive (c : System.Command) : Prop :=
  match c with
  | System.AddInventoryItem quantity => 0 < quantity
  | _ => True
  end.

(** * States and files the statements are read at *)

(** The scenario of the specification: one item, 100 chairs, and three
    events; [user1] is logged in. *)
Module Scenario.
Definition event (id : Z) (name : string) : Event.t :=
  Event.mk id name "2025-10-20" "09:00" "Hall" "Description" "Category"
           EventStatus.UPCOMING [] ∅.
Definition chairs : InventoryItem.t := InventoryItem.mk 1 "Chairs" 100 0 "Standard chairs".
Definition user1 : User.t := User.mk 2 "user1" "user1pass" Role.REGULAR_USER.

Definition start : System.t :=
  System.mk [(1%nat, User.mk 1 "admin" "adminpass" Role.ADMIN); (2%nat, user1)]
            [event 1 "E1"; event 2 "E2"; event 3 "E3"] [chairs] []
            (Some 2%nat) 3 4 2 1 3%nat.

Definition ops : list System.Op :=
  [System.TrackInventoryAllocationToEvent 1 1 1 30;
   System.TrackInventoryAllocationToEvent 2 1 1 50;
   System.TrackInventoryAllocationToEvent 3 1 1 30;
   System.TrackInventoryAllocationToEvent 1 2 1 10;
   System.TrackInventoryAllocationToEvent 3 1 1 30].

Definition allocations (s : System.t) : list (list (Z * Z)) :=
  map (fun e => items (Event.allocatedInventory e)) (System.events s).

(** The first event is canceled. *)
Definition canceled : System.t :=
  System.set_events [Event.set_status EventStatus.CANCELED (event 1 "E1")] start.

(** Three chairs are allocated to the first event. *)
Definition three_chairs : Event.t := Event.set_allocatedInventory {[1 := 3]} (event 1 "E1").
Definition three_allocated : System.t :=
  System.set_events [three_chairs; event 2 "E2"; event 3 "E3"]
    (System.set_inventory [InventoryItem.set_allocatedQuantity 3 chairs] start).
End Scenario.

(** A start with the event table on disk and the inventory table missing:
    the items are seeded after the allocations were summed, so the event
    records three units of an item that has nothing allocated. *)
Module Drift.
Definition files : System.Files := {|
  System.USERS_FILE := None;
  System.EVENTS_FILE := Some ["1,Gala,2025-10-20,09:00,Hall,Dinner,Social,0,1;2,2:3"];
  System.INVENTORY_FILE := None;
  System.ATTENDEES_FILE := None
|}.

Definition gala : Event.t :=
  Event.mk 1 "Gala" "2025-10-20" "09:00" "Hall" "Dinner" "Social" EventStatus.UPCOMING
           [] {[2 := 3]}.
Definition projector : InventoryItem.t := InventoryItem.mk 1 "Projector" 5 0 "HD Projector".
Definition chairs : InventoryItem.t := InventoryItem.mk 2 "Chairs" 100 0 "Standard chairs".

Definition state : System.t :=
  System.mk [(1%nat, User.mk 1 "admin" "adminpass" Role.ADMIN);
             (2%nat, User.mk 2 "user1" "user1pass" Role.REGULAR_USER);
             (3%nat, User.mk 3 "user2" "user2pass" Role.REGULAR_USER)]
            [gala] [projector; chairs] [] None 4 2 3 1 4%nat.
End Drift.

(** An inventory file in which two lines carry the same id. *)
Module Duplicate.
Definition files : System.Files := {|
  System.USERS_FILE := None;
  System.EVENTS_FILE := Some ["1,Gala,2025-10-20,09:00,Hall,Dinner,Social,0,1;2,2:30"];
  System.INVENTORY_FILE := Some ["2,Chairs,100,30,Standard chairs";
                                 "2,Stools,20,0,Bar stools"];
  System.ATTENDEES_FILE := None
|}.

Definition gala : Event.t :=
  Event.mk 1 "Gala" "2025-10-20" "09:00" "Hall" "Dinner" "Social" EventStatus.UPCOMING
           [] {[2 := 30]}.
Definition chairs : InventoryItem.t := InventoryItem.mk 2 "Chairs" 100 30 "Standard chairs".
Definition stools : InventoryItem.t := InventoryItem.mk 2 "Stools" 20 0 "Bar stools".

Definition state : System.t := System.mk [] [gala] [chairs; stools] [] None 1 2 3 1 1%nat.
End Duplicate.

(** Two events, the first with two registered attendees and four units of
    item 7. *)
Module Cascade.
Definition dinner : Event.t :=
  Event.mk 1 "Dinner" "2025-10-20" "19:00" "Hall" "Annual dinner" "Social"
           EventStatus.UPCOMING [1; 2] {[7 := 4]}.
Definition concert : Event.t :=
  Event.mk 2 "Concert" "2025-11-02" "20:00" "Park" "Open air" "Music"
           EventStatus.UPCOMING [3] ∅.
Definition tables : InventoryItem.t := InventoryItem.mk 7 "Tables" 10 4 "Round tables".
Definition ann : Attendee.t := Attendee.mk 1 "ann" "ann@example.org" 1 false.
Definition bob : Attendee.t := Attendee.mk 2 "bob" "bob@example.org" 1 true.
Definition eve : Attendee.t := Attendee.mk 3 "eve" "eve@example.org" 2 false.

Definition with_events (evs : list Event.t) : System.t :=
  System.mk [] evs [tables] [ann; bob; eve] None 1 3 8 4 1%nat.
End Cascade.

(** An evening at the desk, started in the state of the scenario: [user1]
    creates an event (the first date typed is refused), an item is added
    and partly allocated, [user1] registers, the time of the event is
    edited, an account is created, and the administrator logs in and
    deletes it. *)
Module Desk.
Definition typed : list string :=
  ["  Gala night  "; "2025-13-01"; ""; "2025-12-01"; "19:30"; "Hall"; "Dinner"; "Social";
   "Stools"; "Bar stools";
   "20:00";
   "admin"; "adminpass"].

Definition commands : list System.Command :=
  [System.CreateEvent;
   System.AddInventoryItem 20;
   System.Perform (System.TrackInventoryAllocationToEvent 4 1 2 5);
   System.Perform (System.TrackInventoryAllocationToEvent 4 2 2 2);
   System.Perform (System.RegisterAttendeeForEvent 4 "user1@example.org");
   System.EditEventDetails 4 3;
   System.CreateUserAccount "user3" "secret3" Role.REGULAR_USER;
   System.Logout;
   System.Login;
   System.Perform (System.DeleteUserAccount "user3")].

Definition gala : Event.t :=
  Event.mk 4 "Gala night" "2025-12-01" "20:00" "Hall" "Dinner" "Social"
           EventStatus.UPCOMING [1] {[2 := 3]}.
Definition stools : InventoryItem.t := InventoryItem.mk 2 "Stools" 20 3 "Bar stools".

(** The state the evening ends in. *)
Definition finish : System.t :=
  System.mk [(1%nat, User.mk 1 "admin" "adminpass" Role.ADMIN); (2%nat, Scenario.user1)]
            [Scenario.event 1 "E1"; Scenario.event 2 "E2"; Scenario.event 3 "E3"; gala]
            [Scenario.chairs; stools]
            [Attendee.mk 1 "user1" "user1@example.org" 4 false]
            (Some 1%nat) 4 5 3 2 4%nat.

(** [user1] has stored a contact, which made a generic profile. *)
Definition with_profile : System.t :=
  (System.updateCurrentLoggedInUserContactInfo "user1@example.org" Scenario.start).2.
Definition profile : Attendee.t := Attendee.mk 1 "user1" "user1@example.org" 0 false.
End Desk.

(** * Properties *)

(** ** The model at work *)

Example stoi_plain : stoi "42" = inr 42. Proof. reflexivity. Qed.
Example stoi_prefix : stoi "2,3" = inr 2. Proof. reflexivity. Qed.
Example stoi_neg : stoi " -17x" = inr (-17). Proof. reflexivity. Qed.
Example stoi_word : stoi "abc" = inl invalid_argument. Proof. reflexivity. Qed.
Example stoi_big : stoi "2147483648" = inl out_of_range. Proof. reflexivity. Qed.
Example to_string_neg : Int.to_string (-305) = "-305". Proof. reflexivity. Qed.
Example to_string_zero : Int.to_string 0 = "0". Proof. reflexivity. Qed.
Example split_ids : split_on ";" "1;;2" = ["1"; ""; "2"]. Proof. reflexivity. Qed.

(** [getline] on a good stream with something left reads the first piece
    of [split_on] and leaves the stream on the other pieces. *)
Lemma split_on_read_until d s :
  s <> "" ->
  split_on d s = (read_until d s).1 ::
                 match (read_until d s).2 with Some r => split_on d r | None => [] end.
Proof.
  induction s as [|c s IH]; [done|]. intros _. simpl.
  destruct (Ascii.eqb c d); [done|].
  destruct s as [|c' s'].
  - reflexivity.
  - rewrite IH by done. by destruct (read_until d (String c' s')) as [w [r|]].
Qed.

Example toString_full :
  Event.toString (sample_event [1; 2] (<[5 := 6]> {[3 := 4]}))
  = "7,Gala,2025-10-20,09-00,Hall,Dinner,Social,0,1;2,3:4;5:6".
Proof. vm_compute. reflexivity. Qed.

Example roundtrip_both_empty :
  Event.fromString (Event.toString (sample_event [] ∅)) = Done [] (sample_event [] ∅).
Proof. vm_compute. reflexivity. Qed.

Example remove_if_middle :
  remove_if (fun z => z =? 2) [1; 2; 3; 4] = ([1; 3; 4], [4]).
Proof. reflexivity. Qed.

Example remove_if_strings :
  remove_if (String.eqb "b") ["a"; "b"; "c"] = (["a"; "c"], [""]).
Proof. reflexivity. Qed.

Example remove_if_last :
  remove_if (String.eqb "c") ["a"; "b"; "c"] = (["a"; "b"], ["c"]).
Proof. reflexivity. Qed.

(** ** Searching and removing *)

Section algorithm_facts.
Context {A : Type}.
Implicit Types (p : A -> bool) (l : list A).

Lemma find_index_Some p l k :
  find_index p l = Some k ->
  exists x, l !! k = Some x /\ p x = true
            /\ forall j y, (j < k)%nat -> l !! j = Some y -> p y = false.
Proof.
  revert k. induction l as [|x l IH]; intros k; simpl; [done|].
  destruct (p x) eqn:Hp.
  - intros [= <-]. exists x. repeat split; [done|]. intros j y Hj. lia.
  - destruct (find_index p l) as [k'|] eqn:Hf; simpl; [|done].
    intros [= <-]. destruct (IH k' eq_refl) as (y & Hy & Hpy & Hlt).
    exists y. repeat split; [done..|].
    intros [|j] z Hj; simpl; [by intros [= <-]|].
    intros Hz. apply (Hlt j z); [lia|done].
Qed.

Lemma find_index_first p l k x :
  l !! k = Some x -> p x = true ->
  (forall j y, (j < k)%nat -> l !! j = Some y -> p y = false) ->
  find_index p l = Some k.
Proof.
  revert k. induction l as [|y l IH]; intros k; [done|].
  destruct k as [|k]; simpl.
  - intros [= ->] -> _. done.
  - intros Hk Hx Hlt. rewrite (Hlt 0%nat y); [|lia|done].
    rewrite (IH k); [done..|].
    intros j z Hj Hz. apply (Hlt (S j) z); [lia|done].
Qed.

Lemma find_if_app p l : (find_if p l).1 ++ (find_if p l).2 = l.
Proof.
  induction l as [|x l IH]; simpl; [done|].
  destruct (p x); [done|]. destruct (find_if p l). simpl in *. by f_equal.
Qed.

Lemma find_if_before p l : List.filter (fun x => negb (p x)) (find_if p l).1 = (find_if p l).1.
Proof.
  induction l as [|x l IH]; simpl; [done|].
  destruct (p x) eqn:Hp; [done|]. destruct (find_if p l). simpl in *.
  rewrite Hp. simpl. by f_equal.
Qed.

Lemma find_if_none p l : (find_if p l).2 = [] -> List.filter (fun x => negb (p x)) l = l.
Proof.
  intros Hn. rewrite <- (find_if_app p l) at 1 2. rewrite Hn, app_nil_r.
  apply find_if_before.
Qed.

Lemma find_if_first p l x rest : (find_if p l).2 = x :: rest -> p x = true.
Proof.
  induction l as [|y l IH]; simpl; [done|].
  destruct (p y) eqn:Hp; simpl.
  - by intros [= -> _].
  - destruct (find_if p l). simpl in *. done.
Qed.

Context `{Movable A}.

Lemma remove_if_loop_kept p kept hole rest :
  (remove_if_loop p kept hole rest).1 = kept ++ List.filter (fun x => negb (p x)) rest.
Proof.
  revert kept hole. induction rest as [|x rest IH]; intros kept hole; simpl.
  - by rewrite app_nil_r.
  - destruct (p x); simpl; rewrite IH; [done|]. by rewrite <- app_assoc.
Qed.

(** The range before the iterator that [remove_if] returns holds the
    elements to keep, in their order. *)
Lemma remove_if_kept p l : (remove_if p l).1 = List.filter (fun x => negb (p x)) l.
Proof.
  unfold remove_if. pose proof (find_if_app p l) as Happ.
  pose proof (find_if_before p l) as Hbefore.
  pose proof (find_if_first p l) as Hfirst.
  destruct (find_if p l) as [before [|first rest]]; simpl in *.
  - rewrite app_nil_r in Happ. by subst.
  - rewrite remove_if_loop_kept. subst l. rewrite List.filter_app. simpl.
    rewrite (Hfirst first rest eq_refl). simpl. by rewrite Hbefore.
Qed.

Lemma erase_remove_if_filter p l :
  erase_remove_if p l = List.filter (fun x => negb (p x)) l.
Proof. apply remove_if_kept. Qed.

Lemma remove_if_loop_hole p kept hole rest :
  hole <> [] -> (remove_if_loop p kept hole rest).2 <> [].
Proof.
  revert kept hole. induction rest as [|x rest IH]; intros kept hole Hhole; simpl.
  - done.
  - destruct (p x); apply IH; by intros [_ ?]%app_eq_nil.
Qed.

(** The iterator returned is not [end()] exactly when some element
    satisfies the predicate. *)
Lemma remove_if_found p l x :
  In x l -> p x = true -> (remove_if p l).2 <> [].
Proof.
  intros Hin Hx. unfold remove_if.
  pose proof (find_if_none p l) as Hnone.
  destruct (find_if p l) as [before [|first rest]]; simpl in *.
  - exfalso. specialize (Hnone eq_refl).
    rewrite <- Hnone in Hin. apply filter_In in Hin as [_ Hne].
    by rewrite Hx in Hne.
  - by apply remove_if_loop_hole.
Qed.

Lemma remove_if_back_nil p l : (remove_if p l).2 = [] -> (remove_if p l).1 = l.
Proof.
  unfold remove_if. pose proof (find_if_app p l) as Happ.
  destruct (find_if p l) as [before [|first rest]]; simpl in *.
  - intros _. by rewrite app_nil_r in Happ.
  - intros Hnil. exfalso. by apply (remove_if_loop_hole p before [first] rest).
Qed.

(** When the only match is followed by other elements, the iterator
    returned is on the last slot of the vector, and that slot holds what
    is left of the last element after it has been moved one place down. *)
Lemma remove_if_loop_no_match p kept h rest x :
  Forall (fun y => p y = false) (rest ++ [x]) ->
  (remove_if_loop p kept [h] (rest ++ [x])).2 = [moved_from x].
Proof.
  revert kept h. induction rest as [|y rest IH]; intros kept h Hall; simpl.
  - apply Forall_cons in Hall as [-> _]. done.
  - apply Forall_cons in Hall as [-> Hall]. simpl. by apply IH.
Qed.

Lemma remove_if_not_last p before e rest x :
  Forall (fun y => p y = false) before -> p e = true ->
  Forall (fun y => p y = false) (rest ++ [x]) ->
  (remove_if p (before ++ e :: rest ++ [x])).2 = [moved_from x].
Proof.
  intros Hbefore He Hrest. unfold remove_if.
  assert (find_if p (before ++ e :: rest ++ [x]) = (before, e :: rest ++ [x])) as ->.
  { clear Hrest. induction before as [|b before IH]; simpl.
    - by rewrite He.
    - apply Forall_cons in Hbefore as [-> Hbefore]. by rewrite IH. }
  by apply remove_if_loop_no_match.
Qed.

(** When the only match is the last element, the iterator returned is
    on it and it is intact. *)
Lemma remove_if_match_last p before e :
  Forall (fun y => p y = false) before -> p e = true ->
  remove_if p (before ++ [e]) = (before, [e]).
Proof.
  intros Hbefore He. unfold remove_if.
  assert (find_if p (before ++ [e]) = (before, [e])) as ->; [|done].
  induction before as [|b before IH]; simpl.
  - by rewrite He.
  - apply Forall_cons in Hbefore as [-> Hbefore]. by rewrite IH.
Qed.
End algorithm_facts.

(** ** The quantity invariant *)

Lemma allocate_ok q i : item_ok i -> item_ok (InventoryItem.allocate q i).1.2.
Proof.
  unfold item_ok, InventoryItem.allocate, InventoryItem.getAvailableQuantity.
  intros Hi. repeat case_match; simpl; lia.
Qed.

Lemma deallocate_ok q i : item_ok i -> item_ok (InventoryItem.deallocate q i).1.2.
Proof.
  unfold item_ok, InventoryItem.deallocate.
  intros Hi. repeat case_match; simpl; lia.
Qed.

Lemma setTotalQuantity_ok q i : item_ok i -> item_ok (InventoryItem.setTotalQuantity q i).2.
Proof.
  unfold item_ok, InventoryItem.setTotalQuantity.
  intros Hi. repeat case_match; simpl; lia.
Qed.

Lemma return_allocation_ok acc pair :
  Forall item_ok acc.2 -> Forall item_ok (System.return_allocation acc pair).2.
Proof.
  destruct acc as [log inv]. unfold System.return_allocation. simpl. intros Hinv.
  destruct (find_index _ inv) as [k|]; [|done].
  destruct (inv !! k) as [item|] eqn:Hk; [|done].
  pose proof (deallocate_ok pair.2 item) as Hd.
  destruct (InventoryItem.deallocate pair.2 item) as [[log' item'] b]. simpl in *.
  apply Forall_insert; [done|]. apply Hd. by eapply Forall_lookup_1.
Qed.

Lemma return_allocations_ok pairs acc :
  Forall item_ok acc.2 -> Forall item_ok (fold_left System.return_allocation pairs acc).2.
Proof.
  revert acc. induction pairs as [|pair pairs IH]; intros acc Hacc; simpl; [done|].
  apply IH. by apply return_allocation_ok.
Qed.

Lemma deleteEvent_consistent eventId s :
  consistent s -> consistent (System.deleteEvent eventId s).2.
Proof.
  unfold consistent, System.deleteEvent. intros Hs.
  destruct (remove_if _ (System.events s)) as [kept [|it back]]; [done|].
  pose proof (return_allocations_ok (items (Event.allocatedInventory it))
                ([], System.inventory s) Hs) as Hr.
  destruct (fold_left _ _ _) as [log inv]. done.
Qed.

Lemma trackInventoryAllocationToEvent_consistent eventId choice itemId quantity s :
  consistent s ->
  consistent (System.trackInventoryAllocationToEvent eventId choice itemId quantity s).2.
Proof.
  unfold consistent, System.trackInventoryAllocationToEvent. intros Hs.
  destruct (System.findEventById eventId s) as [ke|]; [|done].
  destruct (System.events s !! ke) as [event|]; [|done].
  destruct (choice =? 1).
  - destruct (System.findInventoryItemById itemId s) as [ki|]; [|done].
    destruct (System.inventory s !! ki) as [item|] eqn:Hki; [|done].
    pose proof (allocate_ok quantity item (Forall_lookup_1 _ _ _ _ Hs Hki)) as Ha.
    destruct (InventoryItem.allocate quantity item) as [[log item'] ok]. simpl in Ha.
    destruct ok; simpl; by apply Forall_insert.
  - destruct (choice =? 2); [|done].
    destruct (System.findInventoryItemById itemId s) as [ki|]; [|done].
    destruct (System.inventory s !! ki) as [item|] eqn:Hki; [|done].
    destruct (Event.allocatedInventory event !! itemId); [|done].
    destruct (Event.deallocateInventoryItem _ quantity event) as [event' actual].
    destruct (0 <? actual); [|done].
    pose proof (deallocate_ok actual item (Forall_lookup_1 _ _ _ _ Hs Hki)) as Hd.
    destruct (InventoryItem.deallocate actual item) as [[log item'] ok]. simpl in Hd.
    simpl. by apply Forall_insert.
Qed.

Lemma updateInventoryItemDetails_consistent itemId choice str n s :
  consistent s ->
  consistent (System.updateInventoryItemDetails itemId choice str n s).2.
Proof.
  unfold consistent, System.updateInventoryItemDetails. intros Hs.
  destruct (System.findInventoryItemById itemId s) as [k|]; [|done].
  destruct (System.inventory s !! k) as [item|] eqn:Hk; [|done].
  pose proof (Forall_lookup_1 _ _ _ _ Hs Hk) as Hitem.
  destruct (choice =? 1); [by apply Forall_insert|].
  destruct (choice =? 2).
  { pose proof (setTotalQuantity_ok n item Hitem) as Ht.
    destruct (InventoryItem.setTotalQuantity n item) as [log item']. simpl in *.
    by apply Forall_insert. }
  destruct (choice =? 3); [by apply Forall_insert|].
  by destruct (choice =? 4).
Qed.

(** The operations that leave the inventory alone. *)
Lemma step_inventory_untouched op s :
  match op with
  | System.DeleteEvent _ | System.UpdateInventoryItemDetails _ _ _ _
  | System.TrackInventoryAllocationToEvent _ _ _ _ => True
  | _ => System.inventory (System.step op s).2 = System.inventory s
  end.
Proof.
  destruct op; simpl; try done.
  - unfold System.deleteUserAccount. repeat case_match; done.
  - unfold System.updateEventStatus. repeat case_match; done.
  - unfold System.registerAttendeeForEvent. repeat case_match; done.
  - unfold System.cancelOwnRegistration. repeat case_match; done.
  - unfold System.checkInAttendeeForEvent. repeat case_match; done.
  - unfold System.updateCurrentLoggedInUserContactInfo. repeat case_match; done.
Qed.

Lemma step_consistent op s : consistent s -> consistent (System.step op s).2.
Proof.
  intros Hs. pose proof (step_inventory_untouched op s) as Hu.
  destruct op; simpl in *;
    try (unfold consistent; rewrite Hu; exact Hs).
  - by apply deleteEvent_consistent.
  - by apply updateInventoryItemDetails_consistent.
  - by apply trackInventoryAllocationToEvent_consistent.
Qed.

(** C3.  In every state reached from a consistent state by a sequence of
    operations (allocation, deallocation, change of a total quantity,
    deletion of an event, and the other operations of the system), every
    inventory item satisfies [0 <= allocatedQuantity <= totalQuantity]. *)
Theorem quantity_invariant ops s :
  consistent s ->
  forall item, In item (System.inventory (System.run ops s)) ->
    0 <= InventoryItem.allocatedQuantity item <= InventoryItem.totalQuantity item.
Proof.
  intros Hs. assert (consistent (System.run ops s)) as Hrun.
  { revert s Hs. unfold System.run.
    induction ops as [|op ops IH]; intros s Hs; simpl; [done|].
    apply IH. by apply step_consistent. }
  intros item Hin. unfold consistent in Hrun. rewrite Forall_forall in Hrun.
  apply Hrun. by apply list_elem_of_In.
Qed.

(** ** Allocation *)





(** ** Deallocation *)

Lemma deallocate_spec q i :
  0 < q ->
  (InventoryItem.deallocate q i).1.2
  = if q <=? InventoryItem.allocatedQuantity i
    then InventoryItem.set_allocatedQuantity (InventoryItem.allocatedQuantity i - q) i
    else i.
Proof.
  intros Hq. unfold InventoryItem.deallocate.
  destruct (q <=? 0) eqn:Hq0; [lia|].
  by destruct (q <=? InventoryItem.allocatedQuantity i).
Qed.

Lemma deallocateInventoryItem_spec itmId q e a :
  Event.allocatedInventory e !! itmId = Some a -> 0 < q ->
  Event.deallocateInventoryItem itmId q e
  = (Event.set_allocatedInventory
       (if a <=? q then delete itmId (Event.allocatedInventory e)
        else <[itmId := a - q]> (Event.allocatedInventory e)) e,
     Z.min a q).
Proof.
  intros Ha Hq. unfold Event.deallocateInventoryItem. rewrite Ha.
  destruct (q <=? 0) eqn:Hq0; [lia|].
  destruct (Z.min_spec a q) as [[Hlt ->]|[Hle ->]].
  - replace (a - a <=? 0) with true by lia. by replace (a <=? q) with true by lia.
  - destruct (a - q <=? 0) eqn:Hr, (a <=? q) eqn:Hr'; try lia; done.
Qed.

(** C5, as the code has it.  For an event with a recorded allocation
    [a > 0] of an item and a request [qty > 0], the event's entry loses
    exactly [min qty a] units and is erased when nothing is left; the
    item's [allocatedQuantity] loses the same amount when it is at least
    that large, and is left as it is otherwise. *)
Theorem deallocation_clamps s eventId itemId qty ke ki event item a :
  System.findEventById eventId s = Some ke -> System.events s !! ke = Some event ->
  System.findInventoryItemById itemId s = Some ki ->
  System.inventory s !! ki = Some item ->
  Event.allocatedInventory event !! itemId = Some a -> 0 < a -> 0 < qty ->
  let r := System.trackInventoryAllocationToEvent eventId 2 itemId qty s in
  let removed := Z.min qty a in
  exists item' event',
    System.inventory r.2 = <[ki := item']> (System.inventory s)
    /\ System.events r.2 = <[ke := event']> (System.events s)
    /\ Event.allocatedInventory event' !! itemId
       = (if a <=? qty then None else Some (a - removed))
    /\ entry (Event.allocatedInventory event') itemId
       = entry (Event.allocatedInventory event) itemId - removed
    /\ (forall other, other <> itemId ->
          Event.allocatedInventory event' !! other = Event.allocatedInventory event !! other)
    /\ InventoryItem.allocatedQuantity item'
       = (if removed <=? InventoryItem.allocatedQuantity item
          then InventoryItem.allocatedQuantity item - removed
          else InventoryItem.allocatedQuantity item)
    /\ InventoryItem.totalQuantity item' = InventoryItem.totalQuantity item
    /\ exists item_name event_name, In (Deallocated removed item_name event_name) r.1.
Proof.
  intros Hfe He Hfi Hi Ha Hapos Hqpos r removed. subst r removed.
  destruct (find_index_Some _ _ _ Hfi) as (item0 & Hitem0 & Hid & _).
  rewrite Hi in Hitem0. injection Hitem0 as <-. apply Z.eqb_eq in Hid.
  unfold System.trackInventoryAllocationToEvent. rewrite Hfe, He. simpl.
  rewrite Hfi, Hi, Ha, Hid.
  rewrite (deallocateInventoryItem_spec itemId qty event a Ha Hqpos).
  rewrite (Z.min_comm qty a).
  assert (0 < Z.min a qty) as Hmin by lia.
  destruct (0 <? Z.min a qty) eqn:Hpos; [|lia].
  pose proof (deallocate_spec (Z.min a qty) item Hmin) as Hd.
  destruct (InventoryItem.deallocate (Z.min a qty) item) as [[log item'] ok].
  simpl in Hd. subst item'. simpl.
  eexists _, _. split; [reflexivity|]. split; [reflexivity|]. simpl.
  split; [|split; [|split; [|split; [|split]]]].
  - destruct (a <=? qty) eqn:Hle.
    + apply lookup_delete_eq.
    + rewrite lookup_insert_eq. f_equal. lia.
  - unfold entry. rewrite Ha. simpl. destruct (a <=? qty) eqn:Hle.
    + rewrite lookup_delete_eq. simpl. lia.
    + rewrite lookup_insert_eq. simpl. lia.
  - intros other Hother. destruct (a <=? qty).
    + by rewrite lookup_delete_ne.
    + by rewrite lookup_insert_ne.
  - by destruct (Z.min a qty <=? InventoryItem.allocatedQuantity item).
  - by destruct (Z.min a qty <=? InventoryItem.allocatedQuantity item).
  - eexists _, _. right. apply in_or_app. right. left. reflexivity.
Qed.

Example Drift_startup_state : System.startup Drift.files = Done [] Drift.state.
Proof. vm_compute. reflexivity. Qed.

Example Drift_deallocate_ten :
  System.trackInventoryAllocationToEvent 1 2 2 10 Drift.state
  = ([CurrentlyAllocated 3 "Chairs"; ErrCannotDeallocate 3 "Chairs" 0;
      Deallocated 3 "Chairs" "Gala"],
     System.set_events [Event.set_allocatedInventory ∅ Drift.gala] Drift.state).
Proof. vm_compute. reflexivity. Qed.

(** C5 as stated fails in the state [Drift.state]: the event records 3
    chairs, 10 are requested back, the entry is erased, and the item's
    [allocatedQuantity] stays 0 instead of losing 3. *)
Lemma deallocation_item_not_mirrored : ~ removes_clamped_amount Drift.state 1 2 10.
Proof.
  intros Hclaim.
  destruct (Hclaim 0%nat 1%nat Drift.gala Drift.chairs 3)
    as (item' & event' & Hitem & _ & _ & Hqty); try reflexivity.
  simpl in Hitem. rewrite Drift_deallocate_ten in Hitem. simpl in Hitem.
  injection Hitem as <-. simpl in Hqty. lia.
Qed.

(** ** Reconciliation after loading *)

Lemma credited_absent pairs x : x ∉ pairs.*1 -> credited pairs x = 0.
Proof.
  induction pairs as [|[k v] pairs IH]; simpl; [done|].
  intros Hx. apply not_elem_of_cons in Hx as [Hne Hx].
  rewrite IH by done. destruct (k =? x) eqn:Hk; lia.
Qed.

Lemma credited_present pairs x v :
  NoDup pairs.*1 -> (x, v) ∈ pairs -> credited pairs x = v.
Proof.
  induction pairs as [|[k w] pairs IH]; simpl; [by intros _ ?%elem_of_nil|].
  intros [Hk Hnd]%NoDup_cons [Heq|Hin]%elem_of_cons.
  - injection Heq as -> ->. rewrite Z.eqb_refl, credited_absent by done. lia.
  - destruct (k =? x) eqn:Hkx.
    + apply Z.eqb_eq in Hkx as ->. exfalso. apply Hk.
      apply list_elem_of_fmap. by exists (x, v).
    + rewrite IH by done. lia.
Qed.

(** Iterating over a map credits each id with its entry. *)
Lemma credited_items m x : credited (items m) x = entry m x.
Proof.
  assert (items m ≡ₚ map_to_list m) as Hperm by apply merge_sort_Permutation.
  assert (NoDup (items m).*1) as Hnd.
  { rewrite Hperm. apply NoDup_fst_map_to_list. }
  unfold entry. destruct (m !! x) as [v|] eqn:Hx; simpl.
  - apply credited_present; [done|]. rewrite Hperm. by apply elem_of_map_to_list.
  - apply credited_absent. rewrite Hperm.
    intros ([k v] & -> & Hin%elem_of_map_to_list)%list_elem_of_fmap.
    simpl in Hx. congruence.
Qed.













Lemma unique_id_first (inv : list InventoryItem.t) k item :
  NoDup (InventoryItem.itemId <$> inv) -> inv !! k = Some item ->
  find_index (fun i => InventoryItem.itemId i =? InventoryItem.itemId item) inv = Some k.
Proof.
  intros Hnd Hk. apply find_index_first with item; [done|apply Z.eqb_refl|].
  intros j other Hj Hother. apply Z.eqb_neq. intros Hid.
  assert (j = k); [|lia].
  apply (NoDup_lookup _ j k (InventoryItem.itemId item) Hnd).
  - by rewrite list_lookup_fmap, Hother, <- Hid.
  - by rewrite list_lookup_fmap, Hk.
Qed.




(** ** Deleting an event *)

(** The attendees registered for the event leave the store, wherever the
    event stands among the events. *)
Lemma deleteEvent_attendees eventId s e :
  In e (System.events s) -> Event.eventId e = eventId ->
  System.allAttendees (System.deleteEvent eventId s).2
  = List.filter (fun att => negb (Attendee.eventIdRegisteredFor att =? eventId))
                (System.allAttendees s).
Proof.
  intros Hin Hid. unfold System.deleteEvent.
  pose proof (remove_if_found (fun e => Event.eventId e =? eventId) (System.events s) e Hin)
    as Hfound.
  destruct (remove_if _ (System.events s)) as [kept [|it back]]; simpl in *.
  - exfalso. apply Hfound; [|done]. by apply Z.eqb_eq.
  - destruct (fold_left _ _ _) as [log inv]. simpl. apply erase_remove_if_filter.
Qed.

(** The event itself leaves the event store. *)
Lemma deleteEvent_events eventId s :
  System.events (System.deleteEvent eventId s).2
  = List.filter (fun e => negb (Event.eventId e =? eventId)) (System.events s).
Proof.
  unfold System.deleteEvent.
  pose proof (remove_if_kept (fun e => Event.eventId e =? eventId) (System.events s)) as Hk.
  destruct (remove_if _ (System.events s)) as [kept [|it back]] eqn:Hr; simpl in *.
  - rewrite <- Hk.
    pose proof (find_if_app (fun e => Event.eventId e =? eventId) (System.events s)) as Happ.
    unfold remove_if in Hr.
    destruct (find_if _ (System.events s)) as [before [|first rest]]; simpl in *.
    + injection Hr as <-. by rewrite app_nil_r in Happ.
    + exfalso. apply (remove_if_loop_hole (fun e => Event.eventId e =? eventId)
                        before [first] rest); [done|]. by rewrite Hr.
  - by destruct (fold_left _ _ _) as [log inv].
Qed.

(** When events follow the deleted one, the iterator that [remove_if]
    returns is on the slot the last event was moved out of, whose
    allocation map is empty: nothing goes back to the inventory. *)
Lemma deleteEvent_not_last eventId s before e rest last :
  System.events s = before ++ e :: rest ++ [last] ->
  Event.eventId e = eventId ->
  Forall (fun e' => Event.eventId e' <> eventId) (before ++ rest ++ [last]) ->
  System.inventory (System.deleteEvent eventId s).2 = System.inventory s.
Proof.
  intros Hevents Hid Hothers. unfold System.deleteEvent. rewrite Hevents.
  apply Forall_app in Hothers as [Hbefore Hrest].
  pose proof (remove_if_not_last (fun e => Event.eventId e =? eventId)
                before e rest last) as Hback.
  destruct (remove_if _ (before ++ e :: rest ++ [last])) as [kept back].
  simpl in Hback. rewrite Hback.
  - simpl. done.
  - eapply Forall_impl; [exact Hbefore|]. intros x Hx. by apply Z.eqb_neq.
  - by apply Z.eqb_eq.
  - eapply Forall_impl; [exact Hrest|]. intros x Hx. by apply Z.eqb_neq.
Qed.

(** When the deleted event is the last of the store, the iterator is on
    it, and each of its allocations is handed to [deallocate] on the item
    it names. *)
Lemma deleteEvent_last eventId s before e :
  System.events s = before ++ [e] ->
  Event.eventId e = eventId ->
  Forall (fun e' => Event.eventId e' <> eventId) before ->
  System.inventory (System.deleteEvent eventId s).2
  = (fold_left System.return_allocation (items (Event.allocatedInventory e))
               ([], System.inventory s)).2.
Proof.
  intros Hevents Hid Hbefore. unfold System.deleteEvent. rewrite Hevents.
  rewrite (remove_if_match_last (fun e => Event.eventId e =? eventId) before e).
  - by destruct (fold_left _ _ _) as [log inv].
  - eapply Forall_impl; [exact Hbefore|]. intros x Hx. by apply Z.eqb_neq.
  - by apply Z.eqb_eq.
Qed.

(** The deleted event is the last one: its four tables come back. *)
Example Cascade_delete_last :
  System.deleteEvent 1 (Cascade.with_events [Cascade.concert; Cascade.dinner])
  = ([EventDeleted "Dinner" 1],
     System.mk [] [Cascade.concert]
               [InventoryItem.set_allocatedQuantity 0 Cascade.tables] [Cascade.eve]
               None 1 3 8 4 1%nat).
Proof. vm_compute. reflexivity. Qed.

(** C6 at [Cascade.with_events [dinner; concert]].  Deleting event 1, which
    stands before event 2, removes the event and its two attendees, but
    item 7 keeps its four allocated units: the allocations handed back are
    those of the slot under the iterator, which is what is left of the
    concert after it was moved down. *)
Theorem deleteEvent_keeps_allocation :
  System.deleteEvent 1 (Cascade.with_events [Cascade.dinner; Cascade.concert])
  = ([EventDeleted "" 2],
     System.mk [] [Cascade.concert] [Cascade.tables] [Cascade.eve] None 1 3 8 4 1%nat)
  /\ InventoryItem.allocatedQuantity Cascade.tables = 4
  /\ entry (Event.allocatedInventory Cascade.dinner) 7 = 4.
Proof. split; [vm_compute; reflexivity|]. split; reflexivity. Qed.

(** ** Registration *)

(** C9.  When the event that a registration request names is CANCELED or
    COMPLETED, the request is rejected: the state is unchanged, so no
    attendee record is created or modified and the event keeps its
    [attendeeIds]; a regular user is told that one cannot register for
    such an event. *)
Theorem registration_rejected s eventId contact k event :
  System.findEventById eventId s = Some k -> System.events s !! k = Some event ->
  Event.status event = EventStatus.CANCELED \/ Event.status event = EventStatus.COMPLETED ->
  let r := System.registerAttendeeForEvent eventId contact s in
  r.2 = s
  /\ System.allAttendees r.2 = System.allAttendees s
  /\ System.events r.2 !! k = Some event
  /\ (forall user, System.current s = Some user -> User.role user <> Role.ADMIN ->
        r.1 = [CannotRegister (Event.status event)]).
Proof.
  intros Hf He Hstatus r. subst r. unfold System.registerAttendeeForEvent.
  rewrite Hf, He.
  assert ((Event.status event =? EventStatus.CANCELED)
          || (Event.status event =? EventStatus.COMPLETED) = true) as ->.
  { apply orb_true_iff. destruct Hstatus as [->| ->]; [by left|by right]. }
  destruct (System.current s) as [user|]; [|done].
  destruct (User.role user =? Role.ADMIN) eqn:Hrole; [|simpl].
  - repeat split; try done. intros u [= <-] Hne. by apply Z.eqb_eq in Hrole.
  - repeat split; done.
Qed.

(** ** Deleting a user account *)

Lemma find_filter {A} (f g : A -> bool) (l : list A) x :
  find f l = Some x -> g x = true -> find f (List.filter g l) = Some x.
Proof.
  induction l as [|y l IH]; simpl; [done|].
  destruct (f y) eqn:Hf.
  - intros [= ->] Hg. rewrite Hg. simpl. by rewrite Hf.
  - intros Hfind Hg. destruct (g y); simpl; [rewrite Hf|]; by apply IH.
Qed.

Lemma deleteUserAccount_users uname s :
  (forall user, System.current s = Some user -> User.username user <> uname) ->
  System.users (System.deleteUserAccount uname s).2
  = List.filter (fun q : nat * User.t => negb (String.eqb (User.username q.2) uname))
                (System.users s).
Proof.
  intros Hother. unfold System.deleteUserAccount.
  destruct (System.current s) as [user|] eqn:Hcur.
  - destruct (String.eqb_spec (User.username user) uname) as [Heq|_].
    { by destruct (Hother user eq_refl). }
    pose proof (remove_if_kept (fun q : nat * User.t => String.eqb (User.username q.2) uname)
                  (System.users s)) as Hk.
    pose proof (remove_if_back_nil
                  (fun q : nat * User.t => String.eqb (User.username q.2) uname)
                  (System.users s)) as Hn.
    destruct (remove_if _ (System.users s)) as [kept [|q back]]; simpl in *.
    + rewrite <- Hk. symmetry. by apply Hn.
    + done.
  - pose proof (remove_if_kept (fun q : nat * User.t => String.eqb (User.username q.2) uname)
                  (System.users s)) as Hk.
    pose proof (remove_if_back_nil
                  (fun q : nat * User.t => String.eqb (User.username q.2) uname)
                  (System.users s)) as Hn.
    destruct (remove_if _ (System.users s)) as [kept [|q back]]; simpl in *.
    + rewrite <- Hk. symmetry. by apply Hn.
    + done.
Qed.

(** C10.  Deleting the account whose username is that of the logged-in
    user is refused and changes nothing.  Whatever the username asked for,
    the logged-in session still points to its user record afterwards.
    For a username that is not the logged-in one, every record carrying it
    leaves the user store and the other records stay, in their order; the
    deletion is reported when there was such a record. *)
Theorem deleteUserAccount_guard s uname :
  (forall user, System.current s = Some user -> User.username user = uname ->
     System.deleteUserAccount uname s = ([ErrCannotDeleteLoggedIn], s))
  /\ (forall user, System.current s = Some user ->
        System.current (System.deleteUserAccount uname s).2 = Some user)
  /\ ((forall user, System.current s = Some user -> User.username user <> uname) ->
      System.users (System.deleteUserAccount uname s).2
      = List.filter (fun q : nat * User.t => negb (String.eqb (User.username q.2) uname))
                    (System.users s)
      /\ (forall q, In q (System.users s) -> User.username q.2 = uname ->
            (System.deleteUserAccount uname s).1 = [UserDeleted uname]
            /\ ~ In q (System.users (System.deleteUserAccount uname s).2))).
Proof.
  split; [|split].
  - intros user Hcur Hname. unfold System.deleteUserAccount. rewrite Hcur.
    by rewrite <- Hname, String.eqb_refl.
  - intros user Hcur.
    destruct (String.eqb_spec (User.username user) uname) as [Heq|Hne].
    + unfold System.deleteUserAccount at 1. rewrite Hcur.
      apply String.eqb_eq in Heq. by rewrite Heq.
    + assert (forall u, System.current s = Some u -> User.username u <> uname) as Hother.
      { intros u Hu. rewrite Hcur in Hu. by injection Hu as <-. }
      pose proof (deleteUserAccount_users uname s Hother) as Husers.
      assert (System.currentUser (System.deleteUserAccount uname s).2
              = System.currentUser s) as Hptr.
      { unfold System.deleteUserAccount. repeat case_match; done. }
      unfold System.current in *. rewrite Hptr.
      destruct (System.currentUser s) as [p|]; [|done].
      unfold System.deref_user in *. rewrite Husers.
      destruct (find _ (System.users s)) as [q|] eqn:Hfind; [|done].
      simpl in Hcur. injection Hcur as <-.
      erewrite find_filter; [done|exact Hfind|].
      apply negb_true_iff. by apply String.eqb_neq.
  - intros Hother. split; [by apply deleteUserAccount_users|].
    intros q Hin Hname.
    pose proof (deleteUserAccount_users uname s Hother) as Husers.
    split.
    + unfold System.deleteUserAccount.
      assert (match System.current s with
              | Some u => String.eqb (User.username u) uname
              | None => false
              end = false) as ->.
      { destruct (System.current s) as [u|]; [|done].
        apply String.eqb_neq. by apply Hother. }
      pose proof (remove_if_found
                    (fun q : nat * User.t => String.eqb (User.username q.2) uname)
                    (System.users s) q Hin) as Hfound.
      destruct (remove_if _ (System.users s)) as [kept [|q' back]]; simpl in *; [|done].
      exfalso. apply Hfound; [|done]. by apply String.eqb_eq.
    + rewrite Husers. intros [_ Hkeep]%filter_In.
      apply negb_true_iff, String.eqb_neq in Hkeep. done.
Qed.

(** ** Check-in *)

Lemma check_in_kept_all l : Forall2 check_in_kept l l.
Proof. induction l; by constructor. Qed.

Lemma check_ins_preserved_refl s l : check_ins_preserved s l l.
Proof.
  rewrite <- (app_nil_r l) at 2. apply records_rewritten; [|done].
  apply check_in_kept_all.
Qed.

Lemma check_ins_preserved_insert s l j a a' :
  l !! j = Some a -> check_in_kept a a' -> check_ins_preserved s l (<[j := a']> l).
Proof.
  intros Hj Hkept. rewrite <- (app_nil_r (<[j := a']> l)).
  apply records_rewritten; [|done].
  rewrite <- (list_insert_id l j a Hj) at 1.
  apply Forall2_insert; [|done]. apply check_in_kept_all.
Qed.

Lemma checkIn_kept a : check_in_kept a (Attendee.checkIn a).2.
Proof. unfold Attendee.checkIn. by destruct (Attendee.isCheckedIn a). Qed.

Lemma update_contacts_kept uname contact l :
  Forall2 check_in_kept l (System.update_contacts uname contact l).1.
Proof.
  induction l as [|a l IH]; simpl; [done|].
  destruct (System.same_name (Attendee.name a) uname
            && (Attendee.eventIdRegisteredFor a =? 0)).
  - simpl. constructor; [done|apply check_in_kept_all].
  - destruct (System.update_contacts uname contact l) as [rest found]. simpl in *.
    constructor; [|done]. by destruct (System.same_name _ _).
Qed.

Lemma step_check_ins_preserved op s :
  check_ins_preserved s (System.allAttendees s) (System.allAttendees (System.step op s).2).
Proof.
  destruct op; simpl.
  - unfold System.deleteUserAccount. repeat case_match; apply check_ins_preserved_refl.
  - unfold System.deleteEvent.
    destruct (remove_if _ (System.events s)) as [kept [|it back]];
      [apply check_ins_preserved_refl|].
    destruct (fold_left _ _ _) as [log inv]. simpl.
    rewrite erase_remove_if_filter. apply records_removed.
  - unfold System.updateEventStatus. repeat case_match; apply check_ins_preserved_refl.
  - unfold System.registerAttendeeForEvent.
    destruct (System.current s) as [user|]; [|apply check_ins_preserved_refl].
    destruct (User.role user =? Role.ADMIN); [apply check_ins_preserved_refl|].
    destruct (System.findEventById eventId s) as [k|]; [|apply check_ins_preserved_refl].
    destruct (System.events s !! k) as [event|]; [|apply check_ins_preserved_refl].
    destruct (_ || _); [apply check_ins_preserved_refl|].
    destruct (find_index _ (System.allAttendees s)) as [j|].
    { destruct (System.allAttendees s !! j) as [a|]; simpl.
      - destruct (Event.addAttendee _ event). apply check_ins_preserved_refl.
      - destruct (Event.addAttendee _ event). simpl.
        apply records_rewritten; [apply check_in_kept_all|by apply Forall_singleton]. }
    destruct (find_index _ (System.allAttendees s)) as [j|].
    { destruct (System.allAttendees s !! j) as [a|] eqn:Hj; simpl.
      - destruct (Event.addAttendee _ event). simpl.
        by apply check_ins_preserved_insert with a.
      - destruct (Event.addAttendee _ event). simpl.
        apply records_rewritten; [apply check_in_kept_all|by apply Forall_singleton]. }
    destruct (Event.addAttendee _ event). simpl.
    apply records_rewritten; [apply check_in_kept_all|by apply Forall_singleton].
  - unfold System.cancelOwnRegistration.
    destruct (System.current s) as [user|]; [|apply check_ins_preserved_refl].
    destruct (User.role user =? Role.ADMIN); [apply check_ins_preserved_refl|].
    destruct (System.findEventById eventId s) as [k|]; [|apply check_ins_preserved_refl].
    destruct (System.events s !! k) as [event|]; [|apply check_ins_preserved_refl].
    destruct (negb _); [|apply check_ins_preserved_refl]. simpl.
    rewrite erase_remove_if_filter. apply records_removed.
  - unfold System.checkInAttendeeForEvent.
    destruct (System.findEventById eventId s); [|apply check_ins_preserved_refl].
    destruct (System.findAttendeeInMasterList attendeeId s) as [j|];
      [|apply check_ins_preserved_refl].
    destruct (System.allAttendees s !! j) as [a|] eqn:Hj; [|apply check_ins_preserved_refl].
    destruct (_ =? eventId); [|apply check_ins_preserved_refl].
    pose proof (checkIn_kept a) as Hkept.
    destruct (Attendee.checkIn a) as [log a']. simpl in *.
    by apply check_ins_preserved_insert with a.
  - unfold System.updateCurrentLoggedInUserContactInfo.
    destruct (System.current s) as [user|]; [|apply check_ins_preserved_refl].
    destruct (User.role user =? Role.ADMIN); [apply check_ins_preserved_refl|].
    pose proof (update_contacts_kept (User.username user) newContact (System.allAttendees s))
      as Hkept.
    destruct (System.update_contacts _ _ _) as [atts [|]]; simpl in *.
    + rewrite <- (app_nil_r atts). by apply records_rewritten.
    + apply records_rewritten; [done|]. by apply Forall_singleton.
  - unfold System.updateInventoryItemDetails. repeat case_match; apply check_ins_preserved_refl.
  - unfold System.trackInventoryAllocationToEvent.
    repeat case_match; apply check_ins_preserved_refl.
Qed.

(** With distinct attendee ids, all below the next id to be issued: an
    attendee who is checked in before an operation and whose id is still
    in the store after it is checked in after it. *)
Lemma checked_in_stays_checked_in s l l' a a' :
  NoDup (Attendee.attendeeId <$> l) ->
  Forall (fun b => Attendee.attendeeId b < System.nextAttendeeId s) l ->
  check_ins_preserved s l l' ->
  In a l -> Attendee.isCheckedIn a = true ->
  In a' l' -> Attendee.attendeeId a' = Attendee.attendeeId a ->
  Attendee.isCheckedIn a' = true.
Proof.
  intros Hnd Hbelow Hpres Ha Hin Ha' Hid.
  apply list_elem_of_In, list_elem_of_lookup in Ha as [i Hi].
  assert (forall j b, l !! j = Some b -> Attendee.attendeeId b = Attendee.attendeeId a ->
                      b = a) as Hsame.
  { intros j b Hj Hb. assert (j = i) as ->; [|congruence].
    apply (NoDup_lookup _ j i (Attendee.attendeeId a) Hnd).
    - by rewrite list_lookup_fmap, Hj, <- Hb.
    - by rewrite list_lookup_fmap, Hi. }
  destruct Hpres as [keep l|l rewritten created Hrew Hnew].
  - apply filter_In in Ha' as [Ha' _].
    apply list_elem_of_In, list_elem_of_lookup in Ha' as [j Hj].
    by rewrite (Hsame j a' Hj Hid).
  - apply in_app_or in Ha' as [Ha'|Ha'].
    + apply list_elem_of_In, list_elem_of_lookup in Ha' as [j Hj].
      destruct (Forall2_lookup_r _ _ _ _ _ Hrew Hj) as (b & Hb & Hkept).
      destruct Hkept as (Hidb & _ & _ & Hflag).
      rewrite (Hsame j b Hb) in Hflag by congruence. by apply Hflag.
    + exfalso. rewrite Forall_forall in Hnew.
      destruct (Hnew a' (proj2 (list_elem_of_In _ _) Ha')) as [Hfresh _].
      rewrite Forall_forall in Hbelow.
      pose proof (Hbelow a (list_elem_of_lookup_2 _ _ _ Hi)). lia.
Qed.

(** C8.  Check-in is one-way and idempotent.  No operation undoes a
    check-in: an operation either removes attendee records and leaves the
    others as they are, or rewrites records in place keeping every
    [isCheckedIn] that is true and appends records it creates.  Checking in
    an attendee who is already checked in changes nothing and reports
    "already checked in". *)
Theorem check_in_one_way_idempotent :
  (forall op s,
     check_ins_preserved s (System.allAttendees s)
                         (System.allAttendees (System.step op s).2))
  /\ (forall a, Attendee.isCheckedIn a = true ->
        Attendee.checkIn a
        = ([AlreadyCheckedIn (Attendee.name a) (Attendee.eventIdRegisteredFor a)], a))
  /\ (forall a, Attendee.isCheckedIn (Attendee.checkIn a).2 = true)
  /\ (forall s eventId attendeeId ke j a,
        System.findEventById eventId s = Some ke ->
        System.findAttendeeInMasterList attendeeId s = Some j ->
        System.allAttendees s !! j = Some a ->
        Attendee.eventIdRegisteredFor a = eventId ->
        Attendee.isCheckedIn a = true ->
        System.checkInAttendeeForEvent eventId attendeeId s
        = ([AlreadyCheckedIn (Attendee.name a) eventId], s)).
Proof.
  split; [apply step_check_ins_preserved|]. split; [|split].
  - intros a Ha. unfold Attendee.checkIn. by rewrite Ha.
  - intros a. unfold Attendee.checkIn. by destruct (Attendee.isCheckedIn a) eqn:Ha.
  - intros s eventId attendeeId ke j a Hfe Hfa Hj Hev Hin.
    unfold System.checkInAttendeeForEvent. rewrite Hfe, Hfa, Hj, Hev, Z.eqb_refl.
    unfold Attendee.checkIn. rewrite Hin, Hev. simpl. f_equal.
    rewrite list_insert_id by done. by destruct s.
Qed.

(** ** Loading a file with a malformed line *)

Lemma getline_id_field line :
  (getline (istream_of line) comma "").2 = id_field line.
Proof.
  unfold getline, id_field. simpl.
  by destruct (read_until comma line) as [w [rest|]].
Qed.

Lemma User_fromString_bad_id line e :
  line <> "" -> stoi (id_field line) = inl e ->
  User.fromString line = ([WarnMalformedUser line], None)
  \/ User.fromString line = ([WarnInvalidUserFormat line], None).
Proof.
  intros Hline Hid. unfold User.fromString.
  destruct (string_empty line || _); [by left|]. right.
  pose proof (getline_id_field line) as Hg.
  destruct (getline (istream_of line) comma "") as [ss segment]. simpl in Hg.
  subst segment. by rewrite Hid.
Qed.

Lemma Attendee_fromString_bad_id line e :
  stoi (id_field line) = inl e ->
  Attendee.fromString line = ([WarnMalformedAttendee line], Attendee.error_record).
Proof.
  intros Hid. unfold Attendee.fromString.
  pose proof (getline_id_field line) as Hg.
  destruct (getline (istream_of line) comma "") as [ss segment]. simpl in Hg.
  subst segment. by rewrite Hid.
Qed.

Lemma InventoryItem_fromString_bad_id line e :
  stoi (id_field line) = inl e ->
  InventoryItem.fromString line
  = ([WarnMalformedInventory line], InventoryItem.error_record).
Proof.
  intros Hid. unfold InventoryItem.fromString.
  pose proof (getline_id_field line) as Hg.
  destruct (getline (istream_of line) comma "") as [ss segment]. simpl in Hg.
  subst segment. by rewrite Hid.
Qed.

(** For an event line the handler itself fails: no record, and the
    exception leaves [fromString]. *)
Lemma Event_fromString_bad_id line e :
  stoi (id_field line) = inl e ->
  Event.fromString line = Raised [WarnMalformedEvent line] logic_error.
Proof.
  intros Hid. unfold Event.fromString.
  pose proof (getline_id_field line) as Hg.
  destruct (getline (istream_of line) comma "") as [ss segment]. simpl in Hg.
  subst segment. by rewrite Hid.
Qed.

Lemma string_empty_false line : line <> "" -> string_empty line = false.
Proof. by destruct line. Qed.

(** C7 as stated fails for the attendee table: the line whose id is not a
    number is reported, and the record made of default values is stored
    next to the well-formed one. *)
Lemma attendee_sentinel_is_stored :
  System.loadAttendees_lines ["1,ann,ann@example.org,1,0"; "x,bob,bob@example.org,1,0"]
                             System.init
  = ([WarnMalformedAttendee "x,bob,bob@example.org,1,0"],
     System.set_nextAttendeeId 2
       (System.set_allAttendees [Attendee.mk 1 "ann" "ann@example.org" 1 false;
                                 Attendee.error_record] System.init))
  /\ ~ one_attendee_loaded ["1,ann,ann@example.org,1,0"; "x,bob,bob@example.org,1,0"].
Proof. split; [vm_compute; reflexivity|]. unfold one_attendee_loaded. vm_compute. lia. Qed.

Example inventory_sentinel_is_stored :
  System.inventory
    (System.loadInventory_lines ["1,Chairs,100,0,Standard"; "x,Stools,20,0,Bar"]
                                System.init).2
  = [InventoryItem.mk 1 "Chairs" 100 0 "Standard"; InventoryItem.error_record].
Proof. vm_compute. reflexivity. Qed.

Example event_load_aborts :
  System.loadEvents_lines ["x,Gala,2025-10-20,09:00,Hall,Dinner,Social,0,,";
                           "2,Ball,2025-10-21,20:00,Hall,Dance,Social,0,,"] System.init
  = Raised [WarnMalformedEvent "x,Gala,2025-10-20,09:00,Hall,Dinner,Social,0,,"] logic_error.
Proof. vm_compute. reflexivity. Qed.

(** C7, as the code has it.  A table file holds a well-formed line and a
    line whose id field [stoi] rejects, in either order.  The malformed
    line is reported by one diagnostic and the other line is loaded all
    the same.  For users the malformed line is skipped: one record is in
    the store.  For attendees and inventory items the malformed line
    yields the record of default values (id 0, name "ERROR"), stored in
    the line's place: two records are in the store. *)
Theorem malformed_line_policy good bad e :
  good <> "" -> bad <> "" -> stoi (id_field bad) = inl e ->
  (forall u, User.fromString good = ([], Some u) ->
     let r := System.loadUsers_lines [good; bad] System.init in
     let r' := System.loadUsers_lines [bad; good] System.init in
     (r.1 = [WarnMalformedUser bad] \/ r.1 = [WarnInvalidUserFormat bad])
     /\ r'.1 = r.1
     /\ System.users r.2 = [(1%nat, u)] /\ System.users r'.2 = [(1%nat, u)])
  /\ (forall a, Attendee.fromString good = ([], a) ->
     let r := System.loadAttendees_lines [good; bad] System.init in
     let r' := System.loadAttendees_lines [bad; good] System.init in
     r.1 = [WarnMalformedAttendee bad] /\ r'.1 = [WarnMalformedAttendee bad]
     /\ System.allAttendees r.2 = [a; Attendee.error_record]
     /\ System.allAttendees r'.2 = [Attendee.error_record; a])
  /\ (forall i, InventoryItem.fromString good = ([], i) ->
     let r := System.loadInventory_lines [good; bad] System.init in
     let r' := System.loadInventory_lines [bad; good] System.init in
     r.1 = [WarnMalformedInventory bad] /\ r'.1 = [WarnMalformedInventory bad]
     /\ System.inventory r.2 = [i; InventoryItem.error_record]
     /\ System.inventory r'.2 = [InventoryItem.error_record; i]).
Proof.
  intros Hgood Hbad Hid. split; [|split].
  - intros u Hu. simpl.
    rewrite (string_empty_false good Hgood), (string_empty_false bad Hbad). simpl.
    rewrite Hu. destruct (User_fromString_bad_id bad e Hbad Hid) as [-> | ->]; simpl; auto.
  - intros a Ha. simpl.
    rewrite (string_empty_false good Hgood), (string_empty_false bad Hbad). simpl.
    rewrite Ha, (Attendee_fromString_bad_id bad e Hid). simpl. auto.
  - intros i Hi. simpl.
    rewrite (string_empty_false good Hgood), (string_empty_false bad Hbad). simpl.
    rewrite Hi, (InventoryItem_fromString_bad_id bad e Hid). simpl. auto.
Qed.

(** ** Decoding what was encoded *)

Lemma read_digits_numeral d acc n :
  read_digits acc n (NilEmpty.string_of_uint d)
  = (uint_value acc d, (n + Decimal.nb_digits d)%nat).
Proof.
  revert acc n. induction d; intros acc n; simpl; rewrite ?IHd;
    repeat match goal with
           | |- context [digit_value ?c] =>
               let v := eval vm_compute in (digit_value c) in
               change (digit_value c) with v
           end;
    f_equal; try lia; f_equal; lia.
Qed.

Lemma uint_value_acc d p : uint_value (Z.pos p) d = Z.pos (Pos.of_uint_acc d p).
Proof.
  revert p. induction d; intros p; simpl; [done|..];
    match goal with |- uint_value ?a _ = _ =>
      lazymatch a with
      | 10 * Z.pos p => replace a with (Z.pos (Pos.mul 10 p)) by lia
      | 10 * Z.pos p + ?k =>
          replace a with (Z.pos (Pos.add (Z.to_pos k) (Pos.mul 10 p))) by lia
      end
    end; by rewrite IHd.
Qed.

Lemma uint_value_of_uint d : uint_value 0 d = Z.of_N (Pos.of_uint d).
Proof.
  induction d; simpl; [done|exact IHd|..]; exact (uint_value_acc d _).
Qed.

Lemma uint_value_to_uint p : uint_value 0 (Pos.to_uint p) = Z.pos p.
Proof. by rewrite uint_value_of_uint, DecimalPos.Unsigned.of_to. Qed.

Lemma nb_digits_to_uint p : Decimal.nb_digits (Pos.to_uint p) <> 0%nat.
Proof.
  pose proof (DecimalPos.Unsigned.to_uint_nonnil p) as Hnil.
  by destruct (Pos.to_uint p).
Qed.

Lemma string_of_uint_nonnil d :
  d <> Decimal.Nil -> NilZero.string_of_uint d = NilEmpty.string_of_uint d.
Proof. by destruct d. Qed.

(** On a string that starts with a digit, [stoi] has no white space to
    skip and no sign to read. *)
Lemma stoi_digit_first c s :
  is_digit c = true ->
  stoi (String c s)
  = match read_digits 0 0 (String c s) with
    | (_, O) => inl invalid_argument
    | (v, _) => if Int.in_range v then inr v else inl out_of_range
    end.
Proof.
  destruct c as [[|] [|] [|] [|] [|] [|] [|] [|]]; try discriminate; intros _; reflexivity.
Qed.

Lemma numeral_digit_first d :
  d <> Decimal.Nil ->
  exists c s, NilEmpty.string_of_uint d = String c s /\ is_digit c = true.
Proof. destruct d; [done|..]; intros _; eexists _, _; split; reflexivity. Qed.

(** [stoi] reads back what [operator<<] printed for an [int]. *)
Lemma stoi_to_string z : Int.in_range z = true -> stoi (Int.to_string z) = inr z.
Proof.
  intros Hrange. unfold Int.to_string. destruct z as [|p|p]; simpl.
  - reflexivity.
  - pose proof (DecimalPos.Unsigned.to_uint_nonnil p) as Hnil.
    pose proof (nb_digits_to_uint p) as Hnb.
    rewrite string_of_uint_nonnil by done.
    pose proof (read_digits_numeral (Pos.to_uint p) 0 0) as Hread.
    destruct (numeral_digit_first _ Hnil) as (c & s & Hs & Hc).
    rewrite Hs in *. rewrite (stoi_digit_first c s Hc), Hread, uint_value_to_uint.
    simpl. destruct (Decimal.nb_digits (Pos.to_uint p)); [done|]. by rewrite Hrange.
  - pose proof (DecimalPos.Unsigned.to_uint_nonnil p) as Hnil.
    pose proof (nb_digits_to_uint p) as Hnb.
    rewrite string_of_uint_nonnil by done.
    unfold stoi. simpl.
    rewrite read_digits_numeral, uint_value_to_uint. simpl.
    destruct (Decimal.nb_digits (Pos.to_uint p)); [done|].
    change (- Z.pos p) with (Z.neg p). by rewrite Hrange.
Qed.

Lemma count_char_app d a b :
  count_char d (a ++ b)%string = (count_char d a + count_char d b)%nat.
Proof. induction a as [|c a IH]; simpl; [done|]. rewrite IH. lia. Qed.

Lemma numeral_free_of_comma d : free_of comma (NilEmpty.string_of_uint d).
Proof. unfold free_of. induction d; simpl; done. Qed.

Lemma to_string_free_of_comma z : free_of comma (Int.to_string z).
Proof.
  unfold Int.to_string. destruct z as [|p|p]; simpl; [done|..];
    pose proof (DecimalPos.Unsigned.to_uint_nonnil p) as Hnil;
    rewrite string_of_uint_nonnil by done.
  - apply numeral_free_of_comma.
  - unfold free_of. simpl. apply numeral_free_of_comma.
Qed.

Lemma to_string_nonempty z : string_empty (Int.to_string z) = false.
Proof.
  unfold Int.to_string. destruct z as [|p|p]; simpl; [done| |done].
  pose proof (DecimalPos.Unsigned.to_uint_nonnil p) as Hnil.
  by destruct (Pos.to_uint p).
Qed.

Lemma read_until_field d w rest :
  free_of d w -> read_until d (w ++ String d rest) = (w, Some rest).
Proof.
  unfold free_of. induction w as [|c w IH]; simpl.
  - by rewrite Ascii.eqb_refl.
  - destruct (Ascii.eqb c d); [done|]. intros Hw. by rewrite IH.
Qed.

Lemma read_until_last d w : free_of d w -> read_until d w = (w, None).
Proof.
  unfold free_of. induction w as [|c w IH]; simpl; [done|].
  destruct (Ascii.eqb c d); [done|]. intros Hw. by rewrite IH.
Qed.

(** Reading one comma-terminated field from a good stream. *)
Lemma getline_field w rest old :
  free_of comma w ->
  getline {| buf := w ++ "," ++ rest; eofbit := false; failbit := false |} comma old
  = ({| buf := rest; eofbit := false; failbit := false |}, w).
Proof.
  intros Hw. unfold getline. simpl.
  change (w ++ "," ++ rest)%string with (w ++ String comma rest)%string.
  by rewrite read_until_field.
Qed.

(** Reading the last field, up to the end of the line. *)
Lemma getline_last d w old :
  free_of d w ->
  (getline {| buf := w; eofbit := false; failbit := false |} d old).2 = w.
Proof. intros Hw. unfold getline. simpl. by rewrite read_until_last. Qed.

(** An attendee whose [int] fields are [int]s and whose strings hold no
    comma is decoded from its line. *)
Lemma Attendee_roundtrip a :
  Int.in_range (Attendee.attendeeId a) = true ->
  Int.in_range (Attendee.eventIdRegisteredFor a) = true ->
  free_of comma (Attendee.name a) -> free_of comma (Attendee.contactInfo a) ->
  Attendee.fromString (Attendee.toString a) = ([], a).
Proof.
  destruct a as [id name contact ev checked]. simpl. intros Hid Hev Hname Hcontact.
  unfold Attendee.fromString, Attendee.toString, istream_of. simpl.
  rewrite getline_field by apply to_string_free_of_comma.
  rewrite (stoi_to_string id Hid).
  rewrite getline_field by done. rewrite getline_field by done.
  rewrite getline_field by apply to_string_free_of_comma.
  rewrite (stoi_to_string ev Hev).
  by destruct checked.
Qed.

(** The same for an inventory item; its description, read to the end of
    the line, may hold commas but no line feed. *)
Lemma InventoryItem_roundtrip i :
  Int.in_range (InventoryItem.itemId i) = true ->
  Int.in_range (InventoryItem.totalQuantity i) = true ->
  Int.in_range (InventoryItem.allocatedQuantity i) = true ->
  free_of comma (InventoryItem.name i) -> free_of newline (InventoryItem.description i) ->
  InventoryItem.fromString (InventoryItem.toString i) = ([], i).
Proof.
  destruct i as [id name total alloc desc]. simpl. intros Hid Htotal Halloc Hname Hdesc.
  unfold InventoryItem.fromString, InventoryItem.toString, istream_of. simpl.
  rewrite getline_field by apply to_string_free_of_comma.
  rewrite (stoi_to_string id Hid).
  rewrite getline_field by done.
  rewrite getline_field by apply to_string_free_of_comma.
  rewrite (stoi_to_string total Htotal).
  rewrite getline_field by apply to_string_free_of_comma.
  rewrite (stoi_to_string alloc Halloc).
  pose proof (getline_last newline desc "" Hdesc) as Hlast.
  destruct (getline _ newline "") as [ss desc']. simpl in Hlast. by subst desc'.
Qed.

(** The same for a user, who is an [Admin] or a [RegularUser]. *)
Lemma User_roundtrip u :
  Int.in_range (User.userId u) = true ->
  User.role u = Role.ADMIN \/ User.role u = Role.REGULAR_USER ->
  free_of comma (User.username u) -> free_of comma (User.password u) ->
  User.fromString (User.toString u) = ([], Some u).
Proof.
  destruct u as [id uname pwd role]. simpl. intros Hid Hrole Huname Hpwd.
  unfold User.fromString, User.toString, istream_of.
  cbn [User.userId User.username User.password User.role].
  assert (string_empty (Int.to_string id ++ "," ++ uname ++ "," ++ pwd ++ ","
                          ++ Int.to_string role) = false) as ->.
  { pose proof (to_string_nonempty id). by destruct (Int.to_string id). }
  assert (count_char comma (Int.to_string id ++ "," ++ uname ++ "," ++ pwd ++ ","
                              ++ Int.to_string role) = 3%nat) as ->.
  { rewrite !count_char_app. simpl.
    rewrite (to_string_free_of_comma id), (to_string_free_of_comma role), Huname, Hpwd.
    done. }
  simpl.
  rewrite getline_field by apply to_string_free_of_comma.
  rewrite (stoi_to_string id Hid).
  rewrite getline_field by done. rewrite getline_field by done.
  pose proof (getline_last comma (Int.to_string role) (Int.to_string id)
                (to_string_free_of_comma role)) as Hlast.
  destruct (getline _ comma (Int.to_string id)) as [ss segment]. simpl in Hlast.
  subst segment. by destruct Hrole as [-> | ->].
Qed.

Lemma items_empty : items ∅ = [].
Proof. reflexivity. Qed.

(** The same for an event without attendees and without allocations. *)
Lemma Event_roundtrip_plain e :
  Int.in_range (Event.eventId e) = true -> Int.in_range (Event.status e) = true ->
  free_of comma (Event.name e) -> free_of comma (Event.date e) ->
  free_of comma (Event.time e) -> free_of comma (Event.location e) ->
  free_of comma (Event.description e) -> free_of comma (Event.category e) ->
  Event.attendeeIds e = [] -> Event.allocatedInventory e = ∅ ->
  Event.fromString (Event.toString e) = Done [] e.
Proof.
  destruct e as [id name date time loc desc cat status ids inv]. simpl.
  intros Hid Hstatus Hname Hdate Htime Hloc Hdesc Hcat -> ->.
  unfold Event.fromString, Event.toString, Event.attendeesToString,
    Event.inventoryToString, istream_of.
  cbn [Event.eventId Event.name Event.date Event.time Event.location Event.description
       Event.category Event.status Event.attendeeIds Event.allocatedInventory].
  rewrite items_empty. simpl.
  rewrite getline_field by apply to_string_free_of_comma.
  rewrite (stoi_to_string id Hid).
  do 6 (rewrite getline_field by done).
  rewrite getline_field by apply to_string_free_of_comma.
  rewrite (stoi_to_string status Hstatus).
  reflexivity.
Qed.

Lemma string_app_assoc (a b c : string) : ((a ++ b) ++ c = a ++ (b ++ c))%string.
Proof.
  induction a as [|x a IH]; [done|].
  change (String x ((a ++ b) ++ c) = String x (a ++ (b ++ c)))%string. by rewrite IH.
Qed.

Lemma join_ids_first (id : Z) (ids : list Z) (tail : string) :
  exists c s,
    (join ";" (map Int.to_string (id :: ids)) ++ tail)%string = String c s
    /\ Ascii.eqb c comma = false.
Proof.
  pose proof (to_string_nonempty id) as Hne.
  pose proof (to_string_free_of_comma id) as Hfree.
  assert (exists more, (join ";" (map Int.to_string (id :: ids)) ++ tail)%string
                       = (Int.to_string id ++ more)%string) as [more ->].
  { simpl. destruct (map Int.to_string ids); [by eexists|].
    eexists. by rewrite !string_app_assoc. }
  destruct (Int.to_string id) as [|c s]; [done|].
  exists c, (s ++ more)%string. split; [done|].
  unfold free_of in Hfree. simpl in Hfree. by destruct (Ascii.eqb c comma).
Qed.

(** Every event that has attendees loses them through its own line: the
    comma that [fromString] looks for after the status has already been
    consumed, so the attendee field is never read as such. *)
Lemma Event_attendees_dropped e :
  Int.in_range (Event.eventId e) = true -> Int.in_range (Event.status e) = true ->
  free_of comma (Event.name e) -> free_of comma (Event.date e) ->
  free_of comma (Event.time e) -> free_of comma (Event.location e) ->
  free_of comma (Event.description e) -> free_of comma (Event.category e) ->
  Event.attendeeIds e <> [] ->
  exists log inv,
    Event.fromString (Event.toString e)
    = Done log (Event.set_attendeeIds [] (Event.set_allocatedInventory inv e)).
Proof.
  destruct e as [id name date time loc desc cat status ids inv]. simpl.
  intros Hid Hstatus Hname Hdate Htime Hloc Hdesc Hcat Hids.
  destruct ids as [|first ids]; [done|].
  unfold Event.fromString, Event.toString, Event.attendeesToString,
    Event.inventoryToString, istream_of.
  cbn [Event.eventId Event.name Event.date Event.time Event.location Event.description
       Event.category Event.status Event.attendeeIds Event.allocatedInventory].
  rewrite getline_field by apply to_string_free_of_comma.
  rewrite (stoi_to_string id Hid).
  do 6 (rewrite getline_field by done).
  rewrite getline_field by apply to_string_free_of_comma.
  rewrite (stoi_to_string status Hstatus).
  destruct (join_ids_first first ids
              ("," ++ join ";" (map (fun p : Z * Z => Int.to_string p.1 ++ ":"
                                                       ++ Int.to_string p.2)
                                    (items inv)))%string)
    as (c & s & -> & Hc).
  unfold peek at 1. simpl. unfold Event.is_comma at 1. rewrite Hc.
  unfold good at 1. simpl. unfold peek. simpl.
  destruct (getline _ newline "") as [ss inventoryStr].
  destruct (Event.parse_inventory _ ∅) as [log inv']. by exists log, inv'.
Qed.

(** ** The line of an event does not decode to the event *)

(** C1 at three events.  The field of attendee ids and the field of
    allocations are both misread as soon as one of them is not empty:
    with both present the ids are dropped and the allocation is filed
    under the last attendee id; with only the allocations present, the
    first item id is taken for an attendee id and the map is empty; with
    only the ids present, they are dropped. *)
Theorem event_line_misread :
  Event.fromString (Event.toString (sample_event [1; 2] {[3 := 4]}))
  = Done [] (sample_event [] {[2 := 4]})
  /\ Event.fromString (Event.toString (sample_event [] {[3 := 4]}))
     = Done [] (sample_event [3] ∅)
  /\ Event.fromString (Event.toString (sample_event [1; 2] ∅))
     = Done [] (sample_event [] ∅)
  /\ Event.fromString (Event.toString (sample_event [1; 2] {[3 := 4]}))
     <> Done [] (sample_event [1; 2] {[3 := 4]}).
Proof.
  assert (Event.fromString (Event.toString (sample_event [1; 2] {[3 := 4]}))
          = Done [] (sample_event [] {[2 := 4]})) as Hboth
    by (vm_compute; reflexivity).
  split; [exact Hboth|]. split; [vm_compute; reflexivity|].
  split; [vm_compute; reflexivity|].
  rewrite Hboth. intros Heq. injection Heq as Hids _. discriminate Hids.
Qed.

(** ** The scenario of the specification *)

Example Scenario_third_allocation_rejected :
  let s := System.run (firstn 2 Scenario.ops) Scenario.start in
  System.trackInventoryAllocationToEvent 3 1 1 30 s
  = ([AvailableQuantity "Chairs" 20; ErrNotEnough "Chairs" 20], s).
Proof. vm_compute. reflexivity. Qed.

Example Scenario_after_deallocation :
  let s := System.run (firstn 4 Scenario.ops) Scenario.start in
  System.inventory s = [InventoryItem.mk 1 "Chairs" 100 70 "Standard chairs"]
  /\ Scenario.allocations s = [[(1, 20)]; [(1, 50)]; []].
Proof. vm_compute. split; reflexivity. Qed.

(** Three allocated, ten requested: three removed, the entry erased. *)
Example Scenario_three_of_ten :
  System.run [System.TrackInventoryAllocationToEvent 1 1 1 3] Scenario.start
  = Scenario.three_allocated
  /\ System.trackInventoryAllocationToEvent 1 2 1 10 Scenario.three_allocated
     = ([CurrentlyAllocated 3 "Chairs"; Deallocated 3 "Chairs" "E1"], Scenario.start).
Proof. vm_compute. split; reflexivity. Qed.

Example Scenario_at_the_end :
  let s := System.run Scenario.ops Scenario.start in
  System.inventory s = [InventoryItem.mk 1 "Chairs" 100 100 "Standard chairs"]
  /\ Scenario.allocations s = [[(1, 20)]; [(1, 50)]; [(1, 30)]].
Proof. vm_compute. split; reflexivity. Qed.

(** ** The statements at the scenario *)

Lemma quantity_invariant_witness :
  consistent Scenario.start
  /\ forall item, In item (System.inventory (System.run Scenario.ops Scenario.start)) ->
       0 <= InventoryItem.allocatedQuantity item <= InventoryItem.totalQuantity item.
Proof.
  assert (consistent Scenario.start) as Hstart.
  { constructor; [|constructor]. unfold item_ok. simpl. lia. }
  split; [exact Hstart|]. exact (quantity_invariant Scenario.ops Scenario.start Hstart).
Defined.


Lemma deallocation_clamps_witness :
  Event.allocatedInventory Scenario.three_chairs !! 1 = Some 3
  /\ exists item' event',
       System.inventory
         (System.trackInventoryAllocationToEvent 1 2 1 10 Scenario.three_allocated).2
       = <[0%nat := item']> (System.inventory Scenario.three_allocated)
       /\ Event.allocatedInventory event' !! 1 = None
       /\ InventoryItem.allocatedQuantity item' = 0.
Proof.
  split; [reflexivity|].
  destruct (deallocation_clamps Scenario.three_allocated 1 1 10 0%nat 0%nat
              Scenario.three_chairs (InventoryItem.set_allocatedQuantity 3 Scenario.chairs) 3
              eq_refl eq_refl eq_refl eq_refl eq_refl eq_refl eq_refl)
    as (item' & event' & Hinv & _ & Hentry & _ & _ & Hqty & _).
  exists item', event'. split; [exact Hinv|]. split; [exact Hentry|exact Hqty].
Defined.


Lemma registration_rejected_witness :
  System.findEventById 1 Scenario.canceled = Some 0%nat
  /\ (System.registerAttendeeForEvent 1 "user1@example.org" Scenario.canceled).2
     = Scenario.canceled.
Proof.
  split; [reflexivity|].
  exact (proj1 (registration_rejected Scenario.canceled 1 "user1@example.org" 0%nat
                  (Event.set_status EventStatus.CANCELED (Scenario.event 1 "E1"))
                  eq_refl eq_refl (or_introl eq_refl))).
Defined.

Lemma malformed_line_policy_witness :
  stoi (id_field "x,bob,bob@example.org,1,0") = inl invalid_argument
  /\ System.allAttendees
       (System.loadAttendees_lines ["1,ann,ann@example.org,1,0"; "x,bob,bob@example.org,1,0"]
                                   System.init).2
     = [Attendee.mk 1 "ann" "ann@example.org" 1 false; Attendee.error_record].
Proof.
  split; [reflexivity|].
  assert ("1,ann,ann@example.org,1,0" <> "") as Hgood by discriminate.
  assert ("x,bob,bob@example.org,1,0" <> "") as Hbad by discriminate.
  destruct (malformed_line_policy "1,ann,ann@example.org,1,0" "x,bob,bob@example.org,1,0"
              invalid_argument Hgood Hbad eq_refl) as (_ & Hatt & _).
  exact (proj1 (proj2 (proj2 (Hatt (Attendee.mk 1 "ann" "ann@example.org" 1 false) eq_refl)))).
Defined.

Lemma deleteUserAccount_guard_witness :
  System.current Scenario.start = Some Scenario.user1
  /\ System.deleteUserAccount "user1" Scenario.start
     = ([ErrCannotDeleteLoggedIn], Scenario.start).
Proof.
  split; [reflexivity|].
  exact (proj1 (deleteUserAccount_guard Scenario.start "user1")
               Scenario.user1 eq_refl eq_refl).
Defined.

(** * Further properties of the code *)

(** ** Saving and loading *)

Lemma split_on_line d line rest :
  free_of d line -> split_on d (line ++ String d rest) = line :: split_on d rest.
Proof.
  unfold free_of. induction line as [|c w IH]; simpl.
  - by rewrite Ascii.eqb_refl.
  - destruct (Ascii.eqb c d); [done|]. intros Hw. by rewrite IH.
Qed.

Lemma read_lines_write_lines lines :
  Forall (free_of newline) lines -> read_lines (write_lines lines) = lines.
Proof.
  unfold read_lines. induction 1 as [|line lines Hline _ IH]; simpl; [done|].
  by rewrite split_on_line, IH.
Qed.

Lemma free_of_app d a b : free_of d a -> free_of d b -> free_of d (a ++ b)%string.
Proof. unfold free_of. intros Ha Hb. by rewrite count_char_app, Ha, Hb. Qed.

Lemma free_of_cons d c s : Ascii.eqb c d = false -> free_of d s -> free_of d (String c s).
Proof. unfold free_of. simpl. by intros -> ->. Qed.

Lemma numeral_free_of_newline d : free_of newline (NilEmpty.string_of_uint d).
Proof. unfold free_of. induction d; simpl; done. Qed.

Lemma to_string_free_of_newline z : free_of newline (Int.to_string z).
Proof.
  unfold Int.to_string. destruct z as [|p|p]; simpl; [done|..];
    pose proof (DecimalPos.Unsigned.to_uint_nonnil p) as Hnil;
    rewrite string_of_uint_nonnil by done.
  - apply numeral_free_of_newline.
  - unfold free_of. simpl. apply numeral_free_of_newline.
Qed.

Lemma string_empty_to_string_app z s : string_empty (Int.to_string z ++ s) = false.
Proof. pose proof (to_string_nonempty z). by destruct (Int.to_string z). Qed.

Ltac line_break_free :=
  repeat first
    [ apply to_string_free_of_newline
    | assumption
    | apply free_of_app
    | reflexivity ].

Lemma Attendee_line_ok a :
  storable_attendee a ->
  free_of newline (Attendee.toString a) /\ string_empty (Attendee.toString a) = false.
Proof.
  intros (_ & _ & [_ Hname] & [_ Hcontact]). split.
  - unfold Attendee.toString. line_break_free. by destruct (Attendee.isCheckedIn a).
  - apply string_empty_to_string_app.
Qed.

Lemma InventoryItem_line_ok i :
  storable_item i ->
  free_of newline (InventoryItem.toString i)
  /\ string_empty (InventoryItem.toString i) = false.
Proof.
  intros (_ & _ & _ & [_ Hname] & Hdesc). split.
  - unfold InventoryItem.toString. line_break_free.
  - apply string_empty_to_string_app.
Qed.

Lemma User_line_ok u :
  storable_user u ->
  free_of newline (User.toString u) /\ string_empty (User.toString u) = false.
Proof.
  intros (_ & _ & [_ Hname] & [_ Hpwd]). split.
  - unfold User.toString. line_break_free.
  - apply string_empty_to_string_app.
Qed.

Lemma Event_line_ok e :
  storable_plain_event e ->
  free_of newline (Event.toString e) /\ string_empty (Event.toString e) = false.
Proof.
  intros (_ & _ & [_ ?] & [_ ?] & [_ ?] & [_ ?] & [_ ?] & [_ ?] & Hids & Hinv). split.
  - unfold Event.toString, Event.attendeesToString, Event.inventoryToString.
    rewrite Hids, Hinv, items_empty. simpl. line_break_free.
  - apply string_empty_to_string_app.
Qed.

(** Loading the lines of encoded records. *)
Lemma loadAttendees_lines_encoded atts s :
  Forall storable_attendee atts ->
  exists s',
    System.loadAttendees_lines (map Attendee.toString atts) s = ([], s')
    /\ System.allAttendees s' = System.allAttendees s ++ atts
    /\ System.users s' = System.users s /\ System.events s' = System.events s
    /\ System.inventory s' = System.inventory s
    /\ System.currentUser s' = System.currentUser s.
Proof.
  intros Hatts. revert s. induction Hatts as [|a atts Ha _ IH]; intros s; simpl.
  - exists s. by rewrite app_nil_r.
  - destruct (Attendee_line_ok a Ha) as [_ ->]. simpl.
    destruct Ha as (Hid & Hev & [Hname _] & [Hcontact _]).
    rewrite (Attendee_roundtrip a Hid Hev Hname Hcontact).
    match goal with |- context [System.loadAttendees_lines _ ?s1] =>
      destruct (IH s1) as (s' & -> & Hatt & Hu & He & Hi & Hc) end.
    exists s'. simpl in *. rewrite Hatt, Hu, He, Hi, Hc, <- app_assoc. done.
Qed.

Lemma loadInventory_lines_encoded inv s :
  Forall storable_item inv ->
  exists s',
    System.loadInventory_lines (map InventoryItem.toString inv) s = ([], s')
    /\ System.inventory s' = System.inventory s ++ inv
    /\ System.users s' = System.users s /\ System.events s' = System.events s
    /\ System.allAttendees s' = System.allAttendees s
    /\ System.currentUser s' = System.currentUser s.
Proof.
  intros Hinv. revert s. induction Hinv as [|i inv Hi _ IH]; intros s; simpl.
  - exists s. by rewrite app_nil_r.
  - destruct (InventoryItem_line_ok i Hi) as [_ ->]. simpl.
    destruct Hi as (Hid & Htotal & Halloc & [Hname _] & Hdesc).
    rewrite (InventoryItem_roundtrip i Hid Htotal Halloc Hname Hdesc).
    match goal with |- context [System.loadInventory_lines _ ?s1] =>
      destruct (IH s1) as (s' & -> & Hinv' & Hu & He & Ha & Hc) end.
    exists s'. simpl in *. rewrite Hinv', Hu, He, Ha, Hc, <- app_assoc. done.
Qed.

Lemma loadUsers_lines_encoded us s :
  Forall storable_user us ->
  exists s',
    System.loadUsers_lines (map User.toString us) s = ([], s')
    /\ map snd (System.users s') = map snd (System.users s) ++ us
    /\ System.events s' = System.events s /\ System.inventory s' = System.inventory s
    /\ System.allAttendees s' = System.allAttendees s
    /\ System.currentUser s' = System.currentUser s.
Proof.
  intros Hus. revert s. induction Hus as [|u us Hu _ IH]; intros s; simpl.
  - exists s. by rewrite app_nil_r.
  - destruct (User_line_ok u Hu) as [_ ->]. simpl.
    destruct Hu as (Hid & Hrole & [Hname _] & [Hpwd _]).
    rewrite (User_roundtrip u Hid Hrole Hname Hpwd).
    match goal with |- context [System.loadUsers_lines _ ?s1] =>
      destruct (IH s1) as (s' & -> & Hus' & He & Hi & Ha & Hc) end.
    exists s'. simpl in *. rewrite Hus', He, Hi, Ha, Hc, map_app, <- app_assoc. done.
Qed.

Lemma loadEvents_lines_encoded evs s :
  Forall storable_plain_event evs ->
  exists s',
    System.loadEvents_lines (map Event.toString evs) s = Done [] s'
    /\ System.events s' = System.events s ++ evs
    /\ System.users s' = System.users s /\ System.inventory s' = System.inventory s
    /\ System.allAttendees s' = System.allAttendees s
    /\ System.currentUser s' = System.currentUser s.
Proof.
  intros Hevs. revert s. induction Hevs as [|e evs He _ IH]; intros s; simpl.
  - exists s. by rewrite app_nil_r.
  - destruct (Event_line_ok e He) as [_ ->]. simpl.
    destruct He as (Hid & Hst & [? _] & [? _] & [? _] & [? _] & [? _] & [? _] & Hids & Hinv).
    rewrite (Event_roundtrip_plain e) by done.
    match goal with |- context [System.loadEvents_lines _ ?s1] =>
      destruct (IH s1) as (s' & -> & Hevs' & Hu & Hi & Ha & Hc) end.
    exists s'. simpl in *. rewrite Hevs', Hu, Hi, Ha, Hc, <- app_assoc. done.
Qed.

Lemma exported_lines {A} (toString : A -> string) (l : list A) :
  Forall (fun x => free_of newline (toString x)) l ->
  read_lines (write_lines (map toString l)) = map toString l.
Proof. intros Hl. apply read_lines_write_lines. by apply Forall_map. Qed.

(** X1.  The attendee table written by [exportAttendees] and read by
    [loadAttendees] comes back as it was, behind what the store already
    holds and without a diagnostic, when the numbers of its records are
    [int]s and their strings hold no comma and no line break. *)
Theorem attendees_export_import f atts s :
  Forall storable_attendee atts ->
  System.ATTENDEES_FILE f = Some (read_lines (System.exportAttendees atts)) ->
  (System.loadAttendees f s).1 = []
  /\ System.allAttendees (System.loadAttendees f s).2 = System.allAttendees s ++ atts.
Proof.
  intros Hatts Hf. unfold System.loadAttendees. rewrite Hf. unfold System.exportAttendees.
  rewrite exported_lines
    by (eapply Forall_impl; [exact Hatts|]; intros a Ha; by apply Attendee_line_ok).
  destruct (loadAttendees_lines_encoded atts s Hatts) as (s' & -> & Hs' & _). by simpl.
Qed.

(** X2.  The inventory written by [exportInventory] and read by
    [loadInventory] comes back as it was, behind what the store already
    holds and without a diagnostic, when the numbers of its items are
    [int]s, their names hold no comma and no string of theirs holds a line
    break. *)
Theorem inventory_export_import f inv s :
  Forall storable_item inv ->
  System.INVENTORY_FILE f = Some (read_lines (System.exportInventory inv)) ->
  (System.loadInventory f s).1 = []
  /\ System.inventory (System.loadInventory f s).2 = System.inventory s ++ inv.
Proof.
  intros Hinv Hf. unfold System.loadInventory. rewrite Hf. unfold System.exportInventory.
  rewrite exported_lines
    by (eapply Forall_impl; [exact Hinv|]; intros a Ha; by apply InventoryItem_line_ok).
  destruct (loadInventory_lines_encoded inv s Hinv) as (s' & -> & Hs' & _). by simpl.
Qed.

(** X3.  The users written by [exportUsers] and read by [loadUsers] come
    back as they were (as new objects), behind the users already there and
    without a diagnostic, when their ids are [int]s, their roles are ADMIN
    or REGULAR_USER and their names and passwords hold no comma and no line
    break. *)
Theorem users_export_import f us s :
  Forall storable_user (map snd us) ->
  System.USERS_FILE f = Some (read_lines (System.exportUsers us)) ->
  (System.loadUsers f s).1 = []
  /\ map snd (System.users (System.loadUsers f s).2) = map snd (System.users s) ++ map snd us.
Proof.
  intros Hus Hf. unfold System.loadUsers. rewrite Hf. unfold System.exportUsers.
  rewrite <- (map_map snd User.toString).
  rewrite exported_lines
    by (eapply Forall_impl; [exact Hus|]; intros a Ha; by apply User_line_ok).
  destruct (loadUsers_lines_encoded (map snd us) s Hus) as (s' & -> & Hs' & _). by simpl.
Qed.

(** X4.  Events without attendees and without allocations that
    [exportEvents] wrote are read back by [loadEvents] as they were, with no
    exception and no diagnostic, when their strings hold no comma and no
    line break. *)
Theorem plain_events_export_import f evs s :
  Forall storable_plain_event evs ->
  System.EVENTS_FILE f = Some (read_lines (System.exportEvents evs)) ->
  exists s', System.loadEvents f s = Done [] s'
             /\ System.events s' = System.events s ++ evs.
Proof.
  intros Hevs Hf. unfold System.loadEvents. rewrite Hf. unfold System.exportEvents.
  rewrite exported_lines
    by (eapply Forall_impl; [exact Hevs|]; intros a Ha; by apply Event_line_ok).
  destruct (loadEvents_lines_encoded evs s Hevs) as (s' & -> & Hs' & _). by exists s'.
Qed.

Lemma reconcile_no_allocations inv evs :
  Forall (fun e => Event.allocatedInventory e = ∅) evs ->
  System.reconcile inv evs = map (InventoryItem.set_allocatedQuantity 0) inv.
Proof.
  unfold System.reconcile. generalize (map (InventoryItem.set_allocatedQuantity 0) inv).
  intros l Hevs. revert l. induction Hevs as [|e evs He _ IH]; intros l; simpl; [done|].
  by rewrite He, items_empty, IH.
Qed.

(** X5.  Leaving and starting again: [loadData] on the four files [saveData]
    wrote, from the fresh system, ends without a diagnostic with the same
    users, events and attendees, nobody logged in, and the same items with
    [allocatedQuantity] 0 (the events are without attendees and
    allocations). *)
Theorem restart_after_save s :
  Forall storable_user (map snd (System.users s)) ->
  Forall storable_plain_event (System.events s) ->
  Forall storable_item (System.inventory s) ->
  Forall storable_attendee (System.allAttendees s) ->
  exists s',
    System.loadData (System.saveData s) System.init = Done [] s'
    /\ map snd (System.users s') = map snd (System.users s)
    /\ System.events s' = System.events s
    /\ System.inventory s'
       = map (InventoryItem.set_allocatedQuantity 0) (System.inventory s)
    /\ System.allAttendees s' = System.allAttendees s
    /\ System.currentUser s' = None.
Proof.
  intros Hus Hevs Hinv Hatts.
  unfold System.loadData, System.loadUsers, System.loadEvents, System.loadInventory,
    System.loadAttendees, System.saveData, System.exportUsers, System.exportEvents,
    System.exportInventory, System.exportAttendees.
  cbn [System.USERS_FILE System.EVENTS_FILE System.INVENTORY_FILE System.ATTENDEES_FILE].
  rewrite <- (map_map snd User.toString).
  rewrite !exported_lines;
    try (eapply Forall_impl; [eassumption|]; intros a Ha;
         first [by apply User_line_ok | by apply Event_line_ok
               | by apply InventoryItem_line_ok | by apply Attendee_line_ok]).
  destruct (loadUsers_lines_encoded _ System.init Hus) as (s1 & -> & Hu1 & He1 & Hi1 & Ha1 & Hc1).
  destruct (loadEvents_lines_encoded _ s1 Hevs) as (s2 & -> & He2 & Hu2 & Hi2 & Ha2 & Hc2).
  destruct (loadInventory_lines_encoded _ s2 Hinv) as (s3 & -> & Hi3 & Hu3 & He3 & Ha3 & Hc3).
  destruct (loadAttendees_lines_encoded _ s3 Hatts) as (s4 & -> & Ha4 & Hu4 & He4 & Hi4 & Hc4).
  eexists. split; [reflexivity|]. simpl.
  rewrite Hu4, Hu3, Hu2, Hu1, He4, He3, He2, He1, Hi4, Hi3, Hi2, Hi1, Ha4, Ha3, Ha2, Ha1,
    Hc4, Hc3, Hc2, Hc1.
  simpl. repeat split; try done.
  apply reconcile_no_allocations.
  eapply Forall_impl; [exact Hevs|]. intros e He. apply He.
Qed.

(** ** Prompts *)

Lemma drop_trailing_space_idem s :
  drop_trailing_space (drop_trailing_space s) = drop_trailing_space s.
Proof.
  induction s as [|c s IH]; simpl; [done|].
  destruct (drop_trailing_space s) as [|d r] eqn:Hs.
  - destruct (is_space c) eqn:Hc; simpl; [done|]. by rewrite Hc.
  - simpl in *. by rewrite IH.
Qed.

Lemma skip_space_drop_trailing_space s :
  skip_space (drop_trailing_space (skip_space s)) = drop_trailing_space (skip_space s).
Proof.
  assert (forall t, skip_space t = t ->
                    skip_space (drop_trailing_space t) = drop_trailing_space t) as Hfix.
  { intros [|c t]; simpl; [done|].
    destruct (is_space c) eqn:Hc.
    - intros Heq. exfalso.
      assert (forall u, String.length (skip_space u) <= String.length u)%nat as Hlen.
      { induction u as [|x u IHu]; simpl; [lia|]. destruct (is_space x); simpl; lia. }
      specialize (Hlen t). rewrite Heq in Hlen. simpl in Hlen. lia.
    - intros _. destruct (drop_trailing_space t); simpl; by rewrite Hc. }
  apply Hfix. induction s as [|c s IH]; simpl; [done|].
  destruct (is_space c) eqn:Hc; [done|]. simpl. by rewrite Hc.
Qed.

(** X6.  What the two [erase] calls of [getStringInput] leave has no white
    space at either end: trimming it again, at the front, at the back or
    both, changes nothing. *)
Theorem trim_trimmed s :
  skip_space (trim s) = trim s /\ drop_trailing_space (trim s) = trim s
  /\ trim (trim s) = trim s.
Proof.
  unfold trim. rewrite !skip_space_drop_trailing_space, !drop_trailing_space_idem. done.
Qed.

(** X7.  A prompt loop takes the first line that is not empty once trimmed
    and that the validator accepts, returns it trimmed, leaves the lines
    after it on the input and complains once for every line before it; when
    no line will do it consumes them all and never returns. *)
Theorem read_valid_takes_first_acceptable valid cin :
  match read_valid valid cin with
  | (log, Some (x, rest)) =>
      exists skipped line,
        cin = skipped ++ line :: rest /\ x = trim line /\ acceptable valid line
        /\ Forall (fun l => ~ acceptable valid l) skipped
        /\ length log = length skipped
  | (log, None) =>
      Forall (fun l => ~ acceptable valid l) cin /\ length log = length cin
  end.
Proof.
  induction cin as [|line cin IH]; simpl; [done|].
  destruct (read_valid valid cin) as [log [[x rest]|]].
  - destruct IH as (skipped & line' & -> & -> & Hacc & Hskipped & Hlen).
    destruct (string_empty (trim line)) eqn:He; [|destruct (valid (trim line)) eqn:Hv].
    + exists (line :: skipped), line'. repeat split; try apply Hacc; simpl; [|lia].
      constructor; [|done]. intros [Hne _]. congruence.
    + exists [], line. repeat split; try done.
    + exists (line :: skipped), line'. repeat split; try apply Hacc; simpl; [|lia].
      constructor; [|done]. intros [_ Hval]. congruence.
  - destruct IH as [Hall Hlen].
    destruct (string_empty (trim line)) eqn:He; [|destruct (valid (trim line)) eqn:Hv].
    + split; [|simpl; lia]. constructor; [|done]. intros [Hne _]. congruence.
    + exists [], line. repeat split; try done.
    + split; [|simpl; lia]. constructor; [|done]. intros [_ Hval]. congruence.
Qed.

Lemma read_valid_Some valid cin log x rest :
  read_valid valid cin = (log, Some (x, rest)) -> string_empty x = false /\ valid x = true.
Proof.
  revert log. induction cin as [|line cin IH]; intros log; simpl; [done|].
  destruct (read_valid valid cin) as [log0 r].
  destruct (string_empty (trim line)) eqn:He; [|destruct (valid (trim line)) eqn:Hv].
  - intros [= _ ->]. by eapply IH.
  - by intros [= _ <- _].
  - intros [= _ ->]. by eapply IH.
Qed.

Lemma ask_Some valid cin log x cin' :
  ask valid cin = (log, Some (x, cin')) -> string_empty x = false /\ valid x = true.
Proof.
  unfold ask. destruct (read_valid valid cin) as [log0 r] eqn:Hr.
  intros [= _ ->]. by eapply read_valid_Some.
Qed.

Lemma bind_Some {A B} (m : Prompt A) (k : A -> Prompt B) cin log b cin' :
  bind m k cin = (log, Some (b, cin')) ->
  exists a cin1 log1 log2,
    m cin = (log1, Some (a, cin1)) /\ k a cin1 = (log2, Some (b, cin')) /\ log = log1 ++ log2.
Proof.
  unfold bind. destruct (m cin) as [log1 [[a cin1]|]]; [|done].
  destruct (k a cin1) as [log2 r] eqn:Hk. intros [= <- ->].
  by exists a, cin1, log1, log2.
Qed.

Lemma say_Some {A} (r : list Notice * A) cin log a cin' :
  say r cin = (log, Some (a, cin')) -> a = r.2.
Proof. by intros [= _ <- _]. Qed.

Lemma said_Some {A} (r : list Msg * A) cin log a cin' :
  said r cin = (log, Some (a, cin')) -> a = r.2.
Proof. by intros [= _ <- _]. Qed.

Lemma ret_Some {A} (x : A) cin log a cin' :
  ret x cin = (log, Some (a, cin')) -> a = x.
Proof. by intros [= _ <- _]. Qed.

Lemma session_invariant (P : System.t -> Prop) :
  (forall c s cin log s' cin',
     System.exec c s cin = (log, Some (s', cin')) -> P s -> P s') ->
  forall cs s cin log s' cin',
    System.session cs s cin = (log, Some (s', cin')) -> P s -> P s'.
Proof.
  intros Hexec cs. induction cs as [|c cs IH]; intros s cin log s' cin'; simpl.
  - by intros ->%ret_Some.
  - intros (s1 & cin1 & log1 & log2 & H1 & H2 & _)%bind_Some Hs.
    eapply IH; [exact H2|]. eapply Hexec; [exact H1|exact Hs].
Qed.

(** ** Sessions: the tables and their ids *)

Lemma id_step_refl ids next : id_step ids next ids next.
Proof. by left. Qed.

Lemma Forall_sublist_of {A} (P : A -> Prop) (l1 l2 : list A) :
  sublist l1 l2 -> Forall P l2 -> Forall P l1.
Proof.
  induction 1 as [|x l1 l2 _ IH|x l1 l2 _ IH]; [done|..]; intros Hl; inversion Hl; subst.
  - constructor; [done|by apply IH].
  - by apply IH.
Qed.


Lemma filter_sublist {A} (f : A -> bool) (l : list A) : sublist (List.filter f l) l.
Proof.
  induction l as [|x l IH]; simpl; [done|].
  destruct (f x); [by apply sublist_skip|by apply sublist_cons].
Qed.

Lemma fmap_insert_same {A B} (f : A -> B) (l : list A) k x x' :
  l !! k = Some x -> f x' = f x -> f <$> <[k := x']> l = f <$> l.
Proof.
  intros Hk Hf. rewrite list_fmap_insert, Hf. apply list_insert_id.
  by rewrite list_lookup_fmap, Hk.
Qed.

(** *** What an operation does to the ids *)

Lemma step_counters op s :
  System.nextUserId (System.step op s).2 = System.nextUserId s
  /\ System.nextEventId (System.step op s).2 = System.nextEventId s
  /\ System.nextItemId (System.step op s).2 = System.nextItemId s.
Proof.
  destruct op; simpl.
  - unfold System.deleteUserAccount. repeat case_match; done.
  - unfold System.deleteEvent. repeat case_match; done.
  - unfold System.updateEventStatus. repeat case_match; done.
  - unfold System.registerAttendeeForEvent. repeat case_match; done.
  - unfold System.cancelOwnRegistration. repeat case_match; done.
  - unfold System.checkInAttendeeForEvent. repeat case_match; done.
  - unfold System.updateCurrentLoggedInUserContactInfo. repeat case_match; done.
  - unfold System.updateInventoryItemDetails. repeat case_match; done.
  - unfold System.trackInventoryAllocationToEvent. repeat case_match; done.
Qed.

Lemma step_users op s :
  System.users (System.step op s).2 = System.users s
  \/ exists uname,
       System.users (System.step op s).2
       = List.filter (fun q : nat * User.t => negb (String.eqb (User.username q.2) uname))
                     (System.users s).
Proof.
  destruct op; simpl.
  - unfold System.deleteUserAccount.
    pose proof (remove_if_kept (fun q : nat * User.t => String.eqb (User.username q.2) uname)
                  (System.users s)) as Hk.
    repeat case_match; simpl in *; try (by left); right; exists uname; by subst.
  - left. unfold System.deleteEvent. repeat case_match; done.
  - left. unfold System.updateEventStatus. repeat case_match; done.
  - left. unfold System.registerAttendeeForEvent. repeat case_match; done.
  - left. unfold System.cancelOwnRegistration. repeat case_match; done.
  - left. unfold System.checkInAttendeeForEvent. repeat case_match; done.
  - left. unfold System.updateCurrentLoggedInUserContactInfo. repeat case_match; done.
  - left. unfold System.updateInventoryItemDetails. repeat case_match; done.
  - left. unfold System.trackInventoryAllocationToEvent. repeat case_match; done.
Qed.

Lemma allocate_itemId q i : InventoryItem.itemId (InventoryItem.allocate q i).1.2 = InventoryItem.itemId i.
Proof. unfold InventoryItem.allocate. repeat case_match; done. Qed.

Lemma deallocate_itemId q i :
  InventoryItem.itemId (InventoryItem.deallocate q i).1.2 = InventoryItem.itemId i.
Proof. unfold InventoryItem.deallocate. repeat case_match; done. Qed.

Lemma setTotalQuantity_itemId q i :
  InventoryItem.itemId (InventoryItem.setTotalQuantity q i).2 = InventoryItem.itemId i.
Proof. unfold InventoryItem.setTotalQuantity. repeat case_match; done. Qed.

Lemma return_allocations_ids pairs acc :
  InventoryItem.itemId <$> (fold_left System.return_allocation pairs acc).2
  = InventoryItem.itemId <$> acc.2.
Proof.
  revert acc. induction pairs as [|pair pairs IH]; intros acc; simpl; [done|].
  rewrite IH. destruct acc as [log inv]. unfold System.return_allocation. simpl.
  destruct (find_index _ inv) as [k|]; [|done].
  destruct (inv !! k) as [item|] eqn:Hk; [|done].
  pose proof (deallocate_itemId pair.2 item) as Hd.
  destruct (InventoryItem.deallocate pair.2 item) as [[log' item'] b]. simpl in *.
  by apply fmap_insert_same with item.
Qed.

Lemma step_item_ids op s : item_ids (System.step op s).2 = item_ids s.
Proof.
  unfold item_ids. pose proof (step_inventory_untouched op s) as Hu.
  destruct op; simpl in *; try (by rewrite Hu).
  - unfold System.deleteEvent.
    destruct (remove_if _ (System.events s)) as [kept [|it back]]; [done|].
    pose proof (return_allocations_ids (items (Event.allocatedInventory it))
                  ([], System.inventory s)) as Hr.
    by destruct (fold_left _ _ _) as [log inv].
  - unfold System.updateInventoryItemDetails.
    destruct (System.findInventoryItemById itemId s) as [k|]; [|done].
    destruct (System.inventory s !! k) as [item|] eqn:Hk; [|done].
    pose proof (setTotalQuantity_itemId new_int_val item) as Ht.
    destruct (InventoryItem.setTotalQuantity new_int_val item) as [log item'].
    repeat case_match; simpl in *; try done; by apply fmap_insert_same with item.
  - unfold System.trackInventoryAllocationToEvent.
    destruct (System.findEventById eventId s) as [ke|]; [|done].
    destruct (System.events s !! ke) as [event|]; [|done].
    destruct (choice =? 1).
    + destruct (System.findInventoryItemById itemId s) as [ki|]; [|done].
      destruct (System.inventory s !! ki) as [item|] eqn:Hki; [|done].
      pose proof (allocate_itemId quantity item) as Ha.
      destruct (InventoryItem.allocate quantity item) as [[log item'] ok]. simpl in Ha.
      destruct ok; simpl; by apply fmap_insert_same with item.
    + destruct (choice =? 2); [|done].
      destruct (System.findInventoryItemById itemId s) as [ki|]; [|done].
      destruct (System.inventory s !! ki) as [item|] eqn:Hki; [|done].
      destruct (Event.allocatedInventory event !! itemId); [|done].
      destruct (Event.deallocateInventoryItem _ quantity event) as [event' actual].
      destruct (0 <? actual); [|done].
      pose proof (deallocate_itemId actual item) as Hd.
      destruct (InventoryItem.deallocate actual item) as [[log item'] ok]. simpl in Hd.
      simpl. by apply fmap_insert_same with item.
Qed.

Ltac upd := eapply events_updated; [eassumption|by constructor].

Lemma step_events op s :
  Events_step s (System.events (System.step op s).2) (System.nextEventId (System.step op s).2).
Proof.
  destruct (step_counters op s) as (_ & -> & _).
  destruct op; simpl.
  - assert (System.events (System.deleteUserAccount uname s).2 = System.events s) as ->;
      [|constructor].
    unfold System.deleteUserAccount. repeat case_match; done.
  - rewrite deleteEvent_events. constructor.
  - unfold System.updateEventStatus.
    destruct (System.findEventById eventId s) as [k|]; [|constructor].
    destruct (System.events s !! k) as [event|] eqn:Hk; [|constructor].
    repeat case_match; simpl; try (by constructor); upd.
  - unfold System.registerAttendeeForEvent.
    destruct (System.current s) as [user|]; [|constructor].
    destruct (User.role user =? Role.ADMIN); [constructor|].
    destruct (System.findEventById eventId s) as [k|]; [|constructor].
    destruct (System.events s !! k) as [event|] eqn:Hk; [|constructor].
    destruct (_ || _); [constructor|].
    repeat case_match; simpl; subst;
      match goal with
      | H : Event.addAttendee ?a event = (_, ?e') |- _ =>
          replace e' with (Event.addAttendee a event).2 by (by rewrite H)
      end; upd.
  - unfold System.cancelOwnRegistration.
    destruct (System.current s) as [user|]; [|constructor].
    destruct (User.role user =? Role.ADMIN); [constructor|].
    destruct (System.findEventById eventId s) as [k|]; [|constructor].
    destruct (System.events s !! k) as [event|] eqn:Hk; [|constructor].
    repeat case_match; simpl; try (by constructor); upd.
  - assert (System.events (System.checkInAttendeeForEvent eventId attendeeId s).2
            = System.events s) as ->; [|constructor].
    unfold System.checkInAttendeeForEvent. repeat case_match; done.
  - assert (System.events (System.updateCurrentLoggedInUserContactInfo newContact s).2
            = System.events s) as ->; [|constructor].
    unfold System.updateCurrentLoggedInUserContactInfo. repeat case_match; done.
  - assert (System.events
              (System.updateInventoryItemDetails itemId choice new_str_val new_int_val s).2
            = System.events s) as ->; [|constructor].
    unfold System.updateInventoryItemDetails. repeat case_match; done.
  - unfold System.trackInventoryAllocationToEvent.
    destruct (System.findEventById eventId s) as [ke|]; [|constructor].
    destruct (System.events s !! ke) as [event|] eqn:Hke; [|constructor].
    destruct (choice =? 1).
    + destruct (System.findInventoryItemById itemId s) as [ki|]; [|constructor].
      destruct (System.inventory s !! ki) as [item|] eqn:Hki; [|constructor].
      destruct (InventoryItem.allocate quantity item) as [[log item'] ok].
      destruct ok; simpl; [|constructor]. upd.
    + destruct (choice =? 2); [|constructor].
      destruct (System.findInventoryItemById itemId s) as [ki|]; [|constructor].
      destruct (System.inventory s !! ki) as [item|] eqn:Hki; [|constructor].
      destruct (Event.allocatedInventory event !! itemId); [|constructor].
      destruct (Event.deallocateInventoryItem _ quantity event) as [event' actual] eqn:Hd.
      replace event' with (Event.deallocateInventoryItem (InventoryItem.itemId item)
                             quantity event).1 by (by rewrite Hd).
      destruct (0 <? actual).
      * destruct (InventoryItem.deallocate actual item) as [[log item'] ok]. simpl.
        upd.
      * simpl. upd.
Qed.

Lemma update_contacts_ids uname newContact l :
  Attendee.attendeeId <$> (System.update_contacts uname newContact l).1
  = Attendee.attendeeId <$> l.
Proof.
  induction l as [|att l IH]; [done|]. cbn [System.update_contacts].
  destruct (_ && _); [done|].
  destruct (System.update_contacts uname newContact l) as [rest' found]. cbn [fst] in *.
  rewrite !fmap_cons, IH. by destruct (System.same_name _ _).
Qed.

Lemma checkIn_attendeeId a : Attendee.attendeeId (Attendee.checkIn a).2 = Attendee.attendeeId a.
Proof. unfold Attendee.checkIn. by destruct (Attendee.isCheckedIn a). Qed.

Lemma step_attendee_ids op s :
  id_step (attendee_ids s) (System.nextAttendeeId s)
          (attendee_ids (System.step op s).2) (System.nextAttendeeId (System.step op s).2).
Proof.
  unfold attendee_ids. destruct op; simpl.
  - unfold System.deleteUserAccount. repeat case_match; by left.
  - unfold System.deleteEvent.
    destruct (remove_if _ (System.events s)) as [kept [|it back]]; [by left|].
    destruct (fold_left _ _ _) as [log inv]. simpl. left. split; [|done].
    rewrite erase_remove_if_filter. apply fmap_sublist, filter_sublist.
  - unfold System.updateEventStatus. repeat case_match; by left.
  - unfold System.registerAttendeeForEvent.
    destruct (System.current s) as [user|]; [|by left].
    destruct (User.role user =? Role.ADMIN); [by left|].
    destruct (System.findEventById eventId s) as [k|]; [|by left].
    destruct (System.events s !! k) as [event|] eqn:Hk; [|by left].
    destruct (_ || _); [by left|].
    destruct (find_index _ (System.allAttendees s)) as [j|].
    + destruct (System.allAttendees s !! j) as [a|] eqn:Hj; simpl.
      * destruct (Event.addAttendee _ event). by left.
      * destruct (Event.addAttendee _ event). simpl. right. by rewrite fmap_app.
    + destruct (find_index _ (System.allAttendees s)) as [j|].
      * destruct (System.allAttendees s !! j) as [a|] eqn:Hj; simpl.
        -- destruct (Event.addAttendee _ event). simpl. left. split; [|done].
           by rewrite (fmap_insert_same _ _ _ a).
        -- destruct (Event.addAttendee _ event). simpl. right. by rewrite fmap_app.
      * destruct (Event.addAttendee _ event). simpl. right. by rewrite fmap_app.
  - unfold System.cancelOwnRegistration.
    repeat case_match; simpl; try by left.
    left. split; [|done]. rewrite erase_remove_if_filter. apply fmap_sublist, filter_sublist.
  - unfold System.checkInAttendeeForEvent.
    destruct (System.findEventById eventId s); [|by left].
    destruct (System.findAttendeeInMasterList attendeeId s) as [j|]; [|by left].
    destruct (System.allAttendees s !! j) as [a|] eqn:Hj; [|by left].
    destruct (_ =? _); [|by left].
    pose proof (checkIn_attendeeId a) as Hid.
    destruct (Attendee.checkIn a) as [log a']. simpl in *. left. split; [|done].
    by rewrite (fmap_insert_same _ _ _ a).
  - unfold System.updateCurrentLoggedInUserContactInfo.
    destruct (System.current s) as [user|]; [|by left].
    destruct (User.role user =? Role.ADMIN); [by left|].
    pose proof (update_contacts_ids (User.username user) newContact (System.allAttendees s))
      as Hids.
    destruct (System.update_contacts _ _ _) as [atts [|]]; simpl in *.
    + left. by rewrite Hids.
    + right. by rewrite fmap_app, Hids.
  - unfold System.updateInventoryItemDetails. repeat case_match; by left.
  - unfold System.trackInventoryAllocationToEvent. repeat case_match; by left.
Qed.

Lemma step_tables op s : Tables_step s (System.step op s).2.
Proof.
  destruct (step_counters op s) as (Hu & _ & Hi).
  repeat split.
  - rewrite Hu. destruct (step_users op s) as [->|[uname ->]]; constructor.
  - apply step_events.
  - rewrite Hi. constructor. apply step_item_ids.
  - apply step_attendee_ids.
Qed.

Lemma Tables_step_refl s : Tables_step s s.
Proof.
  unfold Tables_step. split; [constructor|]. split; [constructor|].
  split; [by constructor|by left].
Qed.

Lemma createUserAccount_tables uname pwd role s :
  Tables_step s (System.createUserAccount uname pwd role s).2.
Proof.
  unfold System.createUserAccount.
  destruct (System.usernameExists uname s) eqn:Hex; [apply Tables_step_refl|].
  destruct (String.length pwd <? 6)%nat eqn:Hlen; [apply Tables_step_refl|].
  apply Nat.ltb_ge in Hlen.
  destruct (role =? Role.ADMIN); [|destruct (role =? Role.REGULAR_USER)];
    try apply Tables_step_refl;
    (repeat split; simpl; [by constructor; auto|constructor|by constructor|by left]).
Qed.

Lemma exec_tables c s cin log s' cin' :
  System.exec c s cin = (log, Some (s', cin')) -> Tables_step s s'.
Proof.
  destruct c; simpl.
  - intros ->%said_Some. apply step_tables.
  - unfold System.publicRegisterNewUser.
    intros (uname & cin1 & log1 & log2 & _ & H2 & _)%bind_Some.
    apply bind_Some in H2 as (pwd & cin2 & log3 & log4 & _ & H3 & _).
    apply say_Some in H3 as ->. apply createUserAccount_tables.
  - intros ->%say_Some. apply createUserAccount_tables.
  - unfold System.login.
    intros ([b s1] & cin1 & log1 & log2 & H1 & ->%ret_Some & _)%bind_Some.
    apply bind_Some in H1 as (uname & cin2 & log3 & log4 & _ & H2 & _).
    apply bind_Some in H2 as (pwd & cin3 & log5 & log6 & _ & H3 & _).
    destruct (find _ (System.users s)) as [q|]; apply say_Some in H3; simpl in H3;
      injection H3 as _ ->; exact (Tables_step_refl s).
  - intros ->%say_Some. unfold System.logout.
    destruct (System.currentUser s); exact (Tables_step_refl s).
  - unfold System.createEvent.
    intros (name & cin1 & ? & ? & _ & H &_)%bind_Some.
    apply bind_Some in H as (date & cin2 & ? & ? & [_ Hdate]%ask_Some & H & _).
    apply bind_Some in H as (time & cin3 & ? & ? & [_ Htime]%ask_Some & H & _).
    apply bind_Some in H as (loc & cin4 & ? & ? & _ & H & _).
    apply bind_Some in H as (desc & cin5 & ? & ? & _ & H & _).
    apply bind_Some in H as (cat & cin6 & ? & ? & _ & H & _).
    apply say_Some in H as ->. simpl.
    repeat split; simpl; [constructor|by constructor|by constructor|by left].
  - unfold System.editEventDetails.
    destruct (System.findEventById eventId s) as [k|];
      [|intros ->%say_Some; apply Tables_step_refl].
    destruct (System.events s !! k) as [event|] eqn:Hk;
      [|intros ->%say_Some; apply Tables_step_refl].
    assert (forall valid set,
              (forall x, valid x = true -> Event_update event (set x event)) ->
              System.edit_field valid set k event s cin = (log, Some (s', cin')) ->
              Tables_step s s') as Hedit.
    { intros valid set Hset. unfold System.edit_field.
      intros (x & cin1 & ? & ? & [_ Hx]%ask_Some & ->%say_Some & _)%bind_Some.
      repeat split; simpl; [constructor| |by constructor|by left].
      eapply events_updated; [exact Hk|by apply Hset]. }
    repeat case_match; try (apply Hedit; intros; by constructor).
    + intros ->%ret_Some. apply Tables_step_refl.
    + intros ->%say_Some. apply Tables_step_refl.
  - unfold System.addInventoryItem.
    intros (name & cin1 & ? & ? & _ & H &_)%bind_Some.
    apply bind_Some in H as (desc & cin2 & ? & ? & _ & ->%say_Some & _).
    repeat split; simpl; [constructor|constructor|constructor|by left].
Qed.










(** ** Sessions: users and events *)

Lemma usernameExists_false uname s :
  System.usernameExists uname s = false -> uname ∉ usernames s.
Proof.
  unfold System.usernameExists, usernames. intros Hex Hin.
  apply list_elem_of_fmap in Hin as (q & -> & Hq).
  assert (existsb (fun q' : nat * User.t => String.eqb (User.username q'.2) (User.username q.2))
                  (System.users s) = true); [|congruence].
  apply existsb_exists. exists q. split; [by apply list_elem_of_In|apply String.eqb_refl].
Qed.

(** X10.  In every session of commands the names of the users stay pairwise
    distinct: [createUserAccount] refuses a name in use. *)
Theorem session_usernames_distinct cs s cin log s' cin' :
  System.session cs s cin = (log, Some (s', cin')) ->
  NoDup (usernames s) -> NoDup (usernames s').
Proof.
  apply (session_invariant (fun s => NoDup (usernames s))). clear.
  intros c s cin log s' cin' (Hu & _)%exec_tables Hnd. unfold usernames in *.
  inversion Hu as [Heq Hn|uname Heq Hn|uname pwd role Hex Hlen Hrole Heq Hn].
  - done.
  - eapply sublist_NoDup; [exact Hnd|]. apply fmap_sublist, filter_sublist.
  - rewrite fmap_app. apply NoDup_app. repeat split; [done| |apply NoDup_singleton].
    intros x Hin ->%list_elem_of_singleton. by apply (usernameExists_false _ _ Hex).
Qed.

Lemma session_events_invariant (P : Event.t -> Prop) :
  (forall e e', Event_update e e' -> P e -> P e') ->
  (forall id name date time loc desc cat,
     isValidDate date = true -> isValidTime time = true ->
     P (Event.mk id name date time loc desc cat EventStatus.UPCOMING [] ∅)) ->
  forall cs s cin log s' cin',
    System.session cs s cin = (log, Some (s', cin')) ->
    Forall P (System.events s) -> Forall P (System.events s').
Proof.
  intros Hupd Hnew. apply (session_invariant (fun s => Forall P (System.events s))).
  intros c s cin log s' cin' (_ & He & _)%exec_tables HP.
  inversion He as [Heq Hn|eventId Heq Hn|k e e' Hk Hu Heq Hn|? ? ? ? ? ? Hd Ht Heq Hn].
  - done.
  - eapply Forall_sublist_of; [apply filter_sublist|done].
  - apply Forall_insert; [done|]. apply (Hupd e); [done|]. by eapply Forall_lookup_1.
  - apply Forall_app. split; [done|]. constructor; [by apply Hnew|done].
Qed.

Lemma Event_update_scheduled e e' : Event_update e e' -> scheduled e -> scheduled e'.
Proof.
  unfold scheduled. destruct 1; simpl; try done.
  - unfold Event.addAttendee. by destruct (negb _).
  - unfold Event.allocateInventoryItem. by destruct (0 <? quantity).
  - unfold Event.deallocateInventoryItem. repeat case_match; done.
  - by intros [_ ?].
  - by intros [? _].
Qed.

(** X11.  In every session of commands, events whose date and time pass
    [isValidDate] and [isValidTime] keep such a date and time: [createEvent]
    and [editEventDetails] store only what the validators take. *)
Theorem session_events_scheduled cs s cin log s' cin' :
  System.session cs s cin = (log, Some (s', cin')) ->
  Forall scheduled (System.events s) -> Forall scheduled (System.events s').
Proof.
  apply (session_events_invariant scheduled); [apply Event_update_scheduled|].
  by intros.
Qed.

Lemma has_attendee_false attId e :
  Event.has_attendee attId e = false -> attId ∉ Event.attendeeIds e.
Proof.
  unfold Event.has_attendee. intros Hex Hin.
  assert (existsb (Z.eqb attId) (Event.attendeeIds e) = true); [|congruence].
  apply existsb_exists. exists attId. split; [by apply list_elem_of_In|apply Z.eqb_refl].
Qed.

Lemma erase_first_sublist x l : sublist (Event.erase_first x l) l.
Proof.
  induction l as [|y l IH]; simpl; [done|].
  destruct (y =? x); [by apply sublist_cons|by apply sublist_skip].
Qed.

Lemma Event_update_registered_once e e' :
  Event_update e e' -> registered_once e -> registered_once e'.
Proof.
  unfold registered_once. destruct 1; simpl; try done.
  - unfold Event.addAttendee. destruct (Event.has_attendee attId e) eqn:Hhas; simpl; [done|].
    intros Hnd. apply NoDup_app. repeat split; [done| |apply NoDup_singleton].
    intros x Hin ->%list_elem_of_singleton. by apply (has_attendee_false _ _ Hhas).
  - intros Hnd. eapply sublist_NoDup; [exact Hnd|apply erase_first_sublist].
  - unfold Event.allocateInventoryItem. by destruct (0 <? quantity).
  - unfold Event.deallocateInventoryItem. repeat case_match; done.
Qed.

(** X12.  In every session of commands, events that list no attendee twice
    keep doing so. *)
Theorem session_registered_once cs s cin log s' cin' :
  System.session cs s cin = (log, Some (s', cin')) ->
  Forall registered_once (System.events s) -> Forall registered_once (System.events s').
Proof.
  apply (session_events_invariant registered_once); [apply Event_update_registered_once|].
  intros. apply NoDup_nil_2.
Qed.



(** ** Sessions: the allocation ledger *)

Lemma total_allocated_sum_entries evs itemId :
  total_allocated evs itemId = sum_entries (Event.allocatedInventory <$> evs) itemId.
Proof. induction evs as [|e evs IH]; simpl; [done|]. by rewrite IH. Qed.

Lemma sum_entries_app allocs allocs' itemId :
  sum_entries (allocs ++ allocs') itemId
  = sum_entries allocs itemId + sum_entries allocs' itemId.
Proof. induction allocs as [|m allocs IH]; simpl; [done|]. rewrite IH. lia. Qed.













(** ** Accounts *)

Lemma find_app_fresh {A} (f : A -> bool) (l : list A) (x : A) :
  existsb f l = false -> f x = true -> find f (l ++ [x]) = Some x.
Proof.
  induction l as [|y l IH]; simpl.
  - by intros _ ->.
  - destruct (f y); [done|]. simpl. apply IH.
Qed.

Lemma usernameExists_findUserByUsername uname s :
  System.usernameExists uname s = bool_decide (System.findUserByUsername uname s <> None).
Proof.
  unfold System.usernameExists, System.findUserByUsername.
  induction (System.users s) as [|q l IH]; simpl; [done|].
  by destruct (String.eqb _ uname).
Qed.

(** X15.  [createUserAccount] creates the account exactly when the name is
    not in use, the password has at least 6 characters and the role is ADMIN
    or REGULAR_USER: then the new user is last in the table with the id of
    the counter, and is found by name; otherwise the state is unchanged and
    one of the three refusals is reported. *)
Theorem createUserAccount_creates_iff uname pwd role s :
  let r := System.createUserAccount uname pwd role s in
  (account_acceptable uname pwd role s ->
     r.1 = [UserCreated role uname (System.nextUserId s)]
     /\ System.users r.2
        = System.users s
            ++ [(System.next_address s, User.mk (System.nextUserId s) uname pwd role)]
     /\ System.findUserByUsername uname r.2 = Some (System.next_address s)
     /\ System.usernameExists uname r.2 = true)
  /\ (~ account_acceptable uname pwd role s ->
      r.2 = s
      /\ (r.1 = [UsernameExists] \/ r.1 = [PasswordTooShort] \/ r.1 = [InvalidRole])).
Proof.
  simpl. unfold account_acceptable, System.createUserAccount. split.
  - intros (Hex & Hlen & Hrole). rewrite Hex.
    apply Nat.ltb_ge in Hlen. rewrite Hlen.
    assert (System.findUserByUsername uname (System.push_new_user role uname pwd s)
            = Some (System.next_address s)) as Hfind.
    { unfold System.findUserByUsername, System.push_new_user. simpl.
      rewrite (find_app_fresh _ _ (System.next_address s, User.mk (System.nextUserId s) uname pwd role));
        [done|exact Hex|apply String.eqb_refl]. }
    assert (System.usernameExists uname (System.push_new_user role uname pwd s) = true)
      as Hex'.
    { rewrite usernameExists_findUserByUsername, Hfind. done. }
    destruct Hrole as [-> | ->]; simpl; simpl in Hfind, Hex'; by rewrite ?Hfind, ?Hex'.
  - intros Hnot. destruct (System.usernameExists uname s) eqn:Hex; [by auto|].
    destruct (Nat.ltb_spec (String.length pwd) 6) as [Hlen|Hlen]; [by auto|].
    destruct (Z.eqb_spec role Role.ADMIN) as [Hr|Hr]; [exfalso; apply Hnot; auto|].
    destruct (Z.eqb_spec role Role.REGULAR_USER) as [Hr'|Hr']; [exfalso; apply Hnot; auto|].
    auto.
Qed.

Lemma ask_first valid l rest :
  acceptable valid l -> ask valid (l :: rest) = ([], Some (trim l, rest)).
Proof. intros [Hne Hv]. unfold ask. simpl. by rewrite Hne, Hv. Qed.

Lemma find_Some_In {A} (f : A -> bool) (l : list A) x :
  find f l = Some x -> In x l /\ f x = true.
Proof.
  induction l as [|y l IH]; simpl; [done|].
  destruct (f y) eqn:Hy.
  - intros [= ->]. by split; [left|].
  - intros Hx. destruct (IH Hx). by split; [right|].
Qed.

Lemma find_None_all {A} (f : A -> bool) (l : list A) :
  find f l = None -> forall x, In x l -> f x = false.
Proof.
  induction l as [|y l IH]; simpl; [done|].
  destruct (f y) eqn:Hy; [done|]. intros Hl x [<-|Hx]; [done|by apply IH].
Qed.

Lemma deref_user_live s q :
  NoDup (System.users s).*1 -> In q (System.users s) ->
  System.deref_user s q.1 = Some q.2.
Proof.
  unfold System.deref_user. induction (System.users s) as [|q' l IH]; simpl; [done|].
  intros Hnd Hin. apply NoDup_cons in Hnd as [Hq' Hnd].
  destruct (Nat.eqb_spec q'.1 q.1) as [Heq|Hne].
  - destruct Hin as [->|Hin]; [done|]. exfalso. apply Hq'. rewrite Heq.
    apply list_elem_of_fmap. exists q. split; [done|by apply list_elem_of_In].
  - destruct Hin as [->|Hin]; [done|]. by apply IH.
Qed.

(** X16.  [login] succeeds exactly when some user has the name and the
    password typed (trimmed): then that user is the current user, and
    deleting the account of that name is refused; otherwise nobody is logged
    in any more, whoever was before. *)
Theorem login_checks_credentials s l1 l2 rest :
  acceptable any_string l1 -> acceptable any_string l2 ->
  NoDup (System.users s).*1 ->
  let uname := trim l1 in
  let pwd := trim l2 in
  ((exists q, In q (System.users s)
              /\ User.username q.2 = uname /\ User.password q.2 = pwd) ->
   exists s' u,
     System.login s (l1 :: l2 :: rest) = ([LoginSuccessful uname], Some ((true, s'), rest))
     /\ System.users s' = System.users s
     /\ System.current s' = Some u
     /\ User.username u = uname /\ User.password u = pwd
     /\ System.deleteUserAccount uname s' = ([ErrCannotDeleteLoggedIn], s'))
  /\ ((forall q, In q (System.users s) ->
         ~ (User.username q.2 = uname /\ User.password q.2 = pwd)) ->
      System.login s (l1 :: l2 :: rest)
      = ([LoginFailed], Some ((false, System.set_currentUser None s), rest))).
Proof.
  intros H1 H2 Hnd uname pwd. unfold System.login, bind.
  rewrite (ask_first _ _ _ H1), (ask_first _ _ _ H2). fold uname pwd.
  destruct (find _ (System.users s)) as [q|] eqn:Hfind.
  - apply find_Some_In in Hfind as [Hin [Hu Hp]%andb_true_iff].
    apply String.eqb_eq in Hu, Hp. split.
    + intros _. exists (System.set_currentUser (Some q.1) s), q.2.
      assert (System.current (System.set_currentUser (Some q.1) s) = Some q.2) as Hcur.
      { unfold System.current. simpl.
        change (System.deref_user (System.set_currentUser (Some q.1) s) q.1)
          with (System.deref_user s q.1).
        by apply deref_user_live. }
      simpl. rewrite Hu. repeat split; try done.
      unfold System.deleteUserAccount. rewrite Hcur, Hu, String.eqb_refl. done.
    + intros Hnone. destruct (Hnone q Hin). done.
  - split.
    + intros (q & Hin & Hu & Hp). pose proof (find_None_all _ _ Hfind q Hin) as Hq.
      simpl in Hq. rewrite Hu, Hp, !String.eqb_refl in Hq. done.
    + done.
Qed.

Lemma push_new_user_objects role uname pwd s :
  objects_distinct s -> objects_distinct (System.push_new_user role uname pwd s).
Proof.
  intros [Hnd Hlt]. unfold objects_distinct, System.push_new_user. simpl.
  rewrite fmap_app. simpl. split.
  - apply NoDup_app. repeat split; [done| |apply NoDup_singleton].
    intros p Hin ->%list_elem_of_singleton.
    rewrite Forall_forall in Hlt. specialize (Hlt _ Hin). lia.
  - apply Forall_app. split; [|constructor; [lia|done]].
    eapply Forall_impl; [exact Hlt|]. simpl. lia.
Qed.

Lemma step_next_address op s :
  System.next_address (System.step op s).2 = System.next_address s.
Proof.
  destruct op; simpl.
  - unfold System.deleteUserAccount. repeat case_match; done.
  - unfold System.deleteEvent. repeat case_match; done.
  - unfold System.updateEventStatus. repeat case_match; done.
  - unfold System.registerAttendeeForEvent. repeat case_match; done.
  - unfold System.cancelOwnRegistration. repeat case_match; done.
  - unfold System.checkInAttendeeForEvent. repeat case_match; done.
  - unfold System.updateCurrentLoggedInUserContactInfo. repeat case_match; done.
  - unfold System.updateInventoryItemDetails. repeat case_match; done.
  - unfold System.trackInventoryAllocationToEvent. repeat case_match; done.
Qed.

Lemma createUserAccount_objects uname pwd role s :
  objects_distinct s -> objects_distinct (System.createUserAccount uname pwd role s).2.
Proof.
  unfold System.createUserAccount. repeat case_match; simpl; try done;
    apply push_new_user_objects.
Qed.

Lemma exec_objects_distinct c s cin log s' cin' :
  System.exec c s cin = (log, Some (s', cin')) -> objects_distinct s -> objects_distinct s'.
Proof.
  destruct c; simpl.
  - intros ->%said_Some [Hnd Hlt]. unfold objects_distinct.
    rewrite step_next_address. destruct (step_users op s) as [->|[uname ->]]; [done|].
    split.
    + eapply sublist_NoDup; [exact Hnd|]. apply fmap_sublist, filter_sublist.
    + eapply Forall_sublist_of; [|exact Hlt]. apply fmap_sublist, filter_sublist.
  - unfold System.publicRegisterNewUser.
    intros (uname & cin1 & log1 & log2 & _ & H2 & _)%bind_Some.
    apply bind_Some in H2 as (pwd & cin2 & log3 & log4 & _ & H3 & _).
    apply say_Some in H3 as ->. apply createUserAccount_objects.
  - intros ->%say_Some. apply createUserAccount_objects.
  - unfold System.login.
    intros ([b s1] & cin1 & log1 & log2 & H1 & ->%ret_Some & _)%bind_Some.
    apply bind_Some in H1 as (uname & cin2 & log3 & log4 & _ & H2 & _).
    apply bind_Some in H2 as (pwd & cin3 & log5 & log6 & _ & H3 & _).
    destruct (find _ (System.users s)) as [q|]; apply say_Some in H3; simpl in H3;
      by injection H3 as _ ->.
  - intros ->%say_Some. unfold System.logout. by destruct (System.currentUser s).
  - unfold System.createEvent.
    intros (name & cin1 & ? & ? & _ & H &_)%bind_Some.
    apply bind_Some in H as (date & cin2 & ? & ? & _ & H & _).
    apply bind_Some in H as (time & cin3 & ? & ? & _ & H & _).
    apply bind_Some in H as (loc & cin4 & ? & ? & _ & H & _).
    apply bind_Some in H as (desc & cin5 & ? & ? & _ & H & _).
    apply bind_Some in H as (cat & cin6 & ? & ? & _ & H & _).
    by apply say_Some in H as ->.
  - unfold System.editEventDetails, System.edit_field.
    repeat case_match;
      try (by intros ->%say_Some); try (by intros ->%ret_Some);
      by intros (x & cin1 & ? & ? & _ & ->%say_Some & _)%bind_Some.
  - unfold System.addInventoryItem.
    intros (name & cin1 & ? & ? & _ & H &_)%bind_Some.
    by apply bind_Some in H as (desc & cin2 & ? & ? & _ & ->%say_Some & _).
Qed.

Lemma loadUsers_lines_objects lines s :
  objects_distinct s -> objects_distinct (System.loadUsers_lines lines s).2.
Proof.
  revert s. induction lines as [|line lines IH]; intros s Hs; simpl; [done|].
  destruct (negb (string_empty line)); [|by apply IH].
  destruct (User.fromString line) as [log [u|]].
  - match goal with |- context [System.loadUsers_lines lines ?s1] =>
      specialize (IH s1); destruct (System.loadUsers_lines lines s1) as [log' s''] end.
    simpl in *. apply IH. destruct Hs as [Hnd Hlt]. unfold objects_distinct. simpl.
    rewrite fmap_app. simpl. split.
    + apply NoDup_app. repeat split; [done| |apply NoDup_singleton].
      intros p Hin ->%list_elem_of_singleton.
      rewrite Forall_forall in Hlt. specialize (Hlt _ Hin). lia.
    + apply Forall_app. split; [|constructor; [lia|done]].
      eapply Forall_impl; [exact Hlt|]. simpl. lia.
  - specialize (IH s Hs). by destruct (System.loadUsers_lines lines s) as [log' s''].
Qed.

Lemma loadEvents_lines_users lines s log s' :
  System.loadEvents_lines lines s = Done log s' ->
  System.users s' = System.users s /\ System.next_address s' = System.next_address s.
Proof.
  revert s log. induction lines as [|line lines IH]; intros s log; simpl.
  - by intros [= _ <-].
  - destruct (negb (string_empty line)); [|by apply IH].
    destruct (Event.fromString line) as [log1 e|]; [|done].
    match goal with |- context [System.loadEvents_lines lines ?s1] =>
      specialize (IH s1); destruct (System.loadEvents_lines lines s1) as [log' s''|] end;
      [|done].
    intros [= _ <-]. by destruct (IH _ eq_refl).
Qed.

Lemma loadInventory_lines_users lines s :
  System.users (System.loadInventory_lines lines s).2 = System.users s
  /\ System.next_address (System.loadInventory_lines lines s).2 = System.next_address s.
Proof.
  revert s. induction lines as [|line lines IH]; intros s; simpl; [done|].
  destruct (negb (string_empty line)); [|by apply IH].
  destruct (InventoryItem.fromString line) as [log i].
  match goal with |- context [System.loadInventory_lines lines ?s1] =>
    specialize (IH s1); destruct (System.loadInventory_lines lines s1) as [log' s''] end.
  done.
Qed.

Lemma loadAttendees_lines_users lines s :
  System.users (System.loadAttendees_lines lines s).2 = System.users s
  /\ System.next_address (System.loadAttendees_lines lines s).2 = System.next_address s.
Proof.
  revert s. induction lines as [|line lines IH]; intros s; simpl; [done|].
  destruct (negb (string_empty line)); [|by apply IH].
  destruct (Attendee.fromString line) as [log i].
  match goal with |- context [System.loadAttendees_lines lines ?s1] =>
    specialize (IH s1); destruct (System.loadAttendees_lines lines s1) as [log' s''] end.
  done.
Qed.

(** Every state the program reaches has distinct live objects. *)
Lemma startup_objects_distinct f log s :
  System.startup f = Done log s -> objects_distinct s.
Proof.
  unfold System.startup.
  destruct (System.loadData f System.init) as [log0 s0|] eqn:Hload; [|done].
  intros [= _ <-].
  assert (objects_distinct s0) as Hs0.
  { revert Hload. unfold System.loadData, System.loadUsers, System.loadEvents,
      System.loadInventory, System.loadAttendees.
    assert (objects_distinct System.init) as Hinit.
    { split; simpl; constructor. }
    assert (objects_distinct
              (match System.USERS_FILE f with
               | Some lines => System.loadUsers_lines lines System.init
               | None => ([], System.init)
               end).2) as H1.
    { destruct (System.USERS_FILE f); [by apply loadUsers_lines_objects|done]. }
    destruct (match System.USERS_FILE f with Some _ => _ | None => _ end) as [log1 s1].
    simpl in H1.
    assert (forall log2 s2,
              match System.EVENTS_FILE f with
              | Some lines => System.loadEvents_lines lines s1
              | None => Done [] s1
              end = Done log2 s2 ->
              System.users s2 = System.users s1
              /\ System.next_address s2 = System.next_address s1) as H2.
    { intros log2 s2. destruct (System.EVENTS_FILE f);
        [apply loadEvents_lines_users|by intros [= _ <-]]. }
    destruct (match System.EVENTS_FILE f with Some _ => _ | None => _ end) as [log2 s2|];
      [|done].
    destruct (H2 _ _ eq_refl) as [Hu2 Ha2].
    assert (let r := match System.INVENTORY_FILE f with
                     | Some lines => System.loadInventory_lines lines s2
                     | None => ([], s2)
                     end in
            System.users r.2 = System.users s2
            /\ System.next_address r.2 = System.next_address s2) as H3.
    { destruct (System.INVENTORY_FILE f); [apply loadInventory_lines_users|done]. }
    destruct (match System.INVENTORY_FILE f with Some _ => _ | None => _ end) as [log3 s3].
    destruct H3 as [Hu3 Ha3]. simpl in Hu3, Ha3.
    assert (let r := match System.ATTENDEES_FILE f with
                     | Some lines => System.loadAttendees_lines lines s3
                     | None => ([], s3)
                     end in
            System.users r.2 = System.users s3
            /\ System.next_address r.2 = System.next_address s3) as H4.
    { destruct (System.ATTENDEES_FILE f); [apply loadAttendees_lines_users|done]. }
    destruct (match System.ATTENDEES_FILE f with Some _ => _ | None => _ end) as [log4 s4].
    destruct H4 as [Hu4 Ha4]. simpl in Hu4, Ha4.
    intros [= _ <-]. unfold objects_distinct. simpl.
    by rewrite Hu4, Hu3, Hu2, Ha4, Ha3, Ha2. }
  unfold System.seedInitialData.
  assert (forall s1, objects_distinct s1 ->
            objects_distinct
              (match System.events s1 with
               | [] => System.emplace_event "Summer Music Festival" "2025-07-15" "14:00"
                         "City Park" "Outdoor music event" "Social"
                         (System.emplace_event "Tech Conference 2025" "2025-10-20" "09:00"
                            "Grand Hall" "Annual tech conference" "Conference" s1)
               | _ => s1
               end)) as Hev.
  { intros s1 H1. by destruct (System.events s1). }
  assert (forall s1, objects_distinct s1 ->
            objects_distinct
              (match System.inventory s1 with
               | [] => System.emplace_item "Chairs" 100 "Standard chairs"
                         (System.emplace_item "Projector" 5 "HD Projector" s1)
               | _ => s1
               end)) as Hinv.
  { intros s1 H1. by destruct (System.inventory s1). }
  apply Hinv, Hev. destruct (System.users s0); [|done].
  by repeat apply push_new_user_objects.
Qed.

(** ** Validators *)

Lemma digit_value_bounds c : is_digit c = true -> 0 <= digit_value c <= 9.
Proof.
  unfold is_digit, digit_value. intros [H1 H2]%andb_true_iff.
  apply Nat.leb_le in H1, H2. lia.
Qed.

Lemma stoi_two_digits a b :
  is_digit a = true -> is_digit b = true ->
  stoi (String a (String b EmptyString)) = inr (number [a; b]).
Proof.
  intros Ha Hb. rewrite (stoi_digit_first a _ Ha). simpl. rewrite Ha, Hb.
  pose proof (digit_value_bounds a Ha). pose proof (digit_value_bounds b Hb).
  unfold number. simpl.
  assert (Int.in_range (10 * (10 * 0 + digit_value a) + digit_value b) = true) as ->; [|done].
  unfold Int.in_range, Int.INT_MIN, Int.INT_MAX. apply andb_true_iff. split; apply Z.leb_le; lia.
Qed.

Lemma stoi_four_digits a b c d :
  is_digit a = true -> is_digit b = true -> is_digit c = true -> is_digit d = true ->
  stoi (String a (String b (String c (String d EmptyString)))) = inr (number [a; b; c; d]).
Proof.
  intros Ha Hb Hc Hd. rewrite (stoi_digit_first a _ Ha). simpl. rewrite Ha, Hb, Hc, Hd.
  pose proof (digit_value_bounds a Ha). pose proof (digit_value_bounds b Hb).
  pose proof (digit_value_bounds c Hc). pose proof (digit_value_bounds d Hd).
  unfold number. simpl.
  match goal with |- context [Int.in_range ?v] =>
    assert (Int.in_range v = true) as ->; [|done] end.
  unfold Int.in_range, Int.INT_MIN, Int.INT_MAX. apply andb_true_iff. split; apply Z.leb_le; lia.
Qed.

(** X17.  A date written with eight digits, [dddd-dd-dd], passes
    [isValidDate] exactly when its year is from 1900 to 2100, its month from
    1 to 12 and its day from 1 to 31, whatever the month. *)
Theorem isValidDate_digits y1 y2 y3 y4 m1 m2 d1 d2 :
  Forall (fun c => is_digit c = true) [y1; y2; y3; y4; m1; m2; d1; d2] ->
  isValidDate (date_text y1 y2 y3 y4 m1 m2 d1 d2) = true
  <-> 1900 <= number [y1; y2; y3; y4] <= 2100
      /\ 1 <= number [m1; m2] <= 12 /\ 1 <= number [d1; d2] <= 31.
Proof.
  intros Hd. repeat (apply Forall_cons in Hd as [? Hd]).
  unfold isValidDate, date_text.
  change (String.length _) with 10%nat. cbn [Nat.eqb negb].
  cbn [String.get char_is Ascii.eqb Bool.eqb negb orb String.substring].
  rewrite stoi_four_digits, !stoi_two_digits by done.
  repeat match goal with
         | |- context [?a <? ?b] => destruct (Z.ltb_spec a b); cbn [orb]
         end; split; try done; lia.
Qed.

(** X18.  A time written with four digits, [dd:dd], passes [isValidTime]
    exactly when its hour is at most 23 and its minute at most 59. *)
Theorem isValidTime_digits h1 h2 m1 m2 :
  Forall (fun c => is_digit c = true) [h1; h2; m1; m2] ->
  isValidTime (time_text h1 h2 m1 m2) = true
  <-> number [h1; h2] <= 23 /\ number [m1; m2] <= 59.
Proof.
  intros Hd. repeat (apply Forall_cons in Hd as [? Hd]).
  unfold isValidTime, time_text.
  change (String.length _) with 5%nat. cbn [Nat.eqb negb].
  cbn [String.get char_is Ascii.eqb Bool.eqb negb orb String.substring].
  rewrite !stoi_two_digits by done.
  pose proof (digit_value_bounds h1 ltac:(done)).
  pose proof (digit_value_bounds h2 ltac:(done)).
  pose proof (digit_value_bounds m1 ltac:(done)).
  pose proof (digit_value_bounds m2 ltac:(done)).
  assert (0 <= number [h1; h2] /\ 0 <= number [m1; m2]) as [? ?].
  { unfold number. simpl. lia. }
  repeat match goal with
         | |- context [?a <? ?b] => destruct (Z.ltb_spec a b); cbn [orb]
         end; split; try done; lia.
Qed.

Lemma stoi_passed_over c b :
  passed_over c -> is_digit b = true ->
  stoi (String c (String b EmptyString)) = inr (digit_value b).
Proof.
  intros [-> | ->] Hb; unfold stoi; simpl.
  all: destruct b as [[|] [|] [|] [|] [|] [|] [|] [|]]; try discriminate Hb; reflexivity.
Qed.

(** X19.  [isValidDate] also takes a month and a day written as a blank or a
    plus sign followed by one digit other than 0, the year being from 1900
    to 2100. *)
Theorem isValidDate_one_digit y1 y2 y3 y4 c m c' d :
  Forall (fun c => is_digit c = true) [y1; y2; y3; y4; m; d] ->
  passed_over c -> passed_over c' ->
  isValidDate (date_text y1 y2 y3 y4 c m c' d) = true
  <-> 1900 <= number [y1; y2; y3; y4] <= 2100
      /\ 1 <= digit_value m /\ 1 <= digit_value d.
Proof.
  intros Hd Hc Hc'. repeat (apply Forall_cons in Hd as [? Hd]).
  unfold isValidDate, date_text.
  change (String.length _) with 10%nat. cbn [Nat.eqb negb].
  cbn [String.get char_is Ascii.eqb Bool.eqb negb orb String.substring].
  rewrite stoi_four_digits, !stoi_passed_over by done.
  pose proof (digit_value_bounds m ltac:(done)).
  pose proof (digit_value_bounds d ltac:(done)).
  repeat match goal with
         | |- context [?a <? ?b] => destruct (Z.ltb_spec a b); cbn [orb]
         end; split; try done; lia.
Qed.


(** ** Allocation undone *)

Lemma find_index_insert_same {A} (p : A -> bool) (l : list A) k x x' :
  l !! k = Some x -> p x' = p x -> find_index p (<[k := x']> l) = find_index p l.
Proof.
  revert k. induction l as [|y l IH]; intros k; [done|].
  destruct k as [|k]; simpl.
  - by intros [= ->] ->.
  - intros Hk Hp. by rewrite (IH k Hk Hp).
Qed.

Lemma set_tables_same s :
  System.set_events (System.events s) (System.set_inventory (System.inventory s) s) = s.
Proof. by destruct s. Qed.


(** ** Deleting an event *)

Lemma find_index_None {A} (p : A -> bool) (l : list A) :
  Forall (fun x => p x = false) l -> find_index p l = None.
Proof. induction 1 as [|x l Hx _ IH]; simpl; [done|]. by rewrite Hx, IH. Qed.

(** X22.  Deleting an event that exists removes every event with its id and
    every attendee registered for that id, keeps the other events and
    attendees in order, and leaves users and session alone; the id is no
    longer found. *)
Theorem deleteEvent_cascade eventId s e :
  In e (System.events s) -> Event.eventId e = eventId ->
  let s' := (System.deleteEvent eventId s).2 in
  System.findEventById eventId s' = None
  /\ System.events s'
     = List.filter (fun e' => negb (Event.eventId e' =? eventId)) (System.events s)
  /\ System.allAttendees s'
     = List.filter (fun att => negb (Attendee.eventIdRegisteredFor att =? eventId))
                   (System.allAttendees s)
  /\ System.users s' = System.users s /\ System.currentUser s' = System.currentUser s.
Proof.
  intros Hin Hid s'. subst s'.
  pose proof (deleteEvent_events eventId s) as He.
  pose proof (deleteEvent_attendees eventId s e Hin Hid) as Ha.
  repeat split; try done.
  - unfold System.findEventById. rewrite He. apply find_index_None.
    apply Forall_forall. intros x [_ Hx]%list_elem_of_In%filter_In.
    by apply negb_true_iff in Hx.
  - unfold System.deleteEvent. repeat case_match; done.
  - unfold System.deleteEvent. repeat case_match; done.
Qed.

(** X23.  In every session of commands in which the items added have a
    positive quantity, [0 <= allocatedQuantity <= totalQuantity] stays true
    of every item. *)
Theorem session_consistent cs s cin log s' cin' :
  Forall adds_positive cs ->
  System.session cs s cin = (log, Some (s', cin')) ->
  consistent s -> consistent s'.
Proof.
  intros Hcs. revert s cin log. induction Hcs as [|c cs Hc _ IH]; intros s cin log; simpl.
  { by intros ->%ret_Some. }
  intros (s1 & cin1 & log1 & log2 & H1 & H2 & _)%bind_Some Hs.
  eapply IH; [exact H2|]. clear IH H2. revert H1.
  destruct c; simpl.
  - intros ->%said_Some. by apply step_consistent.
  - unfold System.publicRegisterNewUser.
    intros (uname & cin2 & ? & ? & _ & H2 & _)%bind_Some.
    apply bind_Some in H2 as (pwd & cin3 & ? & ? & _ & H3 & _).
    apply say_Some in H3 as ->. unfold System.createUserAccount.
    repeat case_match; done.
  - intros ->%say_Some. unfold System.createUserAccount. repeat case_match; done.
  - unfold System.login.
    intros ([b s2] & cin2 & ? & ? & H1 & ->%ret_Some & _)%bind_Some.
    apply bind_Some in H1 as (uname & cin3 & ? & ? & _ & H2 & _).
    apply bind_Some in H2 as (pwd & cin4 & ? & ? & _ & H3 & _).
    destruct (find _ (System.users s)) as [q|]; apply say_Some in H3; simpl in H3;
      by injection H3 as _ ->.
  - intros ->%say_Some. unfold System.logout. by destruct (System.currentUser s).
  - unfold System.createEvent.
    intros (name & cin2 & ? & ? & _ & H &_)%bind_Some.
    apply bind_Some in H as (date & cin3 & ? & ? & _ & H & _).
    apply bind_Some in H as (time & cin4 & ? & ? & _ & H & _).
    apply bind_Some in H as (loc & cin5 & ? & ? & _ & H & _).
    apply bind_Some in H as (desc & cin6 & ? & ? & _ & H & _).
    apply bind_Some in H as (cat & cin7 & ? & ? & _ & H & _).
    by apply say_Some in H as ->.
  - unfold System.editEventDetails, System.edit_field.
    repeat case_match;
      try (by intros ->%say_Some); try (by intros ->%ret_Some);
      by intros (x & cin2 & ? & ? & _ & ->%say_Some & _)%bind_Some.
  - unfold System.addInventoryItem.
    intros (name & cin2 & ? & ? & _ & H &_)%bind_Some.
    apply bind_Some in H as (desc & cin3 & ? & ? & _ & ->%say_Some & _).
    unfold consistent. simpl. apply Forall_app. split; [done|].
    constructor; [|done]. unfold item_ok. simpl in *. lia.
Qed.

(** ** Reports *)


(** X25.  When the attendance report gives figures, the event has at least
    one attendee and the number checked in is between 0 and the number
    registered. *)
Theorem attendance_report_bounds eventId s registered checkedIn :
  System.generateAttendanceReportForEvent eventId s = Some (registered, checkedIn) ->
  (0 < registered)%nat /\ 0 <= checkedIn <= Z.of_nat registered.
Proof.
  unfold System.generateAttendanceReportForEvent.
  destruct (System.findEventById eventId s) as [k|]; [|done].
  destruct (System.events s !! k) as [event|]; [|done].
  destruct (Event.attendeeIds event) as [|a ids] eqn:Hids; [done|].
  intros [= <- <-]. split; [simpl; lia|].
  unfold System.checkedInCount. change (S (length ids)) with (length (a :: ids)).
  generalize (a :: ids). intros l.
  assert (forall c, let r := fold_left
            (fun count attId =>
               match System.findAttendeeInMasterList attId s with
               | Some j =>
                   match System.allAttendees s !! j with
                   | Some att => if Attendee.isCheckedIn att then count + 1 else count
                   | None => count
                   end
               | None => count
               end) l c in
          c <= r <= c + Z.of_nat (length l)) as Hfold.
  { induction l as [|x l IH]; intros c; simpl; [lia|].
    match goal with |- context [fold_left _ l ?c1] =>
      specialize (IH c1); assert (c <= c1 <= c + 1) by (repeat case_match; lia) end.
    simpl in IH. lia. }
  specialize (Hfold 0). simpl in Hfold. lia.
Qed.

(** ** Registration *)



Lemma filter_all {A} (f : A -> bool) (l : list A) :
  Forall (fun x => f x = true) l -> List.filter f l = l.
Proof. induction 1 as [|x l Hx _ IH]; simpl; [done|]. by rewrite Hx, IH. Qed.


Lemma addAttendee_has attId e : Event.has_attendee attId (Event.addAttendee attId e).2 = true.
Proof.
  unfold Event.addAttendee. destruct (Event.has_attendee attId e) eqn:Hhas; simpl; [done|].
  unfold Event.has_attendee. simpl. rewrite existsb_app. simpl.
  by rewrite Z.eqb_refl, orb_true_r.
Qed.

Lemma find_index_app_fresh {A} (p : A -> bool) (l : list A) x :
  find_index p l = None -> p x = true -> find_index p (l ++ [x]) = Some (length l).
Proof.
  induction l as [|y l IH]; simpl.
  - by intros _ ->.
  - destruct (p y); [done|]. destruct (find_index p l); [done|].
    intros _ Hx. by rewrite IH.
Qed.

Lemma set_contactInfo_same a : Attendee.set_contactInfo (Attendee.contactInfo a) a = a.
Proof. by destruct a. Qed.

(** Registering where the record to use is found and the event already
    lists it changes nothing. *)
Lemma register_again t eventId contact user k e j a :
  System.current t = Some user -> User.role user <> Role.ADMIN ->
  System.findEventById eventId t = Some k -> System.events t !! k = Some e ->
  (Event.status e =? EventStatus.CANCELED) || (Event.status e =? EventStatus.COMPLETED)
  = false ->
  System.allAttendees t !! j = Some a ->
  find_index (fun att => System.same_name (Attendee.name att) (User.username user)
                         && (Attendee.eventIdRegisteredFor att =? eventId))
             (System.allAttendees t) = Some j
  \/ (find_index (fun att => System.same_name (Attendee.name att) (User.username user)
                             && (Attendee.eventIdRegisteredFor att =? eventId))
                 (System.allAttendees t) = None
      /\ find_index (fun att => System.same_name (Attendee.name att) (User.username user)
                                && (Attendee.eventIdRegisteredFor att =? 0))
                    (System.allAttendees t) = Some j
      /\ Attendee.contactInfo a = contact) ->
  Event.has_attendee (Attendee.attendeeId a) e = true ->
  (System.registerAttendeeForEvent eventId contact t).2 = t.
Proof.
  intros Hcur Hrole Hfe Hk Hstatus Hj Hfound Hhas.
  unfold System.registerAttendeeForEvent. rewrite Hcur.
  destruct (Z.eqb_spec (User.role user) Role.ADMIN); [done|].
  rewrite Hfe, Hk, Hstatus.
  destruct Hfound as [-> | (-> & -> & <-)]; rewrite Hj; simpl.
  - unfold Event.addAttendee. rewrite Hhas. simpl.
    rewrite list_insert_id by done. by destruct t.
  - rewrite set_contactInfo_same. unfold Event.addAttendee. rewrite Hhas. simpl.
    rewrite !list_insert_id by done. by destruct t.
Qed.

(** X27.  Registering for the same event with the same contact a second time
    changes nothing, whatever the first attempt did. *)
Theorem register_twice s eventId contact :
  let s1 := (System.registerAttendeeForEvent eventId contact s).2 in
  (System.registerAttendeeForEvent eventId contact s1).2 = s1.
Proof.
  intros s1. subst s1.
  remember (System.registerAttendeeForEvent eventId contact s) as r eqn:Hr.
  assert (r.2 = s -> (System.registerAttendeeForEvent eventId contact r.2).2 = r.2)
    as Hsame.
  { intros Heq. rewrite Heq at 1. rewrite <- Hr. by rewrite Heq. }
  unfold System.registerAttendeeForEvent in Hr.
  destruct (System.current s) as [user|] eqn:Hcur; [|subst r; by apply Hsame].
  destruct (Z.eqb_spec (User.role user) Role.ADMIN) as [Hadmin|Hrole];
    [subst r; by apply Hsame|].
  destruct (System.findEventById eventId s) as [k|] eqn:Hfe; [|subst r; by apply Hsame].
  destruct (System.events s !! k) as [event|] eqn:Hk; [|subst r; by apply Hsame].
  destruct ((Event.status event =? EventStatus.CANCELED)
            || (Event.status event =? EventStatus.COMPLETED)) eqn:Hstatus;
    [subst r; by apply Hsame|].
  clear Hsame.
  assert (forall attId, Event.status (Event.addAttendee attId event).2 = Event.status event)
    as Hst.
  { intros attId. unfold Event.addAttendee. by destruct (negb _). }
  assert (forall attId, Event.eventId (Event.addAttendee attId event).2 = Event.eventId event)
    as Heid.
  { intros attId. unfold Event.addAttendee. by destruct (negb _). }
  match type of Hr with context [find_index ?p (System.allAttendees s)] =>
    destruct (find_index p (System.allAttendees s)) as [j|] eqn:H1 end.
  - pose proof (find_index_Some _ _ _ H1) as (a & Hj & _). rewrite Hj in Hr. simpl in Hr.
    pose proof (addAttendee_has (Attendee.attendeeId a) event) as Hhas.
    specialize (Hst (Attendee.attendeeId a)). specialize (Heid (Attendee.attendeeId a)).
    destruct (Event.addAttendee (Attendee.attendeeId a) event) as [log e1]. simpl in *.
    subst r. cbn [snd].
    apply (register_again _ eventId contact user k e1 j a); try done.
    + unfold System.findEventById. simpl.
      rewrite (find_index_insert_same _ _ k event e1 Hk) by (by rewrite Heid). exact Hfe.
    + simpl. by rewrite list_lookup_insert_eq by (by eapply lookup_lt_Some).
    + by rewrite Hst.
    + by left.
  - match type of Hr with context [find_index ?p (System.allAttendees s)] =>
      destruct (find_index p (System.allAttendees s)) as [j|] eqn:H2 end.
    + pose proof (find_index_Some _ _ _ H2) as (a & Hj & _). rewrite Hj in Hr. simpl in Hr.
      pose proof (addAttendee_has (Attendee.attendeeId a) event) as Hhas.
      specialize (Hst (Attendee.attendeeId a)). specialize (Heid (Attendee.attendeeId a)).
      destruct (Event.addAttendee (Attendee.attendeeId a) event) as [log e1]. simpl in *.
      subst r. cbn [snd].
      apply (register_again _ eventId contact user k e1 j
               (Attendee.set_contactInfo contact a)); try done.
      * unfold System.findEventById. simpl.
        rewrite (find_index_insert_same _ _ k event e1 Hk) by (by rewrite Heid). exact Hfe.
      * simpl. by rewrite list_lookup_insert_eq by (by eapply lookup_lt_Some).
      * by rewrite Hst.
      * simpl. by rewrite list_lookup_insert_eq by (by eapply lookup_lt_Some).
      * right. simpl.
        rewrite !(find_index_insert_same _ _ j a (Attendee.set_contactInfo contact a) Hj)
          by done.
        done.
    + simpl in Hr.
      pose proof (addAttendee_has (System.nextAttendeeId s) event) as Hhas.
      specialize (Hst (System.nextAttendeeId s)). specialize (Heid (System.nextAttendeeId s)).
      destruct (Event.addAttendee (System.nextAttendeeId s) event) as [log e1]. simpl in *.
      subst r. cbn [snd].
      apply (register_again _ eventId contact user k e1 (length (System.allAttendees s))
               (Attendee.mk (System.nextAttendeeId s) (User.username user) contact
                            eventId false)); try done.
      * unfold System.findEventById. simpl.
        rewrite (find_index_insert_same _ _ k event e1 Hk) by (by rewrite Heid). exact Hfe.
      * simpl. by rewrite list_lookup_insert_eq by (by eapply lookup_lt_Some).
      * by rewrite Hst.
      * simpl. by rewrite lookup_app_r, Nat.sub_diag.
      * left. simpl. apply find_index_app_fresh; [done|]. simpl.
        unfold System.same_name. by rewrite String.eqb_refl, Z.eqb_refl.
Qed.

(** ** Searching events *)

Lemma find_all_false {A} (f : A -> bool) (l : list A) :
  Forall (fun x => f x = false) l -> find f l = None.
Proof. induction 1 as [|x l Hx _ IH]; simpl; [done|]. by rewrite Hx. Qed.

Lemma prefix_refl s : String.prefix s s = true.
Proof. induction s as [|c s IH]; simpl; [done|]. by destruct (ascii_dec c c). Qed.

Lemma found_in_refl s : System.found_in s s = true.
Proof.
  unfold System.found_in. apply bool_decide_eq_true.
  destruct s as [|c s]; simpl; [done|].
  destruct (ascii_dec c c); [|done]. by rewrite prefix_refl.
Qed.

(** X28.  An event is found by its full name typed in any letter case, with
    or without white space around it, and every event found holds the term
    in its lower-cased name or in its date. *)
Theorem search_finds_by_name s line rest e :
  acceptable any_string line -> In e (System.events s) ->
  toLower (trim line) = toLower (Event.name e) ->
  exists found,
    System.searchEventsByNameOrDate s (line :: rest) = ([], Some (found, rest))
    /\ In e found
    /\ forall e', In e' found ->
         In e' (System.events s)
         /\ (System.found_in (toLower (trim line)) (toLower (Event.name e')) = true
             \/ System.found_in (toLower (trim line)) (Event.date e') = true).
Proof.
  intros Hline Hin Hname. unfold System.searchEventsByNameOrDate, bind.
  rewrite (ask_first _ _ _ Hline). eexists. split; [reflexivity|]. split.
  - apply list_elem_of_In, list_elem_of_filter. split; [|by apply list_elem_of_In].
    left. rewrite Hname. apply found_in_refl.
  - intros e' [Hm He']%list_elem_of_In%list_elem_of_filter.
    split; [by apply list_elem_of_In|done].
Qed.

(** X29.  A registration that reuses the generic profile of the user (the
    record with event id 0) lists the profile's id in the event, but cannot
    be canceled by the user and cannot be checked in. *)
Theorem generic_profile_registration s eventId contact user k event j a :
  System.current s = Some user -> User.role user <> Role.ADMIN ->
  System.findEventById eventId s = Some k -> System.events s !! k = Some event ->
  Event.status event <> EventStatus.CANCELED ->
  Event.status event <> EventStatus.COMPLETED ->
  eventId <> 0 ->
  Forall (fun att => (System.same_name (Attendee.name att) (User.username user)
                      && (Attendee.eventIdRegisteredFor att =? eventId)) = false)
         (System.allAttendees s) ->
  find_index (fun att => System.same_name (Attendee.name att) (User.username user)
                         && (Attendee.eventIdRegisteredFor att =? 0))
             (System.allAttendees s) = Some j ->
  System.allAttendees s !! j = Some a ->
  System.findAttendeeInMasterList (Attendee.attendeeId a) s = Some j ->
  let s1 := (System.registerAttendeeForEvent eventId contact s).2 in
  (exists event1, System.events s1 !! k = Some event1
                  /\ Event.has_attendee (Attendee.attendeeId a) event1 = true)
  /\ System.cancelOwnRegistration eventId s1 = ([NotRegistered (Event.name event)], s1)
  /\ System.checkInAttendeeForEvent eventId (Attendee.attendeeId a) s1
     = ([AttendeeNotFoundOrNotRegistered (Attendee.attendeeId a) eventId], s1).
Proof.
  intros Hcur Hrole Hfe Hk Hc1 Hc2 Hev0 Hnone Hgen Hj Hfind.
  pose proof (find_index_Some _ _ _ Hgen) as (a0 & Hj0 & Hpa & _).
  rewrite Hj in Hj0. injection Hj0 as <-.
  apply andb_true_iff in Hpa as [Hname Hzero%Z.eqb_eq].
  set (a1 := Attendee.set_contactInfo contact a).
  set (event1 := (Event.addAttendee (Attendee.attendeeId a) event).2).
  assert (Event.name event1 = Event.name event /\ Event.eventId event1 = Event.eventId event)
    as [Hname1 Hid1].
  { unfold event1, Event.addAttendee. by destruct (negb _). }
  assert ((System.registerAttendeeForEvent eventId contact s).2
          = System.set_events (<[k := event1]> (System.events s))
              (System.set_allAttendees (<[j := a1]> (System.allAttendees s)) s)) as H1.
  { unfold System.registerAttendeeForEvent. rewrite Hcur.
    destruct (Z.eqb_spec (User.role user) Role.ADMIN); [done|].
    rewrite Hfe, Hk.
    destruct (Z.eqb_spec (Event.status event) EventStatus.CANCELED); [done|].
    destruct (Z.eqb_spec (Event.status event) EventStatus.COMPLETED); [done|].
    simpl. rewrite (find_index_None _ _ Hnone), Hgen, Hj. simpl.
    fold a1. unfold event1. by destruct (Event.addAttendee _ event). }
  intros s1. subst s1. rewrite H1.
  assert (forall p : Attendee.t -> bool,
            p a1 = p a ->
            find_index p (<[j := a1]> (System.allAttendees s))
            = find_index p (System.allAttendees s)) as Hsame.
  { intros p Hp. by apply find_index_insert_same with a. }
  split; [|split].
  - exists event1. simpl. split.
    + by rewrite list_lookup_insert_eq by (by eapply lookup_lt_Some).
    + apply addAttendee_has.
  - unfold System.cancelOwnRegistration.
    change (System.current (System.set_events _ _)) with (System.current s).
    rewrite Hcur. destruct (Z.eqb_spec (User.role user) Role.ADMIN); [done|].
    unfold System.findEventById. cbn [System.events System.set_events].
    rewrite (find_index_insert_same _ _ k event event1 Hk) by (by rewrite Hid1).
    fold (System.findEventById eventId s). rewrite Hfe.
    rewrite list_lookup_insert_eq by (by eapply lookup_lt_Some).
    cbn [System.allAttendees System.set_events System.set_allAttendees].
    assert (find (fun att => System.same_name (Attendee.name att) (User.username user)
                             && (Attendee.eventIdRegisteredFor att =? eventId))
                 (<[j := a1]> (System.allAttendees s)) = None) as ->.
    { apply find_all_false. apply Forall_insert; [done|].
      simpl. rewrite Hzero. destruct (Z.eqb_spec 0 eventId); [done|]. apply andb_false_r. }
    simpl. by rewrite Hname1.
  - unfold System.checkInAttendeeForEvent, System.findEventById,
      System.findAttendeeInMasterList.
    cbn [System.events System.allAttendees System.set_events System.set_allAttendees].
    rewrite (find_index_insert_same _ _ k event event1 Hk) by (by rewrite Hid1).
    fold (System.findEventById eventId s). rewrite Hfe.
    rewrite Hsame by done.
    fold (System.findAttendeeInMasterList (Attendee.attendeeId a) s). rewrite Hfind.
    rewrite list_lookup_insert_eq by (by eapply lookup_lt_Some).
    simpl. rewrite Hzero. by destruct (Z.eqb_spec 0 eventId).
Qed.

(** ** Deleting the last event *)

(** The loop of [deleteEvent] over allocations that the items cover. *)
Lemma return_allocations_balance (B : Z -> Z) pairs log inv :
  NoDup pairs.*1 ->
  Forall (fun p : Z * Z => 0 < p.2 /\ p.1 ∈ InventoryItem.itemId <$> inv) pairs ->
  NoDup (InventoryItem.itemId <$> inv) ->
  (forall id, 0 <= B id) ->
  Forall (fun i => InventoryItem.allocatedQuantity i
                   = B (InventoryItem.itemId i) + credited pairs (InventoryItem.itemId i))
         inv ->
  let inv' := (fold_left System.return_allocation pairs (log, inv)).2 in
  InventoryItem.itemId <$> inv' = InventoryItem.itemId <$> inv
  /\ Forall (fun i => InventoryItem.allocatedQuantity i = B (InventoryItem.itemId i)) inv'.
Proof.
  intros Hnd Hpairs. revert log inv Hpairs.
  induction pairs as [|[k v] pairs IH]; intros log inv Hpairs Hids HB Hinv; simpl.
  { split; [done|]. eapply Forall_impl; [exact Hinv|]. intros i Hi. simpl in *. lia. }
  apply NoDup_cons in Hnd as [Hk Hnd].
  apply Forall_cons in Hpairs as [[Hv Hkin] Hpairs]. simpl in Hv, Hkin.
  apply list_elem_of_fmap in Hkin as (item0 & Hk0 & Hin0).
  apply list_elem_of_lookup in Hin0 as [idx Hidx].
  assert (find_index (fun i => InventoryItem.itemId i =? k) inv = Some idx) as Hfind.
  { subst k. by apply unique_id_first. }
  unfold System.return_allocation at 2. cbn [fst snd]. rewrite Hfind, Hidx.
  pose proof (Forall_lookup_1 _ _ _ _ Hinv Hidx) as Halloc. simpl in Halloc.
  rewrite <- Hk0, Z.eqb_refl, (credited_absent pairs k Hk) in Halloc.
  unfold InventoryItem.deallocate.
  destruct (Z.leb_spec v 0); [lia|].
  pose proof (HB k).
  destruct (Z.leb_spec v (InventoryItem.allocatedQuantity item0)); [|lia].
  set (item1 := InventoryItem.set_allocatedQuantity
                  (InventoryItem.allocatedQuantity item0 - v) item0).
  assert (InventoryItem.itemId <$> <[idx := item1]> inv = InventoryItem.itemId <$> inv)
    as Hids1 by (by apply fmap_insert_same with item0).
  destruct (IH Hnd (log ++ []) (<[idx := item1]> inv)) as [Hids' Hinv'].
  - rewrite Hids1. exact Hpairs.
  - by rewrite Hids1.
  - done.
  - apply Forall_lookup. intros j i Hj.
    destruct (decide (j = idx)) as [->|Hne].
    + rewrite list_lookup_insert_eq in Hj by (by eapply lookup_lt_Some).
      injection Hj as <-. simpl. rewrite <- Hk0, (credited_absent pairs k Hk). lia.
    + rewrite list_lookup_insert_ne in Hj by done.
      pose proof (Forall_lookup_1 _ _ _ _ Hinv Hj) as Hi. simpl in Hi.
      assert (InventoryItem.itemId i <> k) as Hid.
      { intros Heq. apply Hne.
        apply (NoDup_lookup _ j idx k Hids); rewrite list_lookup_fmap.
        - by rewrite Hj, <- Heq.
        - by rewrite Hidx, Hk0. }
      destruct (Z.eqb_spec k (InventoryItem.itemId i)); [congruence|]. lia.
  - split; [by rewrite Hids', Hids1|done].
Qed.

Lemma sum_entries_nonneg allocs itemId :
  Forall (fun m : gmap Z Z => forall k v, m !! k = Some v -> 0 < v) allocs ->
  0 <= sum_entries allocs itemId.
Proof.
  induction 1 as [|m allocs Hm _ IH]; simpl; [lia|].
  unfold entry. destruct (m !! itemId) as [v|] eqn:Hv; simpl; [|lia].
  specialize (Hm _ _ Hv). lia.
Qed.

Lemma stock_ids inv :
  ((fun i => (InventoryItem.itemId i, InventoryItem.allocatedQuantity i)) <$> inv).*1
  = InventoryItem.itemId <$> inv.
Proof. rewrite <- list_fmap_compose. by apply list_fmap_ext. Qed.

(** X30.  Deleting the event that is last in the table, no other event
    having its id, keeps a balanced ledger balanced: every item's
    [allocatedQuantity] becomes the sum of what the remaining events record. *)
Theorem deleteEvent_last_reconciled s before e :
  System.events s = before ++ [e] ->
  Forall (fun e' => Event.eventId e' <> Event.eventId e) before ->
  reconciled s ->
  let s' := (System.deleteEvent (Event.eventId e) s).2 in
  System.events s' = before
  /\ reconciled s'
  /\ forall item, In item (System.inventory s') ->
       InventoryItem.allocatedQuantity item
       = total_allocated before (InventoryItem.itemId item).
Proof.
  intros Hevents Hbefore Hs s'.
  assert (System.events s' = before) as He'.
  { subst s'. rewrite deleteEvent_events, Hevents, List.filter_app. simpl.
    rewrite Z.eqb_refl. simpl. rewrite app_nil_r. apply filter_all.
    eapply Forall_impl; [exact Hbefore|]. intros e' He'. simpl in He'.
    by apply negb_true_iff, Z.eqb_neq. }
  assert (System.nextItemId s' = System.nextItemId s) as Hn'.
  { subst s'. unfold System.deleteEvent. repeat case_match; done. }
  pose proof (deleteEvent_last (Event.eventId e) s before e Hevents eq_refl Hbefore) as Hi'.
  fold s' in Hi'.
  destruct Hs as (Hnd & Hlt & Hall & Hsum).
  unfold allocations in Hall, Hsum. rewrite Hevents, fmap_app in Hall, Hsum.
  apply Forall_app in Hall as [Hall Hm]. apply Forall_cons in Hm as [Hm _].
  simpl in Hm. unfold stock in *. rewrite stock_ids in *.
  set (m := Event.allocatedInventory e) in *.
  assert (items m ≡ₚ map_to_list m) as Hperm by apply merge_sort_Permutation.
  destruct (return_allocations_balance
              (sum_entries (Event.allocatedInventory <$> before))
              (items m) [] (System.inventory s)) as [Hids Hbal].
  - rewrite Hperm. apply NoDup_fst_map_to_list.
  - apply Forall_forall. intros [k v] Hin. rewrite Hperm in Hin.
    apply elem_of_map_to_list in Hin. by apply Hm.
  - done.
  - intros id. apply sum_entries_nonneg.
    eapply Forall_impl; [exact Hall|]. intros m0 Hm0 k v Hk. by destruct (Hm0 k v Hk).
  - apply Forall_fmap in Hsum. eapply Forall_impl; [exact Hsum|].
    intros i Hi. simpl in *. rewrite Hi, sum_entries_app, credited_items. simpl.
    fold m. lia.
  - rewrite <- Hi' in Hids, Hbal.
    assert (reconciled s') as Hs'.
    { unfold reconciled, ledger_ok, allocations, stock.
      rewrite stock_ids, He', Hn', Hids. repeat split; try done.
      apply Forall_fmap. eapply Forall_impl; [exact Hbal|]. intros i Hi. simpl.
      by rewrite Hi. }
    split; [done|]. split; [done|]. intros item Hin.
    rewrite total_allocated_sum_entries. rewrite Forall_forall in Hbal.
    apply Hbal. by apply list_elem_of_In.
Qed.

(** ** The further properties at the scenario *)

Example Desk_session :
  exists notices,
    System.session Desk.commands Scenario.start Desk.typed
    = (notices, Some (Desk.finish, [])).
Proof. eexists. vm_compute. reflexivity. Qed.

Ltac decide_it := apply (bool_decide_unpack _); vm_compute; exact I.

Lemma Cascade_attendees_storable :
  Forall storable_attendee [Cascade.ann; Cascade.bob; Cascade.eve].
Proof. repeat constructor. Qed.

Lemma Scenario_users_storable : Forall storable_user (map snd (System.users Scenario.start)).
Proof.
  constructor; [|constructor; [|constructor]].
  - repeat split; by left.
  - repeat split; by right.
Qed.

Lemma Scenario_events_storable : Forall storable_plain_event (System.events Scenario.start).
Proof. repeat constructor. Qed.

Lemma Scenario_inventory_storable : Forall storable_item (System.inventory Scenario.start).
Proof. repeat constructor. Qed.

Lemma attendees_export_import_witness :
  Forall storable_attendee [Cascade.ann; Cascade.bob; Cascade.eve]
  /\ (System.loadAttendees (System.saveData (Cascade.with_events [])) System.init).1 = []
  /\ System.allAttendees
       (System.loadAttendees (System.saveData (Cascade.with_events [])) System.init).2
     = System.allAttendees System.init ++ [Cascade.ann; Cascade.bob; Cascade.eve].
Proof.
  split; [exact Cascade_attendees_storable|].
  exact (attendees_export_import (System.saveData (Cascade.with_events []))
           [Cascade.ann; Cascade.bob; Cascade.eve] System.init
           Cascade_attendees_storable eq_refl).
Defined.

Lemma inventory_export_import_witness :
  Forall storable_item [Scenario.chairs]
  /\ (System.loadInventory (System.saveData Scenario.start) System.init).1 = []
  /\ System.inventory (System.loadInventory (System.saveData Scenario.start) System.init).2
     = System.inventory System.init ++ [Scenario.chairs].
Proof.
  split; [exact Scenario_inventory_storable|].
  exact (inventory_export_import (System.saveData Scenario.start) [Scenario.chairs]
           System.init Scenario_inventory_storable eq_refl).
Defined.

Lemma users_export_import_witness :
  Forall storable_user (map snd (System.users Scenario.start))
  /\ (System.loadUsers (System.saveData Scenario.start) System.init).1 = []
  /\ map snd (System.users (System.loadUsers (System.saveData Scenario.start) System.init).2)
     = map snd (System.users System.init) ++ map snd (System.users Scenario.start).
Proof.
  split; [exact Scenario_users_storable|].
  exact (users_export_import (System.saveData Scenario.start) (System.users Scenario.start)
           System.init Scenario_users_storable eq_refl).
Defined.

Lemma plain_events_export_import_witness :
  Forall storable_plain_event (System.events Scenario.start)
  /\ exists s', System.loadEvents (System.saveData Scenario.start) System.init = Done [] s'
                /\ System.events s' = System.events System.init ++ System.events Scenario.start.
Proof.
  split; [exact Scenario_events_storable|].
  exact (plain_events_export_import (System.saveData Scenario.start)
           (System.events Scenario.start) System.init Scenario_events_storable eq_refl).
Defined.

Lemma restart_after_save_witness :
  Forall storable_plain_event (System.events Scenario.start)
  /\ exists s',
       System.loadData (System.saveData Scenario.start) System.init = Done [] s'
       /\ map snd (System.users s') = map snd (System.users Scenario.start)
       /\ System.events s' = System.events Scenario.start
       /\ System.inventory s'
          = map (InventoryItem.set_allocatedQuantity 0) (System.inventory Scenario.start)
       /\ System.allAttendees s' = System.allAttendees Scenario.start
       /\ System.currentUser s' = None.
Proof.
  split; [exact Scenario_events_storable|].
  exact (restart_after_save Scenario.start Scenario_users_storable Scenario_events_storable
           Scenario_inventory_storable (Forall_nil_2 _)).
Defined.




Lemma session_usernames_distinct_witness :
  NoDup (usernames Scenario.start) /\ NoDup (usernames Desk.finish).
Proof.
  assert (NoDup (usernames Scenario.start)) as Hstart by decide_it.
  split; [exact Hstart|].
  destruct Desk_session as [notices Hrun].
  exact (session_usernames_distinct Desk.commands Scenario.start Desk.typed notices
           Desk.finish [] Hrun Hstart).
Defined.

Lemma Scenario_scheduled : Forall scheduled (System.events Scenario.start).
Proof. repeat constructor. Qed.

Lemma session_events_scheduled_witness :
  Forall scheduled (System.events Scenario.start)
  /\ Forall scheduled (System.events Desk.finish).
Proof.
  split; [exact Scenario_scheduled|].
  destruct Desk_session as [notices Hrun].
  exact (session_events_scheduled Desk.commands Scenario.start Desk.typed notices
           Desk.finish [] Hrun Scenario_scheduled).
Defined.

Lemma Scenario_registered_once : Forall registered_once (System.events Scenario.start).
Proof. repeat constructor. Qed.

Lemma session_registered_once_witness :
  Forall registered_once (System.events Scenario.start)
  /\ Forall registered_once (System.events Desk.finish).
Proof.
  split; [exact Scenario_registered_once|].
  destruct Desk_session as [notices Hrun].
  exact (session_registered_once Desk.commands Scenario.start Desk.typed notices
           Desk.finish [] Hrun Scenario_registered_once).
Defined.







Lemma Scenario_consistent : consistent Scenario.start.
Proof. constructor; [|constructor]. unfold item_ok. simpl. lia. Qed.

Lemma Desk_adds_positive : Forall adds_positive Desk.commands.
Proof. repeat constructor. Qed.

Lemma session_consistent_witness :
  Forall adds_positive Desk.commands /\ consistent Scenario.start /\ consistent Desk.finish.
Proof.
  split; [exact Desk_adds_positive|]. split; [exact Scenario_consistent|].
  destruct Desk_session as [notices Hrun].
  exact (session_consistent Desk.commands Scenario.start Desk.typed notices
           Desk.finish [] Desk_adds_positive Hrun Scenario_consistent).
Defined.

Lemma login_checks_credentials_witness :
  acceptable any_string " admin" /\ acceptable any_string "adminpass "
  /\ exists s' u,
       System.login Scenario.start [" admin"; "adminpass "]
       = ([LoginSuccessful "admin"], Some ((true, s'), []))
       /\ System.users s' = System.users Scenario.start
       /\ System.current s' = Some u
       /\ User.username u = "admin" /\ User.password u = "adminpass"
       /\ System.deleteUserAccount "admin" s' = ([ErrCannotDeleteLoggedIn], s').
Proof.
  assert (acceptable any_string " admin") as H1 by (by split).
  assert (acceptable any_string "adminpass ") as H2 by (by split).
  assert (NoDup (System.users Scenario.start).*1) as Hnd by decide_it.
  split; [exact H1|]. split; [exact H2|].
  apply (proj1 (login_checks_credentials Scenario.start " admin" "adminpass " [] H1 H2 Hnd)).
  exists (1%nat, User.mk 1 "admin" "adminpass" Role.ADMIN).
  split; [by left|by split].
Defined.

Lemma isValidDate_digits_witness :
  Forall (fun c => is_digit c = true) ["2"; "0"; "2"; "5"; "1"; "0"; "2"; "0"]%char
  /\ (isValidDate "2025-10-20" = true
      <-> 1900 <= number ["2"; "0"; "2"; "5"]%char <= 2100
          /\ 1 <= number ["1"; "0"]%char <= 12 /\ 1 <= number ["2"; "0"]%char <= 31).
Proof.
  assert (Forall (fun c => is_digit c = true) ["2"; "0"; "2"; "5"; "1"; "0"; "2"; "0"]%char)
    as Hd by (repeat constructor).
  split; [exact Hd|].
  exact (isValidDate_digits "2" "0" "2" "5" "1" "0" "2" "0" Hd).
Defined.

Lemma isValidTime_digits_witness :
  Forall (fun c => is_digit c = true) ["2"; "4"; "0"; "0"]%char
  /\ (isValidTime "24:00" = true
      <-> number ["2"; "4"]%char <= 23 /\ number ["0"; "0"]%char <= 59).
Proof.
  assert (Forall (fun c => is_digit c = true) ["2"; "4"; "0"; "0"]%char) as Hd
    by (repeat constructor).
  split; [exact Hd|].
  exact (isValidTime_digits "2" "4" "0" "0" Hd).
Defined.

Lemma isValidDate_one_digit_witness :
  passed_over " " /\ passed_over "+"
  /\ (isValidDate "2025- 7-+4" = true
      <-> 1900 <= number ["2"; "0"; "2"; "5"]%char <= 2100
          /\ 1 <= digit_value "7" /\ 1 <= digit_value "4").
Proof.
  assert (Forall (fun c => is_digit c = true) ["2"; "0"; "2"; "5"; "7"; "4"]%char) as Hd
    by (repeat constructor).
  split; [by left|]. split; [by right|].
  exact (isValidDate_one_digit "2" "0" "2" "5" " " "7" "+" "4" Hd
           (or_introl eq_refl) (or_intror eq_refl)).
Defined.



Lemma deleteEvent_cascade_witness :
  In Cascade.dinner [Cascade.dinner; Cascade.concert]
  /\ System.findEventById 1
       (System.deleteEvent 1 (Cascade.with_events [Cascade.dinner; Cascade.concert])).2
     = None
  /\ System.allAttendees
       (System.deleteEvent 1 (Cascade.with_events [Cascade.dinner; Cascade.concert])).2
     = [Cascade.eve].
Proof.
  assert (In Cascade.dinner [Cascade.dinner; Cascade.concert]) as Hin by (by left).
  split; [exact Hin|].
  destruct (deleteEvent_cascade 1 (Cascade.with_events [Cascade.dinner; Cascade.concert])
              Cascade.dinner Hin eq_refl) as (Hfind & _ & Hatts & _).
  split; [exact Hfind|exact Hatts].
Defined.

Lemma attendance_report_bounds_witness :
  System.generateAttendanceReportForEvent 1
    (Cascade.with_events [Cascade.dinner; Cascade.concert]) = Some (2%nat, 1)
  /\ (0 < 2)%nat /\ 0 <= 1 <= Z.of_nat 2.
Proof.
  split; [reflexivity|].
  exact (attendance_report_bounds 1 (Cascade.with_events [Cascade.dinner; Cascade.concert])
           2%nat 1 eq_refl).
Defined.


Lemma search_finds_by_name_witness :
  acceptable any_string " e2 "
  /\ exists found,
       System.searchEventsByNameOrDate Scenario.start [" e2 "] = ([], Some (found, []))
       /\ In (Scenario.event 2 "E2") found.
Proof.
  assert (acceptable any_string " e2 ") as Hline by (by split).
  split; [exact Hline|].
  destruct (search_finds_by_name Scenario.start " e2 " [] (Scenario.event 2 "E2") Hline)
    as (found & Hrun & Hin & _); [by right; left|reflexivity|].
  exists found. by split.
Defined.

Lemma generic_profile_registration_witness :
  System.allAttendees Desk.with_profile = [Desk.profile]
  /\ System.cancelOwnRegistration 1
       (System.registerAttendeeForEvent 1 "user1@example.org" Desk.with_profile).2
     = ([NotRegistered "E1"],
        (System.registerAttendeeForEvent 1 "user1@example.org" Desk.with_profile).2)
  /\ System.checkInAttendeeForEvent 1 1
       (System.registerAttendeeForEvent 1 "user1@example.org" Desk.with_profile).2
     = ([AttendeeNotFoundOrNotRegistered 1 1],
        (System.registerAttendeeForEvent 1 "user1@example.org" Desk.with_profile).2).
Proof.
  split; [reflexivity|].
  destruct (generic_profile_registration Desk.with_profile 1 "user1@example.org"
              Scenario.user1 0%nat (Scenario.event 1 "E1") 0%nat Desk.profile)
    as (_ & Hcancel & Hcheck); try done.
  repeat constructor.
Defined.

Lemma Cascade_reconciled : reconciled (Cascade.with_events [Cascade.concert; Cascade.dinner]).
Proof.
  unfold reconciled, ledger_ok. repeat split.
  - decide_it.
  - repeat constructor.
  - constructor; [|constructor; [|constructor]]; intros k v; simpl.
    + by rewrite lookup_empty.
    + intros [<- <-]%lookup_singleton_Some. split; [done|]. by apply list_elem_of_here.
  - repeat constructor.
Qed.

Lemma deleteEvent_last_reconciled_witness :
  reconciled (Cascade.with_events [Cascade.concert; Cascade.dinner])
  /\ System.events
       (System.deleteEvent 1 (Cascade.with_events [Cascade.concert; Cascade.dinner])).2
     = [Cascade.concert]
  /\ reconciled
       (System.deleteEvent 1 (Cascade.with_events [Cascade.concert; Cascade.dinner])).2.
Proof.
  split; [exact Cascade_reconciled|].
  destruct (deleteEvent_last_reconciled
              (Cascade.with_events [Cascade.concert; Cascade.dinner])
              [Cascade.concert] Cascade.dinner eq_refl)
    as (Hevents & Hrec & _); [by repeat constructor|exact Cascade_reconciled|].
  split; [exact Hevents|exact Hrec].
Defined.
